(** * Texel density tool (texelGetSet.py): measurement and normalisation

    A shallow embedding of the two button handlers of [MyWindow],
    [getTexelDensity] and [set_texel_density], of the slot
    [saveTexelDensity] and of the helpers [getDistance2D] and
    [getDistance3D], followed by the properties the specification states
    about them.

    Modelling decisions.
    - Python exceptions are values of [exn]; a computation that may raise
      returns a [result]; the handlers, which mutate the dialog and talk to
      the host, live in the monad [M] over [World].
    - Python floats are kept abstract behind the class [PyFloat], which has
      no laws, so every structural theorem holds for any arithmetic.  Two
      instances are given: [binary64] (IEEE 754 doubles, executable, the
      arithmetic CPython uses) and [exactR] (real numbers, the idealisation
      in which the specification's algebra is stated).
    - [math.pow(x, 2)] is an operation of its own of the arithmetic,
      [fpow2]: the C library computes it, and not always as the correctly
      rounded square.  The instance [binary64] takes the correctly rounded
      square for it, [binary64_with_pow] any function on doubles.
    - [getDistance2D] and [getDistance3D] are written in the body of the
      class, without [self], and [getTexelDensity] calls them by their bare
      names.  A method body does not see the names of the class body, so
      such a call is looked up in the global scope of the module; what that
      scope binds is the parameter [Globals] of the measurement.  The file
      binds neither name ([module_globals]); [with_helpers] is a scope that
      binds both to the functions of the class body.
    - The Maya commands are read-only queries on a [Scene], except
      [cmds.unfold], which is a parameter of the development and whose
      invocations are logged.  Console output ([print]) is not modelled.
    - The queries are total: the host answers each of them, with a value
      of the type the code expects (a number of edges, lists of names,
      floats), and raises nothing itself; only [cmds.unfold] may raise.
    - Texts are strings of 8-bit characters; [int_of_str] is [int] on ASCII
      text, without the bound some interpreters put on the number of
      digits.
    - A session of the dialog is a sequence of actions of the user, each
      running the slot [__init__] connects to its signal; an exception
      raised in a slot is reported by the host and ends that slot, the
      dialog lives on. *)

From Stdlib Require Import ZArith List String Ascii Bool Lia.
From Stdlib Require Import DecimalString Floats Reals Lra.
From Stdlib Require DecimalPos.
Import ListNotations.

Local Open Scope string_scope.
Local Open Scope Z_scope.

(** ** Exceptions and results *)

(** The built-in exception classes the code can raise, and [AppError] for a
    class an application would define itself (the source defines none). *)
Inductive exn : Type :=
| ZeroDivisionError
| IndexError
| NameError
| TypeError
| ValueError
| OverflowError
| RuntimeError
| AppError (cls : string).

Inductive result (A : Type) : Type :=
| Ok (a : A)
| Raise (e : exn).

Arguments Ok {A} a.
Arguments Raise {A} e.

Definition rbind {A B : Type} (r : result A) (k : A -> result B) : result B :=
  match r with
  | Ok a => k a
  | Raise e => Raise e
  end.

Declare Scope result_scope.
Delimit Scope result_scope with result.
Notation "x <- r ;; k" := (rbind r (fun x => k))
  (at level 100, r at next level, right associativity) : result_scope.
Notation "' p <- r ;; k" := (rbind r (fun p => k))
  (at level 100, p pattern, r at next level, right associativity) : result_scope.

(** The exceptions Python itself raises. *)
Definition is_builtin (e : exn) : bool :=
  match e with
  | AppError _ => false
  | _ => true
  end.

(** [l[i]] on a Python list. *)
Definition index {A : Type} (l : list A) (i : nat) : result A :=
  match nth_error l i with
  | Some a => Ok a
  | None => Raise IndexError
  end.

(** A [for] loop that threads its local variables, stopping at the first
    exception. *)
Fixpoint for_fold {A S : Type} (body : S -> A -> result S) (l : list A) (s : S)
  : result S :=
  match l with
  | [] => Ok s
  | a :: l' => (s' <- body s a ;; for_fold body l' s')%result
  end.

Fixpoint mapM {A B : Type} (f : A -> result B) (l : list A) : result (list B) :=
  match l with
  | [] => Ok []
  | a :: l' => (b <- f a ;; bs <- mapM f l' ;; Ok (b :: bs))%result
  end.

(** ** Python numbers *)

(** [str(n)] for an [int]. *)
Definition str (n : Z) : string := NilZero.string_of_int (Z.to_int n).

Definition is_space (c : ascii) : bool :=
  let n := nat_of_ascii c in
  (Nat.eqb n 32 || (Nat.leb 9 n && Nat.leb n 13))%bool.

Fixpoint lstrip (s : string) : string :=
  match s with
  | String c s' => if is_space c then lstrip s' else s
  | EmptyString => EmptyString
  end.

Fixpoint rstrip (s : string) : string :=
  match s with
  | String c s' =>
      match rstrip s' with
      | EmptyString => if is_space c then EmptyString else String c EmptyString
      | r => String c r
      end
  | EmptyString => EmptyString
  end.

Definition is_digit (c : ascii) : bool :=
  let n := nat_of_ascii c in
  (Nat.leb 48 n && Nat.leb n 57)%bool.

(** The digits of a literal, once its underscores are removed; an
    underscore is accepted between two digits only. *)
Fixpoint digits_of (after_digit : bool) (s : string) : option string :=
  match s with
  | EmptyString => if after_digit then Some EmptyString else None
  | String c s' =>
      if is_digit c then option_map (String c) (digits_of true s')
      else if (Ascii.eqb c "_" && after_digit)%bool then digits_of false s'
      else None
  end.

Definition digits_to_Z (s : string) : result Z :=
  match digits_of false s with
  | Some ds => match NilEmpty.uint_of_string ds with
               | Some d => Ok (Z.of_uint d)
               | None => Raise ValueError
               end
  | None => Raise ValueError
  end.

(** [int(s)] for a [str] of ASCII characters: surrounding white space, an
    optional sign, and decimal digits with single underscores between
    them. *)
Definition int_of_str (s : string) : result Z :=
  match rstrip (lstrip s) with
  | String "-" ds => (n <- digits_to_Z ds ;; Ok (- n))%result
  | String "+" ds => digits_to_Z ds
  | ds => digits_to_Z ds
  end.

(** The float arithmetic the code runs on.  [fpow2 x] is [math.pow(x, 2)]
    as the C library computes it, [of_Z] is the conversion of an
    [int] that fits, [divZ a b] the correctly rounded quotient of two
    [int]s, [round_half_even] Python's rounding of a finite float. *)
Class PyFloat (F : Type) : Type := {
  fadd : F -> F -> F;
  fsub : F -> F -> F;
  fmul : F -> F -> F;
  fdiv : F -> F -> F;
  fsqrt : F -> F;
  fpow2 : F -> F;
  of_Z : Z -> F;
  divZ : Z -> Z -> F;
  fis_zero : F -> bool;
  fis_neg : F -> bool;
  fis_nan : F -> bool;
  fis_inf : F -> bool;
  round_half_even : F -> Z
}.

Section PythonArithmetic.

Context {F : Type} `{PyFloat F}.

(** [x / y] on floats. *)
Definition truediv (x y : F) : result F :=
  if fis_zero y then Raise ZeroDivisionError else Ok (fdiv x y).

(** [x / n] for a float [x] and an [int] [n]; the divisor converts to zero
    exactly when it is zero. *)
Definition truediv_int (x : F) (n : Z) : result F :=
  if n =? 0 then Raise ZeroDivisionError
  else if fis_inf (of_Z n) then Raise OverflowError
  else Ok (fdiv x (of_Z n)).

(** [a / b] on two [int]s. *)
Definition int_truediv (a b : Z) : result F :=
  if b =? 0 then Raise ZeroDivisionError
  else if fis_inf (divZ a b) then Raise OverflowError
  else Ok (divZ a b).

(** [math.pow(x, 2)]. *)
Definition math_pow2 (x : F) : result F :=
  let r := fpow2 x in
  if (negb (fis_nan x) && negb (fis_inf x) && fis_inf r)%bool
  then Raise OverflowError else Ok r.

(** [math.sqrt(x)]. *)
Definition math_sqrt (x : F) : result F :=
  if fis_neg x then Raise ValueError else Ok (fsqrt x).

(** [round(x)] with one argument. *)
Definition round (x : F) : result Z :=
  if fis_nan x then Raise ValueError
  else if fis_inf x then Raise OverflowError
  else Ok (round_half_even x).

End PythonArithmetic.

(** ** IEEE 754 doubles *)

Module Binary64.

Definition b64_of_Z (z : Z) : float :=
  SF2Prim (binary_normalize prec emax z 0 false).

(** The quotient of two positive [int]s with 65 or 66 significant bits:
    [a] is shifted by [quot_shift a b] bits so that the integer quotient by
    [b] has 64 or 65 bits, and a last bit records whether anything was
    lost, by the shift or by the division. *)
Definition quot_shift (a b : Z) : Z := Z.log2 b - Z.log2 a + 64.

Definition quot_mantissa (a b : Z) : Z :=
  let k := quot_shift a b in
  let n := Z.shiftl a k in
  let exact := (Z.eqb (Z.shiftl n (- k)) a && Z.eqb (n mod b) 0)%bool in
  2 * (n / b) + (if exact then 0 else 1).

(** Correctly rounded [a / b] for [b <> 0]: the quotient above, rounded
    once to the nearest double, ties to even. *)
Definition b64_divZ (a b : Z) : float :=
  let neg := xorb (a <? 0) (b <? 0) in
  let a' := Z.abs a in
  let b' := Z.abs b in
  if a' =? 0 then (if neg then (-0)%float else 0%float)
  else
    let m := quot_mantissa a' b' in
    SF2Prim (binary_normalize prec emax (if neg then - m else m)
               (- quot_shift a' b' - 1) false).

Definition b64_round_half_even (x : float) : Z :=
  match Prim2SF x with
  | S754_finite s m e =>
      let v :=
        if 0 <=? e then Z.pos m * 2 ^ e
        else
          let d := 2 ^ (- e) in
          let q := Z.pos m / d in
          let r := Z.pos m mod d in
          if 2 * r <? d then q
          else if d <? 2 * r then q + 1
          else if Z.even q then q else q + 1 in
      if s then - v else v
  | _ => 0
  end.

(** The double of a float, as a specification float: the exponent goes up
    by one, or the result is an infinity. *)
Definition SFdouble (sf : spec_float) : spec_float :=
  match sf with
  | S754_finite s m e =>
      if e + 1 <=? emax - prec then S754_finite s m (e + 1) else S754_infinity s
  | _ => sf
  end.

(** The real number a finite double stands for. *)
Definition SF2R (sf : spec_float) : R :=
  match sf with
  | S754_finite s m e =>
      ((if s then -1 else 1) * IZR (Z.pos m) * powerRZ 2 e)%R
  | _ => 0%R
  end.

Definition float_value (x : float) : R := SF2R (Prim2SF x).

#[export] Instance binary64 : PyFloat float := {
  fadd := PrimFloat.add;
  fsub := PrimFloat.sub;
  fmul := PrimFloat.mul;
  fdiv := PrimFloat.div;
  fsqrt := PrimFloat.sqrt;
  fpow2 := fun x => PrimFloat.mul x x;
  of_Z := b64_of_Z;
  divZ := b64_divZ;
  fis_zero := fun x => PrimFloat.eqb x 0%float;
  fis_neg := fun x => PrimFloat.ltb x 0%float;
  fis_nan := PrimFloat.is_nan;
  fis_inf := PrimFloat.is_infinity;
  round_half_even := b64_round_half_even
}.

(** Doubles over a C library whose [pow(x, 2.0)] is [pow2].  The correctly
    rounded square of [binary64] is one such function; the [pow] of a C
    library may be one unit in the last place away from it. *)
Definition binary64_with_pow (pow2 : float -> float) : PyFloat float := {|
  fadd := PrimFloat.add;
  fsub := PrimFloat.sub;
  fmul := PrimFloat.mul;
  fdiv := PrimFloat.div;
  fsqrt := PrimFloat.sqrt;
  fpow2 := pow2;
  of_Z := b64_of_Z;
  divZ := b64_divZ;
  fis_zero := fun x => PrimFloat.eqb x 0%float;
  fis_neg := fun x => PrimFloat.ltb x 0%float;
  fis_nan := PrimFloat.is_nan;
  fis_inf := PrimFloat.is_infinity;
  round_half_even := b64_round_half_even
|}.

(** *** Rounding to the nearest double, as a specification

    What the quotient of the code is compared with: these definitions
    follow the words "the double nearest to [t / 2048]", not the code. *)

(** [m / 2 ^ d] rounded to the nearest integer, ties to the even one. *)
Definition round_div_pow2 (m d : Z) : Z :=
  let q := m / 2 ^ d in
  let r := m mod 2 ^ d in
  if 2 * r <? 2 ^ d then q
  else if 2 ^ d <? 2 * r then q + 1
  else if Z.even q then q else q + 1.

(** The 53 significant bits of a positive integer: its bits when it has at
    most 53 of them, followed by zeros; otherwise its first 53 bits,
    rounded to the nearest, ties to even (which may give [2 ^ 53]). *)
Definition mantissa53 (t : Z) : Z :=
  if Z.log2 t <=? 52 then t * 2 ^ (52 - Z.log2 t)
  else round_div_pow2 t (Z.log2 t - 52).

(** The double of mantissa [m] between [2 ^ 52] and [2 ^ 53] and exponent
    [e], an infinity when it is out of range. *)
Definition double_of_mantissa (m e : Z) : spec_float :=
  if m =? 2 ^ 53 then
    if e + 1 <=? emax - prec
    then S754_finite false 4503599627370496 (e + 1) else S754_infinity false
  else
    if e <=? emax - prec
    then S754_finite false (Z.to_pos m) e else S754_infinity false.

(** The double nearest to [m * 2 ^ e], ties to even, by the rounding of the
    standard library. *)
Definition nearest_double (m e : Z) : float :=
  SF2Prim (binary_normalize prec emax m e false).

(** A positive integer rounded to 53 significant bits, to the nearest,
    ties to even. *)
Definition round53 (t : Z) : Z :=
  if Z.log2 t <=? 52 then t
  else round_div_pow2 t (Z.log2 t - 52) * 2 ^ (Z.log2 t - 52).

End Binary64.

(** ** Exact arithmetic *)

Module Exact.

Definition R_is_zero (x : R) : bool :=
  if Req_dec_T x 0%R then true else false.

Definition R_is_neg (x : R) : bool :=
  if Rlt_dec x 0%R then true else false.

(** Rounding to the nearest integer, ties to the even one; [up x - 1] is
    the floor of [x]. *)
Definition R_round_half_even (x : R) : Z :=
  let n := up x - 1 in
  let d := (x - IZR n)%R in
  if Rlt_dec d (1 / 2)%R then n
  else if Rlt_dec (1 / 2)%R d then n + 1
  else if Z.even n then n else n + 1.

#[export] Instance exactR : PyFloat R := {
  fadd := Rplus;
  fsub := Rminus;
  fmul := Rmult;
  fdiv := Rdiv;
  fsqrt := sqrt;
  fpow2 := fun x => Rmult x x;
  of_Z := IZR;
  divZ := fun a b => (IZR a / IZR b)%R;
  fis_zero := R_is_zero;
  fis_neg := R_is_neg;
  fis_nan := fun _ => false;
  fis_inf := fun _ => false;
  round_half_even := R_round_half_even
}.

End Exact.

(** ** The host and the dialog *)

(** What the Maya commands used by the tool answer.  [ls_sl] is
    [cmds.ls(sl=True)], [ls_sl_flatten] is [cmds.ls(sl=True, flatten=True)],
    [toVertex] and [toUV] are [cmds.polyListComponentConversion] from an
    edge followed by [cmds.ls(..., flatten=True)], [polyEditUV] is the query
    [cmds.polyEditUV(uv, q=True, u=True)]. *)
Record Scene (F : Type) : Type := {
  ls_sl : list string;
  ls_sl_flatten : list string;
  polyEvaluate_edge : string -> nat;
  toVertex : string -> list string;
  toUV : string -> list string;
  pointPosition : string -> F * F * F;
  polyEditUV : string -> F * F
}.

Arguments ls_sl {F} _.
Arguments ls_sl_flatten {F} _.
Arguments polyEvaluate_edge {F} _ _.
Arguments toVertex {F} _ _.
Arguments toUV {F} _ _.
Arguments pointPosition {F} _ _.
Arguments polyEditUV {F} _ _.

(** The instance attributes of [MyWindow] the handlers read or write; the
    two text fields are represented by their text. *)
Record MyWindow : Type := {
  targetTexelDensity : option Z;
  currentTexelDensity_textField : string;
  setTexelDensity_textField : string
}.

(** The dialog as [__init__] leaves it. *)
Definition init_dialog : MyWindow := {|
  targetTexelDensity := None;
  currentTexelDensity_textField := "";
  setTexelDensity_textField := ""
|}.

Record World (F : Type) : Type := {
  dialog : MyWindow;
  scene : Scene F;
  unfold_calls : list (string * F)
}.

Arguments dialog {F} _.
Arguments scene {F} _.
Arguments unfold_calls {F} _.

Definition M (F A : Type) : Type := World F -> World F * result A.

Definition mret {F A : Type} (a : A) : M F A := fun w => (w, Ok a).

Definition mbind {F A B : Type} (m : M F A) (k : A -> M F B) : M F B :=
  fun w =>
    match m w with
    | (w', Ok a) => k a w'
    | (w', Raise e) => (w', Raise e)
    end.

Definition lift {F A : Type} (r : result A) : M F A := fun w => (w, r).

Definition gets {F A : Type} (f : World F -> A) : M F A := fun w => (w, Ok (f w)).

Definition modify {F : Type} (f : World F -> World F) : M F unit :=
  fun w => (f w, Ok tt).

Declare Scope world_scope.
Delimit Scope world_scope with world.
Notation "x <- m ;; k" := (mbind m (fun x => k))
  (at level 100, m at next level, right associativity) : world_scope.
Notation "m ;;; k" := (mbind m (fun _ => k))
  (at level 100, right associativity) : world_scope.

Fixpoint for_each {F A : Type} (body : A -> M F unit) (l : list A) : M F unit :=
  match l with
  | [] => mret tt
  | a :: l' => (body a ;;; for_each body l')%world
  end.

Definition set_target {F : Type} (t : option Z) (w : World F) : World F := {|
  dialog := {| targetTexelDensity := t;
               currentTexelDensity_textField :=
                 currentTexelDensity_textField (dialog w);
               setTexelDensity_textField := setTexelDensity_textField (dialog w) |};
  scene := scene w;
  unfold_calls := unfold_calls w
|}.

(** [self.currentTexelDensity_textField.setText(s)]. *)
Definition setText_current {F : Type} (s : string) (w : World F) : World F := {|
  dialog := {| targetTexelDensity := targetTexelDensity (dialog w);
               currentTexelDensity_textField := s;
               setTexelDensity_textField := setTexelDensity_textField (dialog w) |};
  scene := scene w;
  unfold_calls := unfold_calls w
|}.

(** [self.setTexelDensity_textField.setText(s)]; a programmatic [setText]
    does not emit [editingFinished], so [saveTexelDensity] does not run. *)
Definition setText_set {F : Type} (s : string) (w : World F) : World F := {|
  dialog := {| targetTexelDensity := targetTexelDensity (dialog w);
               currentTexelDensity_textField :=
                 currentTexelDensity_textField (dialog w);
               setTexelDensity_textField := s |};
  scene := scene w;
  unfold_calls := unfold_calls w
|}.

(** ** The tool *)

(** Which of the two helper names the global scope binds (to the function
    of that name in the class body). *)
Record Globals : Type := {
  binds_getDistance2D : bool;
  binds_getDistance3D : bool
}.

(** The global scope of the module as the file makes it: it binds
    [maya_main_window], [MyWindow], [show_dialog] and [dialog], and neither
    helper, which are attributes of [MyWindow]. *)
Definition module_globals : Globals :=
  {| binds_getDistance2D := false; binds_getDistance3D := false |}.

(** A global scope that also binds both helpers. *)
Definition with_helpers : Globals :=
  {| binds_getDistance2D := true; binds_getDistance3D := true |}.

(** A call [f(a)] of a global name. *)
Definition call_global {A B : Type} (bound : bool) (f : A -> result B) (a : A)
  : result B :=
  if bound then f a else Raise NameError.

Section Tool.

Context {F : Type} `{PyFloat F}.

(** What [cmds.unfold(obj, i=5000, ss=0.001, gb=0, gmb=1, pub=0, ps=0, oa=0,
    us=1, s=scale)] does to the scene, or the error it reports. *)
Variable host_unfold : string -> F -> Scene F -> result (Scene F).

Definition defaultTextureRes : Z := 2048.

(** [str(self.targetTexelDensity)]. *)
Definition str_target (t : option Z) : string :=
  match t with
  | Some n => str n
  | None => "None"
  end.

(** One call of [cmds.unfold]: the call is recorded, then the host either
    rewrites the UVs or raises. *)
Definition cmds_unfold (obj : string) (scaleTarget : F) : M F unit :=
  fun w =>
    let calls := (unfold_calls w ++ [(obj, scaleTarget)])%list in
    match host_unfold obj scaleTarget (scene w) with
    | Ok sc =>
        ({| dialog := dialog w; scene := sc; unfold_calls := calls |}, Ok tt)
    | Raise e =>
        ({| dialog := dialog w; scene := scene w; unfold_calls := calls |},
         Raise e)
    end.

(** [texDensity / defaultTextureRes] (lines 92-94), the scale factor of a
    target; [None / 2048] is a [TypeError]. *)
Definition scaleTarget_of (texDensity : option Z) : result F :=
  match texDensity with
  | Some t => int_truediv t defaultTextureRes
  | None => Raise TypeError
  end.

Definition saveTexelDensity : M F unit :=
  (text <- gets (fun w => setTexelDensity_textField (dialog w)) ;;
   t <- lift (int_of_str text) ;;
   modify (set_target (Some t)))%world.

Definition set_texel_density : M F unit :=
  (sel <- gets (fun w => ls_sl_flatten (scene w)) ;;
   texDensity <- gets (fun w => targetTexelDensity (dialog w)) ;;
   scaleTarget <- lift (scaleTarget_of texDensity) ;;
   for_each (fun obj => cmds_unfold obj scaleTarget) sel ;;;
   target <- gets (fun w => targetTexelDensity (dialog w)) ;;
   modify (setText_current (str_target target)))%world.

Definition getDistance2D (sc : Scene F) (uvs : list string) : result F :=
  (uv0 <- index uvs 0 ;;
   let a := polyEditUV sc uv0 in
   uv1 <- index uvs 1 ;;
   let b := polyEditUV sc uv1 in
   du <- math_pow2 (fsub (fst a) (fst b)) ;;
   dv <- math_pow2 (fsub (snd a) (snd b)) ;;
   math_sqrt (fadd du dv))%result.

Definition getDistance3D (sc : Scene F) (verts : list string) : result F :=
  (v0 <- index verts 0 ;;
   let a := pointPosition sc v0 in
   v1 <- index verts 1 ;;
   let b := pointPosition sc v1 in
   dx <- math_pow2 (fsub (fst (fst a)) (fst (fst b))) ;;
   dy <- math_pow2 (fsub (snd (fst a)) (snd (fst b))) ;;
   dz <- math_pow2 (fsub (snd a) (snd b)) ;;
   math_sqrt (fadd (fadd dx dy) dz))%result.

(** [selectedObject + '.e[' + str(i) + ']']. *)
Definition edge_name (selectedObject : string) (i : nat) : string :=
  selectedObject ++ ".e[" ++ str (Z.of_nat i) ++ "]".

(** [1 / edgeLen] for the edge [i] (lines 144-149); it is evaluated for
    every edge, before the edge is classified. *)
Definition edgeLenToUnitRatio (G : Globals) (sc : Scene F)
  (selectedObject : string) (i : nat) : result F :=
  (let edge := edge_name selectedObject i in
   let verts := toVertex sc edge in
   edgeLen <- call_global (binds_getDistance3D G) (getDistance3D sc) verts ;;
   truediv (of_Z 1) edgeLen)%result.

(** The body of the loop over the edges (lines 144-164), on the local
    variables [(numInternalEdges, texelDensity)]. *)
Definition edge_body (G : Globals) (sc : Scene F) (selectedObject : string)
  (acc : Z * F) (i : nat) : result (Z * F) :=
  (let '(numInternalEdges, texelDensity) := acc in
   let edge := edge_name selectedObject i in
   ratio <- edgeLenToUnitRatio G sc selectedObject i ;;
   let uvs := toUV sc edge in
   if Nat.eqb (List.length uvs) 2 then
     let numInternalEdges := numInternalEdges + 1 in
     uvEdgeLen <- call_global (binds_getDistance2D G) (getDistance2D sc) uvs ;;
     let uvEdgeTexelDensity := fmul (of_Z defaultTextureRes) uvEdgeLen in
     let edgeTexelDensity := fmul uvEdgeTexelDensity ratio in
     Ok (numInternalEdges, fadd texelDensity edgeTexelDensity)
   else Ok acc)%result.

(** The loop of [getTexelDensity], from the initial values of its local
    variables. *)
Definition edge_loop (G : Globals) (sc : Scene F) (selectedObject : string)
  : result (Z * F) :=
  let numEdges := polyEvaluate_edge sc selectedObject in
  for_fold (edge_body G sc selectedObject) (seq 0 numEdges) (0, of_Z 0).

(** Lines 138-167 of [getTexelDensity]: the rounded average. *)
Definition texelDensity_of (G : Globals) (sc : Scene F) (selectedObject : string)
  : result Z :=
  ('(numInternalEdges, texelDensity) <- edge_loop G sc selectedObject ;;
   texelDensity <- truediv_int texelDensity numInternalEdges ;;
   round texelDensity)%result.

Definition getTexelDensity (G : Globals) : M F unit :=
  (sel <- gets (fun w => ls_sl (scene w)) ;;
   selectedObject <- lift (index sel 0) ;;
   sc <- gets scene ;;
   texelDensity <- lift (texelDensity_of G sc selectedObject) ;;
   modify (setText_current (str texelDensity)) ;;;
   modify (setText_set ""))%world.

(** What an edge with two UVs adds to [texelDensity] in the loop. *)
Definition edgeTexelDensity (G : Globals) (sc : Scene F)
  (selectedObject : string) (i : nat) : result F :=
  (ratio <- edgeLenToUnitRatio G sc selectedObject i ;;
   uvEdgeLen <- call_global (binds_getDistance2D G) (getDistance2D sc)
                  (toUV sc (edge_name selectedObject i)) ;;
   Ok (fmul (fmul (of_Z defaultTextureRes) uvEdgeLen) ratio))%result.

(** *** The measurement as the specification words it *)

(** An interior edge has exactly two UV coordinates. *)
Definition interior (sc : Scene F) (selectedObject : string) (i : nat) : bool :=
  Nat.eqb (List.length (toUV sc (edge_name selectedObject i))) 2.

Definition interior_edges (sc : Scene F) (selectedObject : string) : list nat :=
  filter (interior sc selectedObject) (seq 0 (polyEvaluate_edge sc selectedObject)).

(** The 3D Euclidean distance between the two vertices of an edge. *)
Definition worldLen (sc : Scene F) (selectedObject : string) (i : nat) : result F :=
  getDistance3D sc (toVertex sc (edge_name selectedObject i)).

(** The 2D Euclidean distance between the two UV coordinates of an edge. *)
Definition uvLen (sc : Scene F) (selectedObject : string) (i : nat) : result F :=
  getDistance2D sc (toUV sc (edge_name selectedObject i)).

(** [ReferenceResolution * uvLen * (1 / worldLen)]. *)
Definition edgeDensity (sc : Scene F) (selectedObject : string) (i : nat)
  : result F :=
  (wl <- worldLen sc selectedObject i ;;
   ratio <- truediv (of_Z 1) wl ;;
   ul <- uvLen sc selectedObject i ;;
   Ok (fmul (fmul (of_Z defaultTextureRes) ul) ratio))%result.

(** [round(S / N)] over the interior edges. *)
Definition measure_spec (sc : Scene F) (selectedObject : string) : result Z :=
  (ds <- mapM (edgeDensity sc selectedObject) (interior_edges sc selectedObject) ;;
   let S := fold_left fadd ds (of_Z 0) in
   let N := Z.of_nat (List.length ds) in
   avg <- truediv_int S N ;;
   round avg)%result.

End Tool.

(** ** Concrete scenes, on doubles *)

Module Scenes.

Import Binary64.

Fixpoint lookup {A : Type} (default : A) (tbl : list (string * A)) (k : string) : A :=
  match tbl with
  | [] => default
  | (k', a) :: tbl' => if String.eqb k k' then a else lookup default tbl' k
  end.

(** A host whose [unfold] multiplies every UV coordinate by the scale. *)
Definition scaling_unfold (obj : string) (s : float) (sc : Scene float)
  : result (Scene float) :=
  Ok {| ls_sl := ls_sl sc;
        ls_sl_flatten := ls_sl_flatten sc;
        polyEvaluate_edge := polyEvaluate_edge sc;
        toVertex := toVertex sc;
        toUV := toUV sc;
        pointPosition := pointPosition sc;
        polyEditUV := fun uv => let '(u, v) := polyEditUV sc uv in
                                (PrimFloat.mul s u, PrimFloat.mul s v) |}.

(** A host whose [unfold] reports a failure. *)
Definition failing_unfold (obj : string) (s : float) (sc : Scene float)
  : result (Scene float) :=
  Raise RuntimeError.

Definition tenth : float := Eval cbv in SF2Prim (S754_finite false 7205759403792794 (-56)).

(** One triangle [pPlane1] with vertices (0,0,0), (1,0,0), (0,1,0).  Edge 0
    has two UVs, 0.1 apart, and world length 1.0; edges 1 and 2 lie on a
    seam (four and three UVs). *)
Definition triangle_points : string -> float * float * float :=
  lookup (0, 0, 0)%float
    [("pPlane1.vtx[0]", (0, 0, 0)%float);
     ("pPlane1.vtx[1]", (1, 0, 0)%float);
     ("pPlane1.vtx[2]", (0, 1, 0)%float);
     ("pPlane1.vtx[3]", (1, 0, 0)%float)].

Definition triangle_uvs : string -> float * float :=
  lookup (0, 0)%float
    [("pPlane1.map[0]", (0, 0)%float);
     ("pPlane1.map[1]", (tenth, 0%float));
     ("pPlane1.map[2]", (0, 1)%float);
     ("pPlane1.map[3]", (1, 1)%float);
     ("pPlane1.map[4]", (1, 0)%float)].

Definition triangle : Scene float := {|
  ls_sl := ["pPlane1"];
  ls_sl_flatten := ["pPlane1"];
  polyEvaluate_edge := lookup 0%nat [("pPlane1", 3%nat)];
  toVertex := lookup []
    [("pPlane1.e[0]", ["pPlane1.vtx[0]"; "pPlane1.vtx[1]"]);
     ("pPlane1.e[1]", ["pPlane1.vtx[1]"; "pPlane1.vtx[2]"]);
     ("pPlane1.e[2]", ["pPlane1.vtx[0]"; "pPlane1.vtx[2]"])];
  toUV := lookup []
    [("pPlane1.e[0]", ["pPlane1.map[0]"; "pPlane1.map[1]"]);
     ("pPlane1.e[1]", ["pPlane1.map[1]"; "pPlane1.map[2]";
                       "pPlane1.map[3]"; "pPlane1.map[4]"]);
     ("pPlane1.e[2]", ["pPlane1.map[0]"; "pPlane1.map[2]"; "pPlane1.map[3]"])];
  pointPosition := triangle_points;
  polyEditUV := triangle_uvs
|}.

(** The same mesh, except that the seam edge 1 joins [vtx[1]] to [vtx[3]],
    two vertices at the same position: its world length is zero. *)
Definition collapsed_seam : Scene float := {|
  ls_sl := ["pPlane1"];
  ls_sl_flatten := ["pPlane1"];
  polyEvaluate_edge := lookup 0%nat [("pPlane1", 3%nat)];
  toVertex := lookup []
    [("pPlane1.e[0]", ["pPlane1.vtx[0]"; "pPlane1.vtx[1]"]);
     ("pPlane1.e[1]", ["pPlane1.vtx[1]"; "pPlane1.vtx[3]"]);
     ("pPlane1.e[2]", ["pPlane1.vtx[0]"; "pPlane1.vtx[2]"])];
  toUV := toUV triangle;
  pointPosition := triangle_points;
  polyEditUV := triangle_uvs
|}.

(** A mesh whose two edges both lie on a seam: no interior edge. *)
Definition all_seam : Scene float := {|
  ls_sl := ["pPlane1"];
  ls_sl_flatten := ["pPlane1"];
  polyEvaluate_edge := lookup 0%nat [("pPlane1", 2%nat)];
  toVertex := lookup []
    [("pPlane1.e[0]", ["pPlane1.vtx[0]"; "pPlane1.vtx[1]"]);
     ("pPlane1.e[1]", ["pPlane1.vtx[1]"; "pPlane1.vtx[2]"])];
  toUV := lookup []
    [("pPlane1.e[0]", ["pPlane1.map[0]"; "pPlane1.map[1]"; "pPlane1.map[2]"]);
     ("pPlane1.e[1]", ["pPlane1.map[1]"; "pPlane1.map[2]";
                       "pPlane1.map[3]"; "pPlane1.map[4]"])];
  pointPosition := triangle_points;
  polyEditUV := triangle_uvs
|}.

(** A mesh object without any edge. *)
Definition no_edges : Scene float := {|
  ls_sl := ["pPlane1"];
  ls_sl_flatten := ["pPlane1"];
  polyEvaluate_edge := lookup 0%nat [("pPlane1", 0%nat)];
  toVertex := lookup [] [];
  toUV := lookup [] [];
  pointPosition := triangle_points;
  polyEditUV := triangle_uvs
|}.

(** The triangle with nothing selected. *)
Definition nothing_selected : Scene float := {|
  ls_sl := [];
  ls_sl_flatten := [];
  polyEvaluate_edge := polyEvaluate_edge triangle;
  toVertex := toVertex triangle;
  toUV := toUV triangle;
  pointPosition := triangle_points;
  polyEditUV := triangle_uvs
|}.

(** A mesh with two edges: the edge 0, of world length 1.0, has the two UVs
    [(skew_u, skew_v)] and [(0, 0)]; the edge 1 lies on a seam (three
    UVs). *)
Definition skew_u : float := 0x1.23edf08e9da57p-8.
Definition skew_v : float := 0x1.4cb48afc3774ap-9.

Definition skewed : Scene float := {|
  ls_sl := ["pPlane1"];
  ls_sl_flatten := ["pPlane1"];
  polyEvaluate_edge := lookup 0%nat [("pPlane1", 2%nat)];
  toVertex := lookup []
    [("pPlane1.e[0]", ["pPlane1.vtx[1]"; "pPlane1.vtx[0]"]);
     ("pPlane1.e[1]", ["pPlane1.vtx[1]"; "pPlane1.vtx[2]"])];
  toUV := lookup []
    [("pPlane1.e[0]", ["pPlane1.map[0]"; "pPlane1.map[1]"]);
     ("pPlane1.e[1]", ["pPlane1.map[0]"; "pPlane1.map[1]"; "pPlane1.map[2]"])];
  pointPosition := triangle_points;
  polyEditUV := lookup (0, 0)%float
    [("pPlane1.map[0]", (skew_u, skew_v)); ("pPlane1.map[1]", (0, 0)%float)]
|}.

(** A [pow(x, 2.0)] that agrees with the one of the C library glibc 2.36 at
    the arguments the measurement of [skewed] passes to it, which are
    [1.0], [-1.0], [0.0], [skew_u] and [skew_v]: the correctly rounded square,
    except at [skew_u], where that library returns the next double. *)
Definition pow_glibc_skewed (x : float) : float :=
  if PrimFloat.eqb x skew_u then 0x1.4ce6ce0b8481cp-16%float
  else PrimFloat.mul x x.

(** A fresh dialog over a scene. *)
Definition fresh (sc : Scene float) : World float :=
  {| dialog := init_dialog; scene := sc; unfold_calls := [] |}.

(** The dialog after the user typed [text] in the target field and left it
    ([editingFinished] runs [saveTexelDensity]). *)
Definition typed (text : string) (w : World float) : World float :=
  fst (saveTexelDensity (setText_set text w)).

End Scenes.

(** ** The error taxonomy of the specification *)

(** The source declares no exception class.  The four errors the
    specification names are therefore classes of their own, distinct from
    every built-in exception the code can raise. *)
Definition NoSelectionError : exn := AppError "NoSelectionError".
Definition DegenerateMeshError : exn := AppError "DegenerateMeshError".
Definition RescaleOperationError : exn := AppError "RescaleOperationError".

(** ** Texts and literals *)

Fixpoint all_chars (p : ascii -> bool) (s : string) : bool :=
  match s with
  | EmptyString => true
  | String c s' => (p c && all_chars p s')%bool
  end.

Fixpoint has_char (p : ascii -> bool) (s : string) : bool :=
  match s with
  | EmptyString => false
  | String c s' => (p c || has_char p s')%bool
  end.

Definition is_ascii (c : ascii) : bool := Nat.ltb (nat_of_ascii c) 128.

(** The characters a decimal literal accepted by [int] is made of. *)
Definition in_int_alphabet (c : ascii) : bool :=
  (is_digit c || is_space c || Ascii.eqb c "+" || Ascii.eqb c "-"
   || Ascii.eqb c "_")%bool.

(** ** Selections and sessions *)

(** The scene with another answer to [cmds.ls(sl=True)]. *)
Definition with_selection {F : Type} (sel : list string) (sc : Scene F) : Scene F := {|
  ls_sl := sel;
  ls_sl_flatten := ls_sl_flatten sc;
  polyEvaluate_edge := polyEvaluate_edge sc;
  toVertex := toVertex sc;
  toUV := toUV sc;
  pointPosition := pointPosition sc;
  polyEditUV := polyEditUV sc
|}.

Definition in_scene {F : Type} (sc : Scene F) (w : World F) : World F :=
  {| dialog := dialog w; scene := sc; unfold_calls := unfold_calls w |}.

(** What the user does with the dialog: leave the target field with a
    text in it, press the first button, press the second button. *)
Inductive action : Type :=
| Edit (text : string)
| ClickGet
| ClickSet.

Section Session.

Context {F : Type} `{PyFloat F}.
Variable host_unfold : string -> F -> Scene F -> result (Scene F).
Variable G : Globals.

(** The slot [__init__] connects to the signal of each action (lines
    74-76): [editingFinished] of the target field to [saveTexelDensity],
    [clicked] of the buttons to [getTexelDensity] and
    [set_texel_density]. *)
Definition slot (a : action) : M F unit :=
  match a with
  | Edit text => (modify (setText_set text) ;;; saveTexelDensity)%world
  | ClickGet => getTexelDensity G
  | ClickSet => set_texel_density host_unfold
  end.

(** A session: the slots run one after the other on the dialog [__init__]
    built; an exception raised by a slot ends that slot only. *)
Definition session (acts : list action) (w : World F) : World F :=
  fold_left (fun w a => fst (slot a w)) acts w.

End Session.

(** The last integer entered in the target field, if any. *)
Definition last_entered (acts : list action) (t0 : option Z) : option Z :=
  fold_left (fun t a =>
               match a with
               | Edit text => match int_of_str text with
                              | Ok n => Some n
                              | Raise _ => t
                              end
               | _ => t
               end) acts t0.

(** The texts on which [int_of_str] is [int], whatever the interpreter:
    ASCII characters, at most 4300 of them. *)
Definition plain_text (s : string) : bool :=
  (all_chars is_ascii s && Nat.leb (String.length s) 4300)%bool.

Definition plain_action (a : action) : bool :=
  match a with
  | Edit text => plain_text text
  | _ => true
  end.

(** ** Signs of doubles *)

(** The sign bit of a float is clear, or the float is not a number. *)
Definition SFnonneg (sf : spec_float) : bool :=
  match sf with
  | S754_zero s | S754_infinity s | S754_finite s _ _ => negb s
  | S754_nan => true
  end.

Definition nonneg (x : float) : bool := SFnonneg (Prim2SF x).

(** The three coordinates of a point are finite. *)
Definition finite_point (p : float * float * float) : bool :=
  (is_finite (fst (fst p)) && is_finite (snd (fst p)) && is_finite (snd p))%bool.

(** ** The exceptions of a measurement *)

(** The exceptions a measurement can raise on doubles. *)
Definition measure_exception (G : Globals) (e : exn) : Prop :=
  e = IndexError \/ e = ZeroDivisionError \/ e = OverflowError \/
  e = ValueError \/
  (e = NameError /\
   (binds_getDistance3D G = false \/ binds_getDistance2D G = false)).

(** * Properties *)

(** ** Results and loops *)

Lemma rbind_ok {A B : Type} (r : result A) (k : A -> result B) (b : B) :
  rbind r k = Ok b -> exists a, r = Ok a /\ k a = Ok b.
Proof.
  destruct r as [a|e]; simpl; intros Hk.
  - exists a; split; [reflexivity | exact Hk].
  - discriminate.
Qed.

Lemma rbind_raise {A B : Type} (r : result A) (k : A -> result B) (e : exn) :
  rbind r k = Raise e -> r = Raise e \/ exists a, r = Ok a /\ k a = Raise e.
Proof.
  destruct r as [a|e']; simpl; intros Hk.
  - right. exists a. split; [reflexivity | exact Hk].
  - left. injection Hk as ->. reflexivity.
Qed.

(** The length of what [mapM] returns. *)
Lemma mapM_length {A B : Type} (f : A -> result B) (l : list A) (bs : list B) :
  mapM f l = Ok bs -> List.length bs = List.length l.
Proof.
  revert bs. induction l as [|a l IH]; intros bs Hbs.
  - simpl in Hbs. injection Hbs as <-. reflexivity.
  - cbn [mapM] in Hbs. apply rbind_ok in Hbs as [b [_ Hbs]].
    apply rbind_ok in Hbs as [bs' [Hbs' Heq]]. injection Heq as <-.
    simpl. f_equal. exact (IH bs' Hbs').
Qed.

Lemma mapM_ext_in {A B : Type} (f g : A -> result B) (l : list A) :
  (forall a, In a l -> f a = g a) -> mapM f l = mapM g l.
Proof.
  induction l as [|a l IH]; intros Hfg.
  - reflexivity.
  - cbn [mapM]. rewrite (Hfg a (or_introl eq_refl)), IH; [reflexivity|].
    intros b Hb. apply Hfg. right. exact Hb.
Qed.

Lemma index_raises {A : Type} (l : list A) (i : nat) (e : exn) :
  index l i = Raise e -> is_builtin e = true.
Proof.
  unfold index. destruct (nth_error l i); intros Hr;
    [discriminate | injection Hr as <-; reflexivity].
Qed.

(** ** The loop of the measurement, for any float arithmetic *)

Section LoopFacts.

Context {F : Type} `{PyFloat F}.
Variable G : Globals.

Lemma math_pow2_raises (x : F) (e : exn) :
  math_pow2 x = Raise e -> is_builtin e = true.
Proof.
  unfold math_pow2.
  destruct (negb (fis_nan x) && negb (fis_inf x) && fis_inf (fpow2 x))%bool;
    intros Hr; [injection Hr as <-; reflexivity | discriminate].
Qed.

Lemma math_sqrt_raises (x : F) (e : exn) :
  math_sqrt x = Raise e -> is_builtin e = true.
Proof.
  unfold math_sqrt. destruct (fis_neg x); intros Hr;
    [injection Hr as <-; reflexivity | discriminate].
Qed.

Lemma truediv_raises (x y : F) (e : exn) :
  truediv x y = Raise e -> e = ZeroDivisionError /\ fis_zero y = true.
Proof.
  unfold truediv. destruct (fis_zero y); intros Hr;
    [injection Hr as <-; split; reflexivity | discriminate].
Qed.

Lemma truediv_ok (x y : F) :
  fis_zero y = false -> truediv x y = Ok (fdiv x y).
Proof. unfold truediv. intros ->. reflexivity. Qed.

Lemma call_global_raises {A B : Type} (bound : bool) (f : A -> result B)
  (a : A) (e : exn) :
  (forall e', f a = Raise e' -> is_builtin e' = true) ->
  call_global bound f a = Raise e -> is_builtin e = true.
Proof.
  unfold call_global. destruct bound; intros Hf Hr.
  - exact (Hf e Hr).
  - injection Hr as <-. reflexivity.
Qed.

Ltac raise_cases Hr :=
  repeat (apply rbind_raise in Hr as [Hr | [? [_ Hr]]];
          [first [exact (index_raises _ _ _ Hr)
                 | exact (math_pow2_raises _ _ Hr)]|]).

Lemma getDistance3D_raises (sc : Scene F) (verts : list string) (e : exn) :
  getDistance3D sc verts = Raise e -> is_builtin e = true.
Proof.
  unfold getDistance3D. intros Hr. raise_cases Hr.
  exact (math_sqrt_raises _ _ Hr).
Qed.

Lemma getDistance2D_raises (sc : Scene F) (uvs : list string) (e : exn) :
  getDistance2D sc uvs = Raise e -> is_builtin e = true.
Proof.
  unfold getDistance2D. intros Hr. raise_cases Hr.
  exact (math_sqrt_raises _ _ Hr).
Qed.

(** The reciprocal of a world length raises built-in exceptions only. *)
Lemma edgeLenToUnitRatio_raises (sc : Scene F) (obj : string) (i : nat) (e : exn) :
  edgeLenToUnitRatio G sc obj i = Raise e -> is_builtin e = true.
Proof.
  unfold edgeLenToUnitRatio. intros Hr.
  apply rbind_raise in Hr as [Hr | [edgeLen [_ Hr]]].
  - revert Hr. apply call_global_raises. intros e'. apply getDistance3D_raises.
  - apply truediv_raises in Hr as [-> _]. reflexivity.
Qed.

(** One step of the loop, by the class of the edge. *)
Lemma edge_body_unfold (sc : Scene F) (obj : string) (n : Z) (s : F) (i : nat) :
  edge_body G sc obj (n, s) i =
  if interior sc obj i
  then rbind (edgeTexelDensity G sc obj i) (fun d => Ok (n + 1, fadd s d))
  else rbind (edgeLenToUnitRatio G sc obj i) (fun _ => Ok (n, s)).
Proof.
  unfold edge_body, edgeTexelDensity, interior.
  destruct (edgeLenToUnitRatio G sc obj i) as [ratio|e]; simpl.
  - destruct (Nat.eqb (List.length (toUV sc (edge_name obj i))) 2); simpl.
    + destruct (call_global (binds_getDistance2D G) (getDistance2D sc)
                  (toUV sc (edge_name obj i))); reflexivity.
    + reflexivity.
  - destruct (Nat.eqb (List.length (toUV sc (edge_name obj i))) 2); reflexivity.
Qed.

(** The loop over any list of edges whose seam edges have a world length
    with a reciprocal: only the interior edges are counted and summed. *)
Lemma for_fold_edge_body (sc : Scene F) (obj : string) (l : list nat) :
  (forall i, In i l -> interior sc obj i = false ->
             exists r, edgeLenToUnitRatio G sc obj i = Ok r) ->
  forall (n : Z) (s : F),
    for_fold (edge_body G sc obj) l (n, s) =
    rbind (mapM (edgeTexelDensity G sc obj) (filter (interior sc obj) l))
          (fun ds => Ok (n + Z.of_nat (List.length ds), fold_left fadd ds s)).
Proof.
  induction l as [|i l IH]; intros Hseam n s.
  - simpl. rewrite Z.add_0_r. reflexivity.
  - cbn [for_fold filter]. rewrite edge_body_unfold.
    assert (Hl : forall j, In j l -> interior sc obj j = false ->
                           exists r, edgeLenToUnitRatio G sc obj j = Ok r)
      by (intros j Hj; apply Hseam; right; exact Hj).
    destruct (interior sc obj i) eqn:Hi.
    + cbn [mapM]. destruct (edgeTexelDensity G sc obj i) as [d|e]; simpl;
        [|reflexivity].
      rewrite (IH Hl).
      destruct (mapM (edgeTexelDensity G sc obj) (filter (interior sc obj) l))
        as [ds|e]; simpl; [|reflexivity].
      f_equal. f_equal. lia.
    + destruct (Hseam i (or_introl eq_refl) Hi) as [r Hr]. rewrite Hr. simpl.
      apply (IH Hl).
Qed.

(** The loop either raises or ends with the count of the interior edges
    and the sum of their densities. *)
Lemma for_fold_edge_body_ok (sc : Scene F) (obj : string) (l : list nat) :
  forall (n n' : Z) (s s' : F),
    for_fold (edge_body G sc obj) l (n, s) = Ok (n', s') ->
    exists ds,
      mapM (edgeTexelDensity G sc obj) (filter (interior sc obj) l) = Ok ds /\
      n' = n + Z.of_nat (List.length ds) /\ s' = fold_left fadd ds s.
Proof.
  induction l as [|i l IH]; intros n n' s s' Hrun.
  - simpl in Hrun. injection Hrun as <- <-. exists []. simpl.
    repeat split. lia.
  - cbn [for_fold] in Hrun. apply rbind_ok in Hrun as [[n1 s1] [Hstep Hrest]].
    rewrite edge_body_unfold in Hstep. cbn [filter].
    destruct (interior sc obj i).
    + apply rbind_ok in Hstep as [d [Hd Heq]]. injection Heq as <- <-.
      destruct (IH _ _ _ _ Hrest) as [ds [Hds [Hn Hs]]].
      exists (d :: ds). cbn [mapM]. rewrite Hd, Hds. simpl.
      repeat split; [lia | exact Hs].
    + apply rbind_ok in Hstep as [r [_ Heq]]. injection Heq as <- <-.
      exact (IH _ _ _ _ Hrest).
Qed.

(** The loop over edges none of which is interior leaves the local
    variables as they are, unless a world length has no reciprocal. *)
Lemma for_fold_no_interior (sc : Scene F) (obj : string) (l : list nat)
  (acc : Z * F) :
  filter (interior sc obj) l = [] ->
  for_fold (edge_body G sc obj) l acc = Ok acc \/
  exists i e, In i l /\ edgeLenToUnitRatio G sc obj i = Raise e /\
              for_fold (edge_body G sc obj) l acc = Raise e.
Proof.
  destruct acc as [n s].
  induction l as [|i l IH]; intros Hnone.
  - left. reflexivity.
  - cbn [filter] in Hnone. cbn [for_fold]. rewrite edge_body_unfold.
    destruct (interior sc obj i); [discriminate|].
    destruct (edgeLenToUnitRatio G sc obj i) as [r|e] eqn:Hr; simpl.
    + destruct (IH Hnone) as [Hok | [j [e [Hj [He Hrun]]]]].
      * left. exact Hok.
      * right. exists j, e. repeat split; [right; exact Hj | exact He | exact Hrun].
    + right. exists i, e. repeat split; [left; reflexivity | exact Hr].
Qed.

End LoopFacts.

(** ** The measurement against the specification's formula *)

Section MeasureFacts.

Context {F : Type} `{PyFloat F}.

(** With the helpers in scope, what an edge adds is the density of the
    specification. *)
Lemma edgeTexelDensity_with_helpers (sc : Scene F) (obj : string) (i : nat) :
  edgeTexelDensity with_helpers sc obj i = edgeDensity sc obj i.
Proof.
  unfold edgeTexelDensity, edgeDensity, edgeLenToUnitRatio, worldLen, uvLen,
    call_global. simpl.
  destruct (getDistance3D sc (toVertex sc (edge_name obj i))) as [l|e]; simpl;
    [|reflexivity].
  destruct (truediv (of_Z 1) l); reflexivity.
Qed.

Lemma edgeLenToUnitRatio_with_helpers (sc : Scene F) (obj : string) (i : nat) (l : F) :
  worldLen sc obj i = Ok l -> fis_zero l = false ->
  edgeLenToUnitRatio with_helpers sc obj i = Ok (fdiv (of_Z 1) l).
Proof.
  unfold worldLen, edgeLenToUnitRatio, call_global. simpl.
  intros -> Hl. simpl. apply truediv_ok. exact Hl.
Qed.

(** With the helpers in scope and every seam edge of a world length other
    than zero, the code computes the rounded average of the specification
    over the interior edges (it raises exactly when that raises). *)
Lemma texelDensity_of_measure_spec (sc : Scene F) (obj : string) :
  (forall i, (i < polyEvaluate_edge sc obj)%nat -> interior sc obj i = false ->
             exists l, worldLen sc obj i = Ok l /\ fis_zero l = false) ->
  texelDensity_of with_helpers sc obj = measure_spec sc obj.
Proof.
  intros Hseam. unfold texelDensity_of, measure_spec, edge_loop, interior_edges.
  rewrite for_fold_edge_body.
  - rewrite (mapM_ext_in _ (edgeDensity sc obj))
      by (intros; apply edgeTexelDensity_with_helpers).
    destruct (mapM (edgeDensity sc obj)
                (filter (interior sc obj) (seq 0 (polyEvaluate_edge sc obj))));
      reflexivity.
  - intros i Hi Hint. apply in_seq in Hi.
    destruct (Hseam i ltac:(lia) Hint) as [l [Hl Hz]].
    exists (fdiv (of_Z 1) l). apply edgeLenToUnitRatio_with_helpers; assumption.
Qed.

(** In the global scope of the module the first edge already raises
    [NameError]: a mesh that has an edge is never measured. *)
Lemma texelDensity_of_module_globals (sc : Scene F) (obj : string) :
  (0 < polyEvaluate_edge sc obj)%nat ->
  texelDensity_of module_globals sc obj = Raise NameError.
Proof.
  intros Hn. unfold texelDensity_of, edge_loop.
  destruct (polyEvaluate_edge sc obj) as [|k]; [lia|].
  reflexivity.
Qed.

End MeasureFacts.

(** ** The unfold loop, for any host *)

Section UnfoldFacts.

Context {F : Type} `{PyFloat F}.
Variable host_unfold : string -> F -> Scene F -> result (Scene F).

(** The unfold loop never touches the dialog. *)
Lemma for_each_unfold_dialog (s : F) (sel : list string) (w : World F) :
  dialog (fst (for_each (fun obj => cmds_unfold host_unfold obj s) sel w)) = dialog w.
Proof.
  revert w. induction sel as [|obj sel IH]; intros w.
  - reflexivity.
  - cbn [for_each]. unfold mbind at 1.
    destruct (cmds_unfold host_unfold obj s w) as [w1 [[]|e]] eqn:Hcall.
    + rewrite IH. unfold cmds_unfold in Hcall.
      destruct (host_unfold obj s (scene w)); injection Hcall as <-; reflexivity.
    + unfold cmds_unfold in Hcall.
      destruct (host_unfold obj s (scene w)); injection Hcall as <-; reflexivity.
Qed.


(** [set_texel_density] once the target is known to be set and to have a
    scale: the unfold loop, then the display of the target. *)
Lemma set_texel_density_unfold (w : World F) (t : Z) (s : F) :
  targetTexelDensity (dialog w) = Some t ->
  scaleTarget_of (Some t) = Ok s ->
  set_texel_density host_unfold w =
  match for_each (fun obj => cmds_unfold host_unfold obj s)
                 (ls_sl_flatten (scene w)) w with
  | (w1, Ok _) => (setText_current (str t) w1, Ok tt)
  | (w1, Raise e) => (w1, Raise e)
  end.
Proof.
  intros Ht Hs. unfold set_texel_density, mbind, gets, lift, modify.
  rewrite Ht, Hs.
  pose proof (for_each_unfold_dialog s (ls_sl_flatten (scene w)) w) as Hd.
  destruct (for_each (fun obj => cmds_unfold host_unfold obj s)
              (ls_sl_flatten (scene w)) w) as [w1 [[]|e]]; [|reflexivity].
  simpl in Hd. rewrite Hd, Ht. reflexivity.
Qed.

(** A run of [set_texel_density] that raises nothing had a target. *)
Lemma set_texel_density_ok_target (w w' : World F) :
  set_texel_density host_unfold w = (w', Ok tt) ->
  exists t s, targetTexelDensity (dialog w) = Some t /\ scaleTarget_of (Some t) = Ok s.
Proof.
  unfold set_texel_density, mbind, gets, lift, modify.
  destruct (targetTexelDensity (dialog w)) as [t|]; [|discriminate].
  destruct (scaleTarget_of (Some t)) as [s|e] eqn:Hs; [|discriminate].
  intros _. exists t, s. split; [reflexivity | exact Hs].
Qed.


End UnfoldFacts.

(** ** Measurement *)

Section Measurement.

Context {F : Type} `{PyFloat F}.
Variable G : Globals.

(** C3, as the code has it. On a selected mesh without interior edge
    [getTexelDensity] raises and leaves the dialog as it was, so nothing is
    displayed in place of a density.  The exception is a built-in one: the
    [ZeroDivisionError] of the division of the sum by the zero count of
    interior edges, which the code does evaluate, or the exception raised
    before that while the reciprocal of the world length of some edge is
    computed. *)
Theorem measure_without_interior_edge (w : World F) (obj : string)
  (rest : list string) :
  ls_sl (scene w) = obj :: rest ->
  interior_edges (scene w) obj = [] ->
  exists e, getTexelDensity G w = (w, Raise e) /\
            is_builtin e = true /\
            (e = ZeroDivisionError \/
             exists i, (i < polyEvaluate_edge (scene w) obj)%nat /\
                       edgeLenToUnitRatio G (scene w) obj i = Raise e).
Proof.
  intros Hsel Hnone.
  unfold getTexelDensity, mbind, gets, lift, modify. rewrite Hsel. simpl.
  unfold texelDensity_of, edge_loop.
  destruct (for_fold_no_interior G (scene w) obj
              (seq 0 (polyEvaluate_edge (scene w) obj)) (0, of_Z 0) Hnone)
    as [Hok | [i [e [Hi [He Hrun]]]]].
  - rewrite Hok. simpl. exists ZeroDivisionError.
    repeat split. left. reflexivity.
  - rewrite Hrun. simpl. exists e. repeat split.
    + exact (edgeLenToUnitRatio_raises G _ _ _ _ He).
    + right. exists i. apply in_seq in Hi. split; [lia | exact He].
Qed.

End Measurement.

(** ** Normalisation *)

Section Normalisation.

Context {F : Type} `{PyFloat F}.
Variable host_unfold : string -> F -> Scene F -> result (Scene F).

(** C7, as the code has it. With nothing selected and a target that has a
    scale, [set_texel_density] raises nothing: it calls no unfold, leaves
    the scene alone, and still writes the target in the display. *)
Theorem set_texel_density_empty_selection (w : World F) (t : Z) (s : F) :
  ls_sl_flatten (scene w) = [] ->
  targetTexelDensity (dialog w) = Some t ->
  scaleTarget_of (Some t) = Ok s ->
  set_texel_density host_unfold w = (setText_current (str t) w, Ok tt).
Proof.
  intros Hsel Ht Hs.
  rewrite (set_texel_density_unfold host_unfold w t s Ht Hs), Hsel.
  reflexivity.
Qed.

(** C9, as the code has it. The target is an attribute of the dialog that
    only [saveTexelDensity] writes: [set_texel_density] and
    [getTexelDensity] leave it as it is, whether they raise or not, so it
    stays available to every later request. *)
Theorem targetTexelDensity_retained (w : World F) (G : Globals) :
  targetTexelDensity (dialog (fst (set_texel_density host_unfold w))) =
    targetTexelDensity (dialog w) /\
  targetTexelDensity (dialog (fst (getTexelDensity G w))) =
    targetTexelDensity (dialog w) /\
  targetTexelDensity (dialog (fst (saveTexelDensity w))) =
    match int_of_str (setTexelDensity_textField (dialog w)) with
    | Ok t => Some t
    | Raise _ => targetTexelDensity (dialog w)
    end.
Proof.
  repeat split.
  - unfold set_texel_density, mbind, gets, lift, modify.
    destruct (scaleTarget_of (targetTexelDensity (dialog w))) as [s|e];
      [|reflexivity].
    pose proof (for_each_unfold_dialog host_unfold s (ls_sl_flatten (scene w)) w)
      as Hd.
    destruct (for_each (fun obj => cmds_unfold host_unfold obj s)
                (ls_sl_flatten (scene w)) w) as [w1 [[]|e]]; simpl in *.
    + rewrite Hd. reflexivity.
    + rewrite Hd. reflexivity.
  - unfold getTexelDensity, mbind, gets, lift, modify.
    destruct (index (ls_sl (scene w)) 0) as [obj|e]; [|reflexivity].
    destruct (texelDensity_of G (scene w) obj); reflexivity.
  - unfold saveTexelDensity, mbind, gets, lift, modify.
    destruct (int_of_str (setTexelDensity_textField (dialog w))); reflexivity.
Qed.

(** C10. When [set_texel_density] raises nothing, the text it leaves in the
    display of the current density is the decimal form of the stored
    target, whatever the selection and the geometry of the scene: the
    value is not measured.  The rest of the dialog is as it was. *)
Theorem set_texel_density_reports_target (w w' : World F) :
  set_texel_density host_unfold w = (w', Ok tt) ->
  exists t, targetTexelDensity (dialog w) = Some t /\
            currentTexelDensity_textField (dialog w') = str t /\
            dialog w' = dialog (setText_current (str t) w).
Proof.
  intros Hrun.
  destruct (set_texel_density_ok_target host_unfold w w' Hrun) as [t [s [Ht Hs]]].
  exists t. split; [exact Ht|].
  rewrite (set_texel_density_unfold host_unfold w t s Ht Hs) in Hrun.
  pose proof (for_each_unfold_dialog host_unfold s (ls_sl_flatten (scene w)) w)
    as Hd.
  destruct (for_each (fun obj => cmds_unfold host_unfold obj s)
              (ls_sl_flatten (scene w)) w) as [w1 [[]|e]].
  - injection Hrun as <-. simpl in Hd. simpl. rewrite Hd. split; reflexivity.
  - discriminate.
Qed.

End Normalisation.

(** ** Rounding on doubles *)

Import Binary64 Exact Scenes.

Local Abbreviation emin := (SpecFloat.emin prec emax).

Lemma digits2_pos_size (p : positive) : digits2_pos p = Pos.size p.
Proof. induction p as [p IH|p IH|]; simpl; congruence. Qed.

Lemma Zdigits2_log2 (p : positive) :
  Z.pos (digits2_pos p) = Z.log2 (Z.pos p) + 1.
Proof.
  rewrite digits2_pos_size. destruct p as [p|p|]; simpl; try reflexivity;
    rewrite Pos.add_1_r; reflexivity.
Qed.

Lemma fexp_normal (z : Z) : emin + prec <= z -> fexp prec emax z = z - prec.
Proof. unfold fexp, SpecFloat.emin, prec, emax. lia. Qed.

Lemma Zdigits2_nonneg (m : Z) : 0 <= Zdigits2 m.
Proof. destruct m; simpl; lia. Qed.

Lemma iter_pos_iter {A : Type} (f : A -> A) (n : positive) (x : A) :
  SpecFloat.iter_pos f n x = Pos.iter f x n.
Proof.
  revert x. induction n as [n IH|n IH|]; intros x; simpl.
  - rewrite !IH, !Pos.iter_swap. reflexivity.
  - rewrite !IH. reflexivity.
  - reflexivity.
Qed.

Lemma shr_1_m (mrs : shr_record) :
  0 <= shr_m mrs -> shr_m (shr_1 mrs) = Z.div2 (shr_m mrs).
Proof.
  destruct mrs as [m r s]. simpl. intros Hm.
  destruct m as [|[p|p|]|p]; try reflexivity; lia.
Qed.

Lemma shr_m_iter (n : positive) (mrs : shr_record) :
  0 <= shr_m mrs ->
  shr_m (SpecFloat.iter_pos shr_1 n mrs) = Z.shiftr (shr_m mrs) (Z.pos n).
Proof.
  intros Hm. rewrite iter_pos_iter.
  change (Z.shiftr (shr_m mrs) (Z.pos n)) with (Pos.iter Z.div2 (shr_m mrs) n).
  induction n as [|n IH] using Pos.peano_ind.
  - simpl. apply shr_1_m. exact Hm.
  - rewrite !Pos.iter_succ. rewrite shr_1_m.
    + rewrite IH. reflexivity.
    + rewrite IH. 
      change (Pos.iter Z.div2 (shr_m mrs) n) with (Z.shiftr (shr_m mrs) (Z.pos n)).
      apply Z.shiftr_nonneg. exact Hm.
Qed.


Lemma shr_succ (mrs : shr_record) (e n : Z) :
  shr mrs (e + 1) n = (fst (shr mrs e n), snd (shr mrs e n) + 1).
Proof. destruct n; simpl; f_equal; lia. Qed.

Lemma shr_fexp_succ (m e : Z) (l : location) :
  emin + prec <= e ->
  shr_fexp prec emax m (e + 1) l =
  (fst (shr_fexp prec emax m e l), snd (shr_fexp prec emax m e l) + 1).
Proof.
  intros He. unfold shr_fexp.
  pose proof (Zdigits2_nonneg m) as Hd.
  replace (fexp prec emax (Zdigits2 m + (e + 1)) - (e + 1))
    with (fexp prec emax (Zdigits2 m + e) - e)
    by (rewrite !fexp_normal by lia; lia).
  apply shr_succ.
Qed.

Lemma shr_fexp_exp_le (m e : Z) (l : location) :
  e <= snd (shr_fexp prec emax m e l).
Proof.
  unfold shr_fexp, shr.
  destruct (fexp prec emax (Zdigits2 m + e) - e); simpl; lia.
Qed.

(** Raising the exponent of what is rounded raises the exponent of the
    result: the mantissa is rounded the same way. *)
Lemma binary_round_aux_succ (s : bool) (m e : Z) (l : location) :
  emin + prec <= e ->
  binary_round_aux prec emax s m (e + 1) l =
  SFdouble (binary_round_aux prec emax s m e l).
Proof.
  intros He. unfold binary_round_aux.
  rewrite shr_fexp_succ by exact He.
  pose proof (shr_fexp_exp_le m e l) as He'.
  destruct (shr_fexp prec emax m e l) as [mrs' e']. cbn [fst snd] in *.
  rewrite shr_fexp_succ by lia.
  destruct (shr_fexp prec emax
              (round_nearest_even (shr_m mrs') (loc_of_shr_record mrs')) e'
              loc_Exact) as [mrs'' e'']. cbn [fst snd].
  destruct (shr_m mrs'') as [|q|q]; try reflexivity.
  cbn [SFdouble].
  destruct (e'' <=? emax - prec) eqn:Hle; cbn [SFdouble].
  - reflexivity.
  - apply Z.leb_gt in Hle.
    assert (Hgt : (e'' + 1 <=? emax - prec) = false) by (apply Z.leb_gt; lia).
    rewrite Hgt. reflexivity.
Qed.

Lemma binary_round_succ (s : bool) (M : positive) (e : Z) :
  emin + 2 * prec <= e ->
  binary_round prec emax s M (e + 1) = SFdouble (binary_round prec emax s M e).
Proof.
  intros He. unfold binary_round.
  assert (Hd : 0 < Z.pos (digits2_pos M)) by lia.
  replace (fexp prec emax (Z.pos (digits2_pos M) + (e + 1)))
    with (fexp prec emax (Z.pos (digits2_pos M) + e) + 1)
    by (rewrite !fexp_normal by (unfold prec in *; lia); lia).
  unfold shl_align.
  replace (fexp prec emax (Z.pos (digits2_pos M) + e) + 1 - (e + 1))
    with (fexp prec emax (Z.pos (digits2_pos M) + e) - e) by lia.
  destruct (fexp prec emax (Z.pos (digits2_pos M) + e) - e) eqn:Hsh.
  - apply binary_round_aux_succ. unfold prec in *. lia.
  - apply binary_round_aux_succ. unfold prec in *. lia.
  - apply binary_round_aux_succ.
    rewrite fexp_normal in * by (unfold prec in *; lia). unfold prec in *. lia.
Qed.

Lemma round_nearest_even_bounds (m : Z) (l : location) :
  m <= round_nearest_even m l <= m + 1.
Proof.
  destruct l as [|[]]; simpl; try lia. destruct (Z.even m); lia.
Qed.


Lemma Zdigits2_pos_log2 (m : Z) : 0 < m -> Zdigits2 m = Z.log2 m + 1.
Proof.
  destruct m as [|p|p]; try lia. intros _. apply Zdigits2_log2.
Qed.

(** What [binary_round_aux] returns for a mantissa of at least 53 bits,
    away from the subnormal range: a mantissa of exactly 53 bits, or an
    infinity when the exponent is too large. *)
Lemma binary_round_aux_normal (s : bool) (M : positive) (e : Z) :
  prec <= Z.pos (digits2_pos M) ->
  emin + prec <= e ->
  exists m' e',
    Z.pos (digits2_pos m') = prec /\
    e + Z.pos (digits2_pos M) - prec <= e' <= e + Z.pos (digits2_pos M) - prec + 1 /\
    binary_round_aux prec emax s (Z.pos M) e loc_Exact =
    if e' <=? emax - prec then S754_finite s m' e' else S754_infinity s.
Proof.
  intros Hd He. unfold binary_round_aux, shr_fexp. cbn [Zdigits2].
  rewrite fexp_normal by lia.
  replace (Z.pos (digits2_pos M) + e - prec - e)
    with (Z.pos (digits2_pos M) - prec) by lia.
  destruct (Z.pos (digits2_pos M) - prec) as [|p|p] eqn:Hn; [| |lia].
  - (* no shift: the mantissa has 53 bits *)
    cbn [shr shr_record_of_loc shr_m loc_of_shr_record round_nearest_even Zdigits2].
    rewrite fexp_normal by lia.
    replace (Z.pos (digits2_pos M) + e - prec - e) with 0 by lia.
    cbn [shr shr_record_of_loc shr_m].
    exists M, e. repeat split; lia.
  - (* a shift by [p] bits *)
    cbn [shr shr_record_of_loc].
    set (mrs := SpecFloat.iter_pos shr_1 p
                  {| shr_m := Z.pos M; shr_r := false; shr_s := false |}).
    assert (Hm1 : shr_m mrs = Z.shiftr (Z.pos M) (Z.pos p)).
    { unfold mrs. rewrite shr_m_iter; [reflexivity | simpl; lia]. }
    assert (Hlog : Z.log2 (shr_m mrs) = prec - 1).
    { rewrite Hm1, Z.log2_shiftr by lia.
      pose proof (Zdigits2_log2 M). unfold prec in *. lia. }
    assert (Hpos : 0 < shr_m mrs).
    { destruct (Z.lt_ge_cases 0 (shr_m mrs)) as [H|H]; [exact H|].
      rewrite Z.log2_nonpos in Hlog by exact H. unfold prec in Hlog. lia. }
    pose proof (Z.log2_spec _ Hpos) as Hspec. rewrite Hlog in Hspec.
    pose proof (round_nearest_even_bounds (shr_m mrs) (loc_of_shr_record mrs))
      as Hrnd.
    set (m2 := round_nearest_even (shr_m mrs) (loc_of_shr_record mrs)) in *.
    replace (Z.succ (prec - 1)) with prec in Hspec by lia.
    destruct (Z.eq_dec m2 (2 ^ prec)) as [Heq|Hne].
    + (* the rounding carried into a 54th bit *)
      rewrite Heq.
      replace (fexp prec emax (Zdigits2 (2 ^ prec) + (e + Z.pos p)) - (e + Z.pos p))
        with 1 by (change (Zdigits2 (2 ^ prec)) with 54;
                   rewrite fexp_normal by (unfold prec in *; lia);
                   unfold prec; lia).
      cbn.
      exists 4503599627370496%positive, (e + Z.pos p + 1).
      repeat split; try lia. 
    + assert (Hlog2 : Z.log2 m2 = prec - 1).
      { apply Z.log2_unique; [unfold prec; lia|].
        replace (Z.succ (prec - 1)) with prec by lia. lia. }
      assert (Hm2 : 0 < m2) by lia.
      rewrite (Zdigits2_pos_log2 m2 Hm2), Hlog2.
      rewrite fexp_normal by (unfold prec in *; lia).
      replace (prec - 1 + 1 + (e + Z.pos p) - prec - (e + Z.pos p)) with 0 by lia.
      cbn [shr shr_record_of_loc shr_m].
      destruct m2 as [|q|q] eqn:Hq; try lia.
      exists q, (e + Z.pos p). repeat split; try lia.
      rewrite Zdigits2_log2, Hlog2. lia.
Qed.


Lemma digits2_pos_iter_xO (a n : positive) :
  digits2_pos (Pos.iter xO a n) = (digits2_pos a + n)%positive.
Proof.
  induction n as [|n IH] using Pos.peano_ind.
  - simpl. rewrite Pos.add_1_r. reflexivity.
  - rewrite Pos.iter_succ. simpl. rewrite IH, Pos.add_succ_r. reflexivity.
Qed.

(** Shifting out [n] zero bits loses nothing. *)
Lemma shr_exact (n a : positive) :
  SpecFloat.iter_pos shr_1 n
    {| shr_m := Z.pos (Pos.iter xO a n); shr_r := false; shr_s := false |} =
  {| shr_m := Z.pos a; shr_r := false; shr_s := false |}.
Proof.
  rewrite iter_pos_iter.
  induction n as [|n IH] using Pos.peano_ind.
  - reflexivity.
  - rewrite (Pos.iter_succ n _ xO), (Pos.iter_succ n _ shr_1), <- Pos.iter_swap.
    exact IH.
Qed.

(** Rounding a mantissa of 53 bits followed by [n] zero bits is exact. *)
Lemma binary_round_aux_exact (s : bool) (a n : positive) (e : Z) :
  Z.pos (digits2_pos a) = prec ->
  emin + prec <= e ->
  binary_round_aux prec emax s (Z.pos (Pos.iter xO a n)) e loc_Exact =
  if e + Z.pos n <=? emax - prec
  then S754_finite s a (e + Z.pos n) else S754_infinity s.
Proof.
  intros Ha He. unfold binary_round_aux, shr_fexp. cbn [Zdigits2].
  rewrite digits2_pos_iter_xO, Pos2Z.inj_add, Ha.
  rewrite fexp_normal by (unfold prec in *; lia).
  replace (prec + Z.pos n + e - prec - e) with (Z.pos n) by lia.
  cbn [shr shr_record_of_loc]. rewrite shr_exact.
  cbn [shr_m loc_of_shr_record round_nearest_even Zdigits2].
  rewrite Ha, fexp_normal by (unfold prec in *; lia).
  replace (prec + (e + Z.pos n) - prec - (e + Z.pos n)) with 0 by lia.
  reflexivity.
Qed.

(** Rounding a mantissa of 53 bits is exact. *)
Lemma binary_round_aux_exact_0 (s : bool) (a : positive) (e : Z) :
  Z.pos (digits2_pos a) = prec ->
  emin + prec <= e ->
  binary_round_aux prec emax s (Z.pos a) e loc_Exact =
  if e <=? emax - prec then S754_finite s a e else S754_infinity s.
Proof.
  intros Ha He. unfold binary_round_aux, shr_fexp. cbn [Zdigits2].
  rewrite Ha, fexp_normal by (unfold prec in *; lia).
  replace (prec + e - prec - e) with 0 by lia.
  cbn [shr shr_record_of_loc shr_m loc_of_shr_record round_nearest_even Zdigits2].
  rewrite Ha, fexp_normal by (unfold prec in *; lia).
  replace (prec + e - prec - e) with 0 by lia.
  reflexivity.
Qed.

Lemma valid_binary_normal (s : bool) (m : positive) (e : Z) :
  Z.pos (digits2_pos m) = prec -> emin <= e -> e <= emax - prec ->
  valid_binary (S754_finite s m e) = true.
Proof.
  intros Hm He Hle. unfold SpecFloat.valid_binary, SpecFloat.bounded, SpecFloat.canonical_mantissa.
  rewrite Hm, fexp_normal by lia.
  apply andb_true_intro. split; [apply Z.eqb_eq; lia | apply Z.leb_le; exact Hle].
Qed.

Lemma Prim2SF_two : Prim2SF 2 = S754_finite false 4503599627370496 (-51).
Proof. vm_compute. reflexivity. Qed.

(** Twice a normal double. *)
Lemma mul_two (s : bool) (m : positive) (e : Z) :
  Z.pos (digits2_pos m) = prec -> emin + 2 * prec <= e -> e <= emax - prec ->
  (2 * SF2Prim (S754_finite s m e))%float = SF2Prim (SFdouble (S754_finite s m e)).
Proof.
  intros Hm He Hle.
  rewrite <- (SF2Prim_Prim2SF (2 * SF2Prim (S754_finite s m e))).
  f_equal. rewrite mul_spec, Prim2SF_two.
  rewrite Prim2SF_SF2Prim by (apply valid_binary_normal; unfold prec in *; lia).
  unfold SF64mul, SFmul. cbn [xorb].
  change (4503599627370496 * m)%positive with (Pos.iter xO m 52).
  rewrite binary_round_aux_exact by (unfold prec in *; lia).
  cbn [SFdouble].
  replace (-51 + e + 52) with (e + 1) by lia. reflexivity.
Qed.

Lemma is_infinity_finite (s : bool) (m : positive) (e : Z) :
  valid_binary (S754_finite s m e) = true ->
  is_infinity (SF2Prim (S754_finite s m e)) = false.
Proof.
  intros Hv. unfold is_infinity.
  rewrite FloatAxioms.eqb_spec, abs_spec, (Prim2SF_SF2Prim _ Hv).
  reflexivity.
Qed.


(** ** The integer quotient on doubles *)

Lemma quot_shift_double (a b : Z) :
  0 < a -> quot_shift (2 * a) b = quot_shift a b - 1.
Proof.
  intros Ha. unfold quot_shift. rewrite Z.log2_double by exact Ha. lia.
Qed.

Lemma shiftl_double (a k : Z) : Z.shiftl (2 * a) (k - 1) = Z.shiftl a k.
Proof.
  replace (2 * a) with (Z.shiftl a 1) by (rewrite Z.shiftl_mul_pow2; lia).
  rewrite Z.shiftl_shiftl by lia. f_equal. lia.
Qed.

Lemma quot_mantissa_double (a b : Z) :
  0 < a -> quot_mantissa (2 * a) b = quot_mantissa a b.
Proof.
  intros Ha. unfold quot_mantissa.
  rewrite (quot_shift_double a b Ha), shiftl_double.
  set (k := quot_shift a b). set (n := Z.shiftl a k).
  replace (Z.eqb (Z.shiftl n (- (k - 1))) (2 * a)) with (Z.eqb (Z.shiftl n (- k)) a);
    [reflexivity|].
  destruct (Z.le_gt_cases k 0) as [Hk|Hk].
  - (* a right shift of [a], undone by a left shift *)
    rewrite !Z.shiftl_mul_pow2 by lia.
    replace (- (k - 1)) with (Z.succ (- k)) by lia.
    rewrite Z.pow_succ_r by lia.
    destruct (Z.eqb_spec (n * 2 ^ (- k)) a) as [He|Hne].
    + symmetry. apply Z.eqb_eq. lia.
    + symmetry. apply Z.eqb_neq. lia.
  - (* a left shift of [a], undone by a right shift *)
    unfold n. rewrite (Z.shiftl_mul_pow2 a k) by lia.
    rewrite !Z.shiftl_div_pow2 by lia.
    replace (- - (k - 1)) with (k - 1) by lia.
    replace (- - k) with k by lia.
    rewrite Z.div_mul by (apply Z.pow_nonzero; lia).
    replace (2 ^ k) with (2 * 2 ^ (k - 1))
      by (rewrite <- Z.pow_succ_r by lia; f_equal; lia).
    rewrite Z.mul_assoc, Z.div_mul by (apply Z.pow_nonzero; lia).
    rewrite Z.eqb_refl. symmetry. apply Z.eqb_eq. lia.
Qed.

(** By 2048, the quotient has exactly 66 bits. *)
Lemma quot_mantissa_2048 (a : Z) :
  0 < a -> 2 ^ 65 <= quot_mantissa a 2048 < 2 ^ 66.
Proof.
  intros Ha. unfold quot_mantissa, quot_shift.
  change (Z.log2 2048) with 11.
  set (k := 11 - Z.log2 a + 64).
  pose proof (Z.log2_spec a Ha) as [Hlo Hhi].
  pose proof (Z.log2_nonneg a) as Hl.
  assert (Hn : 2 ^ 75 <= Z.shiftl a k < 2 ^ 76).
  { destruct (Z.le_gt_cases 0 k) as [Hk|Hk].
    - rewrite Z.shiftl_mul_pow2 by exact Hk.
      replace 75 with (Z.log2 a + k) by lia.
      replace 76 with (Z.succ (Z.log2 a) + k) by lia.
      rewrite !Z.pow_add_r by lia.
      assert (0 < 2 ^ k) by (apply Z.pow_pos_nonneg; lia).
      nia.
    - rewrite Z.shiftl_div_pow2 by lia.
      assert (Hp : 0 < 2 ^ (- k)) by (apply Z.pow_pos_nonneg; lia).
      replace (Z.log2 a) with (75 + - k) in Hlo by lia.
      replace (Z.succ (Z.log2 a)) with (76 + - k) in Hhi by lia.
      rewrite Z.pow_add_r in Hlo, Hhi by lia.
      split.
      + apply Z.div_le_lower_bound; [exact Hp | lia].
      + apply Z.div_lt_upper_bound; [exact Hp | lia]. }
  set (n := Z.shiftl a k) in *.
  assert (Hq : 2 ^ 64 <= n / 2048 < 2 ^ 65).
  { split.
    - apply Z.div_le_lower_bound; [lia|]. change (2048 * 2 ^ 64) with (2 ^ 75). lia.
    - apply Z.div_lt_upper_bound; [lia|]. change (2048 * 2 ^ 65) with (2 ^ 76). lia. }
  destruct (Z.eqb (Z.shiftl n (- k)) a && Z.eqb (n mod 2048) 0)%bool;
    change (2 ^ 65) with (2 * 2 ^ 64); change (2 ^ 66) with (2 * 2 ^ 65); lia.
Qed.


(** A mantissa of at least 53 bits needs no alignment before it is
    rounded. *)
Lemma binary_round_no_align (s : bool) (M : positive) (e : Z) :
  prec <= Z.pos (digits2_pos M) -> emin + prec <= e ->
  binary_round prec emax s M e = binary_round_aux prec emax s (Z.pos M) e loc_Exact.
Proof.
  intros Hd He. unfold binary_round, shl_align.
  rewrite fexp_normal by lia.
  destruct (Z.pos (digits2_pos M) + e - prec - e) eqn:Hsh; try reflexivity. lia.
Qed.

(** The quotient of a non-zero [int] by 2048, before it is made a float. *)
Lemma b64_divZ_2048 (t : Z) :
  t <> 0 ->
  exists M : positive,
    Z.pos M = quot_mantissa (Z.abs t) 2048 /\
    Z.pos (digits2_pos M) = 66 /\
    b64_divZ t 2048 =
    SF2Prim (binary_round_aux prec emax (t <? 0) (Z.pos M)
               (- quot_shift (Z.abs t) 2048 - 1) loc_Exact).
Proof.
  intros Ht.
  assert (Ha : 0 < Z.abs t) by lia.
  pose proof (quot_mantissa_2048 (Z.abs t) Ha) as HM.
  destruct (quot_mantissa (Z.abs t) 2048) as [|M|M] eqn:Hq; try lia.
  exists M. split; [reflexivity|].
  assert (Hd : Z.pos (digits2_pos M) = 66).
  { rewrite Zdigits2_log2.
    assert (Z.log2 (Z.pos M) = 65) by (apply Z.log2_unique; lia). lia. }
  split; [exact Hd|].
  assert (He : emin + prec <= - quot_shift (Z.abs t) 2048 - 1).
  { pose proof (Z.log2_nonneg (Z.abs t)).
    unfold quot_shift, prec, SpecFloat.emin, emax.
    change (Z.log2 2048) with 11. lia. }
  unfold b64_divZ.
  replace (Z.abs t =? 0) with false by (symmetry; apply Z.eqb_neq; lia).
  change (2048 <? 0) with false. rewrite xorb_false_r.
  change (Z.abs 2048) with 2048. rewrite Hq.
  destruct (t <? 0); cbn [Z.opp binary_normalize];
    (rewrite binary_round_no_align; [reflexivity | unfold prec; lia | exact He]).
Qed.

Lemma b64_divZ_2048_pos (t : Z) :
  0 < t ->
  exists M : positive,
    Z.pos M = quot_mantissa t 2048 /\
    Z.pos (digits2_pos M) = 66 /\
    b64_divZ t 2048 =
    SF2Prim (binary_round_aux prec emax false (Z.pos M)
               (- quot_shift t 2048 - 1) loc_Exact).
Proof.
  intros Ht. destruct (b64_divZ_2048 t) as [M HM]; [lia|].
  rewrite Z.abs_eq in HM by lia.
  replace (t <? 0) with false in HM by (symmetry; apply Z.ltb_ge; lia).
  exists M. exact HM.
Qed.

(** ** The scale factor on doubles *)

Lemma scaleTarget_b64 (t : Z) :
  scaleTarget_of (F := float) (Some t) =
  if is_infinity (b64_divZ t 2048) then Raise OverflowError
  else Ok (b64_divZ t 2048).
Proof. reflexivity. Qed.

Lemma quot_shift_2048_bound (t : Z) :
  0 < t -> emin + 2 * prec <= - quot_shift t 2048 - 1.
Proof.
  intros Ht. pose proof (Z.log2_nonneg t).
  unfold quot_shift, prec, SpecFloat.emin, emax. change (Z.log2 2048) with 11. lia.
Qed.

(** Whenever the scale of [2 * t] is a double, it is twice the scale of
    [t]. *)
Lemma b64_scale_double (t : Z) (y : float) :
  0 < t ->
  scaleTarget_of (Some (2 * t)) = Ok y ->
  exists x, scaleTarget_of (Some t) = Ok x /\ y = (2 * x)%float.
Proof.
  intros Ht Hy. rewrite scaleTarget_b64 in Hy. rewrite scaleTarget_b64.
  destruct (b64_divZ_2048_pos t Ht) as [M [HM [Hd Hx]]].
  destruct (b64_divZ_2048_pos (2 * t)) as [M' [HM' [_ Hy']]]; [lia|].
  rewrite quot_mantissa_double, <- HM in HM' by exact Ht.
  injection HM' as ->.
  rewrite quot_shift_double in Hy' by exact Ht.
  pose proof (quot_shift_2048_bound t Ht) as He0.
  set (e0 := - quot_shift t 2048 - 1) in *.
  replace (- (quot_shift t 2048 - 1) - 1) with (e0 + 1) in Hy' by (unfold e0; lia).
  rewrite binary_round_aux_succ in Hy' by (unfold prec in *; lia).
  destruct (binary_round_aux_normal false M e0) as [m' [e' [Hm' [He' Haux]]]];
    [unfold prec in *; lia | unfold prec in *; lia |].
  rewrite Haux in Hx, Hy'. rewrite Hd in He'.
  destruct (e' <=? emax - prec) eqn:Hle.
  - apply Z.leb_le in Hle.
    assert (Hv : valid_binary (S754_finite false m' e') = true).
    { apply valid_binary_normal; [exact Hm' | unfold prec in *; lia | exact Hle]. }
    exists (b64_divZ t 2048). rewrite Hx. split.
    + rewrite (is_infinity_finite _ _ _ Hv). reflexivity.
    + destruct (is_infinity (b64_divZ (2 * t) 2048)); [discriminate|].
      assert (Hyy : b64_divZ (2 * t) 2048 = y) by congruence.
      rewrite <- Hyy, Hy'. symmetry.
      apply mul_two; [exact Hm' | unfold prec in *; lia | exact Hle].
  - rewrite Hy' in Hy. discriminate Hy.
Qed.

(** Between -2^1034 and 2^1034 the scale is a double. *)
Lemma b64_scale_defined (t : Z) :
  - 2 ^ 1034 < t < 2 ^ 1034 ->
  exists x, scaleTarget_of (F := float) (Some t) = Ok x.
Proof.
  intros [Hlo Hhi]. rewrite scaleTarget_b64.
  destruct (Z.eq_dec t 0) as [->|Ht]; [eexists; reflexivity|].
  destruct (b64_divZ_2048 t Ht) as [M [HM [Hd Hx]]].
  assert (Ha : 0 < Z.abs t) by lia.
  pose proof (quot_shift_2048_bound (Z.abs t) Ha) as He0.
  destruct (binary_round_aux_normal (t <? 0) M
              (- quot_shift (Z.abs t) 2048 - 1))
    as [m' [e' [Hm' [He' Haux]]]];
    [unfold prec in *; lia | unfold prec in *; lia |].
  rewrite Haux in Hx. rewrite Hd in He'.
  assert (Hlt : Z.abs t < 2 ^ 1034) by lia.
  apply Z.log2_lt_pow2 in Hlt; [|exact Ha].
  assert (Hle : e' <= emax - prec).
  { unfold quot_shift, prec, emax in *. change (Z.log2 2048) with 11 in *. lia. }
  apply Z.leb_le in Hle. rewrite Hle in Hx. apply Z.leb_le in Hle.
  exists (b64_divZ t 2048). rewrite Hx, is_infinity_finite; [reflexivity|].
  apply valid_binary_normal; [exact Hm' | unfold prec in *; lia | exact Hle].
Qed.


Lemma Zpos_iter_xO (a n : positive) :
  Z.pos (Pos.iter xO a n) = Z.pos a * 2 ^ Z.pos n.
Proof.
  induction n as [|n IH] using Pos.peano_ind.
  - simpl. lia.
  - rewrite Pos.iter_succ, Pos2Z.inj_xO, IH, Pos2Z.inj_succ, Z.pow_succ_r by lia.
    lia.
Qed.

Lemma IZR_pow2 (j : Z) : 0 <= j -> IZR (2 ^ j) = powerRZ 2 j.
Proof.
  intros Hj. rewrite <- (Z2Nat.id j Hj), <- pow_IZR, pow_powerRZ. reflexivity.
Qed.

(** *** The quotient, rounded once *)

Lemma pow2_pred (n : Z) : 0 < n -> 2 ^ n = 2 ^ (n - 1) * 2.
Proof.
  intros Hn. replace n with (Z.succ (n - 1)) at 1 by lia.
  rewrite Z.pow_succ_r by lia. lia.
Qed.

Lemma shr_1_spec (m : Z) (r s : bool) :
  0 <= m ->
  shr_1 {| shr_m := m; shr_r := r; shr_s := s |} =
  {| shr_m := m / 2; shr_r := Z.odd m; shr_s := r || s |}.
Proof.
  intros Hm. rewrite <- Z.div2_div.
  destruct m as [|[p|p|]|p]; try lia; reflexivity.
Qed.

(** Shifting [p] bits out of [m]: the quotient, the last bit shifted out,
    and whether a bit before it was set. *)
Lemma shr_iter_spec (m : Z) (p : positive) :
  0 <= m ->
  SpecFloat.iter_pos shr_1 p {| shr_m := m; shr_r := false; shr_s := false |} =
  {| shr_m := m / 2 ^ Z.pos p;
     shr_r := Z.odd (m / 2 ^ (Z.pos p - 1));
     shr_s := negb (m mod 2 ^ (Z.pos p - 1) =? 0) |}.
Proof.
  intros Hm. rewrite iter_pos_iter.
  induction p as [|p IH] using Pos.peano_ind.
  - cbn [Pos.iter]. rewrite shr_1_spec by exact Hm.
    change (Z.pos 1 - 1) with 0. change (2 ^ 0) with 1. change (2 ^ Z.pos 1) with 2.
    rewrite Z.div_1_r, Z.mod_1_r. reflexivity.
  - rewrite Pos.iter_succ, IH.
    assert (Hp : 0 < 2 ^ (Z.pos p - 1)) by (apply Z.pow_pos_nonneg; lia).
    assert (Hpp : 2 ^ Z.pos p = 2 ^ (Z.pos p - 1) * 2) by (apply pow2_pred; lia).
    rewrite shr_1_spec by (apply Z.div_pos; lia).
    replace (Z.pos (Pos.succ p) - 1) with (Z.pos p) by lia.
    f_equal.
    + rewrite Z.div_div by lia. f_equal.
      rewrite Pos2Z.inj_succ, Z.pow_succ_r by lia. lia.
    + rewrite Hpp at 1. rewrite Z.rem_mul_r by lia.
      pose proof (Z.mod_pos_bound m (2 ^ (Z.pos p - 1)) Hp) as Hb.
      rewrite Zmod_odd.
      set (A := m mod 2 ^ (Z.pos p - 1)) in *.
      set (h := 2 ^ (Z.pos p - 1)) in *.
      destruct (Z.odd (m / h)); destruct (Z.eqb_spec A 0) as [H0|H0];
        cbn [orb negb]; symmetry.
      * apply negb_true_iff, Z.eqb_neq. lia.
      * apply negb_true_iff, Z.eqb_neq. lia.
      * apply negb_false_iff, Z.eqb_eq. lia.
      * apply negb_true_iff, Z.eqb_neq. lia.
Qed.

(** The rounding of [binary_round_aux] after a shift by [p] bits is the
    rounding to the nearest integer of the quotient by [2 ^ p]. *)
Lemma round_shr (m : Z) (p : positive) :
  0 <= m ->
  let mrs := SpecFloat.iter_pos shr_1 p
               {| shr_m := m; shr_r := false; shr_s := false |} in
  round_nearest_even (shr_m mrs) (loc_of_shr_record mrs) =
  round_div_pow2 m (Z.pos p).
Proof.
  intros Hm mrs. subst mrs. rewrite shr_iter_spec by exact Hm.
  cbn [shr_m]. unfold round_div_pow2.
  assert (Hp : 0 < 2 ^ (Z.pos p - 1)) by (apply Z.pow_pos_nonneg; lia).
  assert (Hpp : 2 ^ Z.pos p = 2 ^ (Z.pos p - 1) * 2) by (apply pow2_pred; lia).
  set (h := 2 ^ (Z.pos p - 1)) in *.
  assert (Hrem : m mod 2 ^ Z.pos p = m mod h + h * ((m / h) mod 2)).
  { rewrite Hpp. apply Z.rem_mul_r; lia. }
  pose proof (Z.mod_pos_bound m h Hp) as Hb.
  pose proof (Z.mod_pos_bound (m / h) 2 ltac:(lia)) as Hb2.
  assert (Hq : m / (h * 2) = m / h / 2) by (rewrite Z.div_div by lia; reflexivity).
  rewrite Hrem, Hpp, Zmod_odd.
  destruct (Z.odd (m / h)).
  - destruct (Z.eqb_spec (m mod h) 0) as [H0|H0];
      cbn [negb loc_of_shr_record round_nearest_even].
    + replace (2 * (m mod h + h * 1) <? h * 2) with false
        by (symmetry; apply Z.ltb_ge; lia).
      replace (h * 2 <? 2 * (m mod h + h * 1)) with false
        by (symmetry; apply Z.ltb_ge; lia).
      rewrite Hq. reflexivity.
    + replace (2 * (m mod h + h * 1) <? h * 2) with false
        by (symmetry; apply Z.ltb_ge; lia).
      replace (h * 2 <? 2 * (m mod h + h * 1)) with true
        by (symmetry; apply Z.ltb_lt; lia).
      rewrite Hq. reflexivity.
  - replace (2 * (m mod h + h * 0) <? h * 2) with true
      by (symmetry; apply Z.ltb_lt; lia).
    destruct (Z.eqb_spec (m mod h) 0); reflexivity.
Qed.

(** What [binary_round_aux] returns for a mantissa of more than 53 bits,
    away from the subnormal range: the bits beyond the 53rd are rounded
    away, to the nearest, ties to even. *)
Lemma binary_round_aux_shift (s : bool) (M p : positive) (e : Z) :
  Z.pos (digits2_pos M) = prec + Z.pos p ->
  emin + prec <= e ->
  let m1 := round_div_pow2 (Z.pos M) (Z.pos p) in
  2 ^ 52 <= m1 <= 2 ^ 53 /\
  binary_round_aux prec emax s (Z.pos M) e loc_Exact =
  if m1 =? 2 ^ 53 then
    if e + Z.pos p + 1 <=? emax - prec
    then S754_finite s 4503599627370496 (e + Z.pos p + 1) else S754_infinity s
  else
    if e + Z.pos p <=? emax - prec
    then S754_finite s (Z.to_pos m1) (e + Z.pos p) else S754_infinity s.
Proof.
  intros Hd He m1.
  unfold binary_round_aux, shr_fexp. cbn [Zdigits2].
  rewrite fexp_normal by (unfold prec in *; lia).
  replace (Z.pos (digits2_pos M) + e - prec - e) with (Z.pos p) by lia.
  cbn [shr shr_record_of_loc].
  pose proof (round_shr (Z.pos M) p ltac:(lia)) as Hrnd. cbn zeta in Hrnd.
  pose proof (shr_iter_spec (Z.pos M) p ltac:(lia)) as Hspec.
  set (mrs := SpecFloat.iter_pos shr_1 p
                {| shr_m := Z.pos M; shr_r := false; shr_s := false |}) in *.
  rewrite Hrnd. fold m1.
  assert (Hm0 : 2 ^ 52 <= Z.pos M / 2 ^ Z.pos p < 2 ^ 53).
  { pose proof (Zdigits2_log2 M) as Hl. rewrite Hd in Hl.
    pose proof (Z.log2_spec (Z.pos M) ltac:(lia)) as [Hlo Hhi].
    replace (Z.log2 (Z.pos M)) with (52 + Z.pos p) in Hlo, Hhi
      by (unfold prec in Hl; lia).
    replace (Z.succ (52 + Z.pos p)) with (53 + Z.pos p) in Hhi by lia.
    rewrite Z.pow_add_r in Hlo, Hhi by lia.
    assert (Hpp : 0 < 2 ^ Z.pos p) by (apply Z.pow_pos_nonneg; lia).
    split.
    - apply Z.div_le_lower_bound; lia.
    - apply Z.div_lt_upper_bound; lia. }
  assert (Hm1 : Z.pos M / 2 ^ Z.pos p <= m1 <= Z.pos M / 2 ^ Z.pos p + 1).
  { unfold m1, round_div_pow2.
    destruct (2 * (Z.pos M mod 2 ^ Z.pos p) <? 2 ^ Z.pos p); [lia|].
    destruct (2 ^ Z.pos p <? 2 * (Z.pos M mod 2 ^ Z.pos p)); [lia|].
    destruct (Z.even (Z.pos M / 2 ^ Z.pos p)); lia. }
  split; [lia|].
  destruct (Z.eqb_spec m1 (2 ^ 53)) as [Heq|Hne].
  - rewrite Heq.
    replace (fexp prec emax (Zdigits2 (2 ^ 53) + (e + Z.pos p)) - (e + Z.pos p))
      with 1 by (change (Zdigits2 (2 ^ 53)) with 54;
                 rewrite fexp_normal by (unfold prec in *; lia);
                 unfold prec; lia).
    reflexivity.
  - assert (Hlog2 : Z.log2 m1 = 52) by (apply Z.log2_unique; lia).
    assert (Hpos : 0 < m1) by lia.
    rewrite (Zdigits2_pos_log2 m1 Hpos), Hlog2.
    rewrite fexp_normal by (unfold prec in *; lia).
    replace (52 + 1 + (e + Z.pos p) - prec - (e + Z.pos p)) with 0
      by (unfold prec; lia).
    cbn [shr shr_record_of_loc shr_m].
    destruct m1 as [|q|q] eqn:Hq; try lia. reflexivity.
Qed.

(** *** The 53 bits of a quotient by 2048 *)

Lemma round_div_pow2_scale (m a d : Z) :
  0 <= a -> 0 <= d ->
  round_div_pow2 (m * 2 ^ a) (a + d) = round_div_pow2 m d.
Proof.
  intros Ha Hd. unfold round_div_pow2.
  assert (Hpa : 0 < 2 ^ a) by (apply Z.pow_pos_nonneg; lia).
  assert (Hpd : 0 < 2 ^ d) by (apply Z.pow_pos_nonneg; lia).
  rewrite Z.pow_add_r by lia.
  rewrite (Z.mul_comm (2 ^ a) (2 ^ d)).
  rewrite Z.div_mul_cancel_r by lia.
  rewrite Z.mul_mod_distr_r by lia.
  pose proof (Z.mod_pos_bound m (2 ^ d) Hpd) as Hb.
  set (r := m mod 2 ^ d) in *. set (q := m / 2 ^ d).
  replace (2 * (r * 2 ^ a) <? 2 ^ d * 2 ^ a) with (2 * r <? 2 ^ d).
  2:{ destruct (Z.ltb_spec (2 * r) (2 ^ d)); symmetry;
        [apply Z.ltb_lt | apply Z.ltb_ge]; nia. }
  replace (2 ^ d * 2 ^ a <? 2 * (r * 2 ^ a)) with (2 ^ d <? 2 * r).
  2:{ destruct (Z.ltb_spec (2 ^ d) (2 * r)); symmetry;
        [apply Z.ltb_lt | apply Z.ltb_ge]; nia. }
  reflexivity.
Qed.

Lemma round_div_pow2_0 (m : Z) : round_div_pow2 m 0 = m.
Proof.
  unfold round_div_pow2. change (2 ^ 0) with 1.
  rewrite Z.mod_1_r, Z.div_1_r. reflexivity.
Qed.

(** A quotient cut after [j] bits, with a last bit that tells whether
    anything was cut, is rounded as the whole. *)
Lemma round_div_pow2_sticky (t j c : Z) :
  0 <= t -> 0 < j -> 0 < c ->
  round_div_pow2 (2 * (t / 2 ^ j) + (if t mod 2 ^ j =? 0 then 0 else 1)) (c + 1) =
  round_div_pow2 t (j + c).
Proof.
  intros Ht Hj Hc. unfold round_div_pow2.
  assert (Hpj : 0 < 2 ^ j) by (apply Z.pow_pos_nonneg; lia).
  assert (Hpc : 2 ^ c = 2 ^ (c - 1) * 2) by (apply pow2_pred; lia).
  assert (Hph : 0 < 2 ^ (c - 1)) by (apply Z.pow_pos_nonneg; lia).
  pose proof (Z.mod_pos_bound t (2 ^ j) Hpj) as Hrho.
  set (q := t / 2 ^ j). set (rho := t mod 2 ^ j) in *.
  set (st := if rho =? 0 then 0 else 1).
  assert (Hst : (st = 0 /\ rho = 0) \/ (st = 1 /\ 0 < rho)).
  { unfold st. destruct (Z.eqb_spec rho 0); [left | right]; lia. }
  assert (Hq : 0 <= q) by (apply Z.div_pos; lia).
  pose proof (Z.mod_pos_bound q (2 ^ c) ltac:(lia)) as HA.
  (* the quotients *)
  pose proof (Z.div_mod q (2 ^ c) ltac:(lia)) as Hdm.
  assert (Hq1 : (2 * q + st) / 2 ^ (c + 1) = q / 2 ^ c).
  { rewrite Z.pow_add_r by lia. change (2 ^ 1) with 2.
    symmetry. apply Z.div_unique with (2 * (q mod 2 ^ c) + st); lia. }
  assert (Hq2 : t / 2 ^ (j + c) = q / 2 ^ c).
  { rewrite Z.pow_add_r by lia. unfold q.
    rewrite Z.div_div by lia. reflexivity. }
  (* the remainders *)
  assert (Hr1 : (2 * q + st) mod 2 ^ (c + 1) = 2 * (q mod 2 ^ c) + st).
  { symmetry. apply Z.mod_unique with (q / 2 ^ c).
    - left. rewrite Z.pow_add_r by lia. change (2 ^ 1) with 2. lia.
    - rewrite Z.pow_add_r by lia. change (2 ^ 1) with 2. lia. }
  assert (Hr2 : t mod 2 ^ (j + c) = rho + 2 ^ j * (q mod 2 ^ c)).
  { rewrite Z.pow_add_r by lia. apply Z.rem_mul_r; lia. }
  rewrite Hq1, Hq2, Hr1, Hr2.
  set (A := q mod 2 ^ c) in *. set (Q := q / 2 ^ c).
  rewrite !Z.pow_add_r by lia. change (2 ^ 1) with 2.
  set (P := 2 ^ j) in *. set (C := 2 ^ c) in *. set (h := 2 ^ (c - 1)) in *.
  clearbody st Q A P C h rho q. clear Hq1 Hq2 Hr1 Hr2 Hdm.
  assert (Hcmp1 : (2 * (2 * A + st) <? C * 2) = (2 * (rho + P * A) <? P * C)).
  { destruct (Z.ltb_spec (2 * (rho + P * A)) (P * C)) as [H|H].
    - apply Z.ltb_lt. assert (A < h) by nia. lia.
    - apply Z.ltb_ge. assert (h <= A) by nia. lia. }
  assert (Hcmp2 : (C * 2 <? 2 * (2 * A + st)) = (P * C <? 2 * (rho + P * A))).
  { destruct (Z.ltb_spec (P * C) (2 * (rho + P * A))) as [H|H].
    - apply Z.ltb_lt.
      assert (h < A \/ (h = A /\ 0 < rho)) as [H1|[H1 H2]] by nia; lia.
    - apply Z.ltb_ge.
      assert (A < h \/ (h = A /\ rho = 0)) as [H1|[H1 H2]] by nia; lia. }
  rewrite Hcmp1, Hcmp2. reflexivity.
Qed.

Lemma quot_mantissa_low (t : Z) :
  0 < t -> Z.log2 t <= 64 ->
  quot_mantissa t 2048 = t * 2 ^ (65 - Z.log2 t).
Proof.
  intros Ht HL. pose proof (Z.log2_nonneg t) as Hl.
  unfold quot_mantissa, quot_shift. change (Z.log2 2048) with 11.
  set (k := 11 - Z.log2 t + 64).
  assert (Hk : 11 <= k) by (unfold k; lia).
  rewrite (Z.shiftl_mul_pow2 t k) by lia.
  rewrite Z.shiftl_div_pow2 by lia.
  replace (- - k) with k by lia.
  rewrite Z.div_mul by (apply Z.pow_nonzero; lia).
  rewrite Z.eqb_refl.
  replace (2 ^ k) with (2 ^ (k - 11) * 2048)
    by (change 2048 with (2 ^ 11); rewrite <- Z.pow_add_r by lia; f_equal; lia).
  rewrite Z.mul_assoc, Z.mod_mul, Z.div_mul by lia.
  cbn [Z.eqb andb].
  replace (65 - Z.log2 t) with (Z.succ (k - 11)) by (unfold k; lia).
  rewrite Z.pow_succ_r by lia. lia.
Qed.

Lemma quot_mantissa_high (t : Z) :
  0 < t -> 65 <= Z.log2 t ->
  quot_mantissa t 2048 =
  2 * (t / 2 ^ (Z.log2 t - 64)) +
  (if t mod 2 ^ (Z.log2 t - 64) =? 0 then 0 else 1).
Proof.
  intros Ht HL.
  unfold quot_mantissa, quot_shift. change (Z.log2 2048) with 11.
  set (k := 11 - Z.log2 t + 64).
  set (j := Z.log2 t - 64).
  assert (Hj : 0 < j) by (unfold j; lia).
  assert (Hkj : k = 11 - j) by (unfold k, j; lia).
  assert (Hpj : 0 < 2 ^ j) by (apply Z.pow_pos_nonneg; lia).
  pose proof (Z.mod_pos_bound t (2 ^ j) Hpj) as Hrho.
  pose proof (Z.div_mod t (2 ^ j) ltac:(lia)) as Hdm.
  destruct (Z.le_gt_cases 0 k) as [Hk|Hk].
  - (* the target is shifted left by [k] bits, fewer than 11 *)
    assert (Hpk : 0 < 2 ^ k) by (apply Z.pow_pos_nonneg; lia).
    rewrite (Z.shiftl_mul_pow2 t k) by lia.
    rewrite Z.shiftl_div_pow2 by lia.
    replace (- - k) with k by lia.
    rewrite Z.div_mul by lia. rewrite Z.eqb_refl. cbn [andb].
    assert (H2048 : 2048 = 2 ^ k * 2 ^ j).
    { rewrite <- Z.pow_add_r by lia. replace (k + j) with 11 by lia. reflexivity. }
    rewrite H2048.
    rewrite (Z.mul_comm (2 ^ k) (2 ^ j)), Z.div_mul_cancel_r by lia.
    rewrite Z.mul_mod_distr_r by lia.
    destruct (Z.eqb_spec (t mod 2 ^ j) 0) as [H0|H0].
    + rewrite H0. reflexivity.
    + replace (t mod 2 ^ j * 2 ^ k =? 0) with false
        by (symmetry; apply Z.eqb_neq; nia).
      reflexivity.
  - (* the target is shifted right by [- k] bits *)
    assert (Hpk : 0 < 2 ^ (- k)) by (apply Z.pow_pos_nonneg; lia).
    rewrite (Z.shiftl_div_pow2 t k) by lia.
    rewrite Z.shiftl_mul_pow2 by lia.
    change 2048 with (2 ^ 11).
    assert (Hj2 : 2 ^ j = 2 ^ (- k) * 2 ^ 11).
    { rewrite <- Z.pow_add_r by lia. f_equal. lia. }
    rewrite Z.div_div by lia. rewrite <- Hj2.
    assert (Hrem : t mod 2 ^ j = t mod 2 ^ (- k) + 2 ^ (- k) * ((t / 2 ^ (- k)) mod 2 ^ 11)).
    { rewrite Hj2. apply Z.rem_mul_r; lia. }
    pose proof (Z.mod_pos_bound t (2 ^ (- k)) Hpk) as Hr1.
    pose proof (Z.mod_pos_bound (t / 2 ^ (- k)) (2 ^ 11) ltac:(lia)) as Hr2.
    pose proof (Z.div_mod t (2 ^ (- k)) ltac:(lia)) as Hdm2.
    destruct (Z.eqb_spec (t / 2 ^ (- k) * 2 ^ (- k)) t) as [He|He];
      destruct (Z.eqb_spec ((t / 2 ^ (- k)) mod 2 ^ 11) 0) as [Hm|Hm];
      cbn [andb].
    + replace (t mod 2 ^ j =? 0) with true
        by (symmetry; apply Z.eqb_eq; nia).
      reflexivity.
    + replace (t mod 2 ^ j =? 0) with false
        by (symmetry; apply Z.eqb_neq; nia).
      reflexivity.
    + replace (t mod 2 ^ j =? 0) with false
        by (symmetry; apply Z.eqb_neq; nia).
      reflexivity.
    + replace (t mod 2 ^ j =? 0) with false
        by (symmetry; apply Z.eqb_neq; nia).
      reflexivity.
Qed.

Lemma mantissa53_bounds (t : Z) : 0 < t -> 2 ^ 52 <= mantissa53 t <= 2 ^ 53.
Proof.
  intros Ht. unfold mantissa53.
  pose proof (Z.log2_spec t Ht) as [Hlo Hhi].
  pose proof (Z.log2_nonneg t) as Hl.
  destruct (Z.leb_spec (Z.log2 t) 52) as [HL|HL].
  - set (j := 52 - Z.log2 t).
    assert (Hpj : 0 < 2 ^ j) by (apply Z.pow_pos_nonneg; unfold j; lia).
    replace 52 with (Z.log2 t + j) at 1 by (unfold j; lia).
    replace 53 with (Z.succ (Z.log2 t) + j) by (unfold j; lia).
    rewrite !Z.pow_add_r by (unfold j; lia). nia.
  - set (d := Z.log2 t - 52) in *.
    assert (Hpd : 0 < 2 ^ d) by (apply Z.pow_pos_nonneg; unfold d; lia).
    replace (Z.log2 t) with (52 + d) in Hlo, Hhi by (unfold d; lia).
    replace (Z.succ (52 + d)) with (53 + d) in Hhi by lia.
    rewrite Z.pow_add_r in Hlo, Hhi by (unfold d; lia).
    assert (Hq : 2 ^ 52 <= t / 2 ^ d < 2 ^ 53).
    { split; [apply Z.div_le_lower_bound | apply Z.div_lt_upper_bound]; lia. }
    unfold round_div_pow2.
    destruct (2 * (t mod 2 ^ d) <? 2 ^ d); [lia|].
    destruct (2 ^ d <? 2 * (t mod 2 ^ d)); [lia|].
    destruct (Z.even (t / 2 ^ d)); lia.
Qed.

(** The 66 bits of the quotient round to the 53 significant bits of the
    target. *)
Lemma quot_mantissa_round (t : Z) :
  0 < t -> round_div_pow2 (quot_mantissa t 2048) 13 = mantissa53 t.
Proof.
  intros Ht. pose proof (Z.log2_nonneg t) as Hl. unfold mantissa53.
  destruct (Z.leb_spec (Z.log2 t) 52) as [HL|HL].
  - rewrite quot_mantissa_low by lia.
    replace (65 - Z.log2 t) with (52 - Z.log2 t + 13) by lia.
    rewrite Z.pow_add_r, Z.mul_assoc by lia.
    change 13 with (13 + 0) at 2.
    rewrite (round_div_pow2_scale _ 13 0) by lia.
    apply round_div_pow2_0.
  - destruct (Z.le_gt_cases (Z.log2 t) 64) as [HL2|HL2].
    + rewrite quot_mantissa_low by lia.
      rewrite <- (round_div_pow2_scale t (65 - Z.log2 t) (Z.log2 t - 52)) by lia.
      f_equal. lia.
    + rewrite quot_mantissa_high by lia.
      replace (Z.log2 t - 52) with (Z.log2 t - 64 + 12) by lia.
      apply (round_div_pow2_sticky t (Z.log2 t - 64) 12); lia.
Qed.

(** The quotient of a positive [int] by 2048, as a double. *)
Lemma b64_divZ_2048_mantissa (t : Z) :
  0 < t ->
  b64_divZ t 2048 =
  SF2Prim (double_of_mantissa (mantissa53 t) (Z.log2 t - 63)).
Proof.
  intros Ht.
  destruct (b64_divZ_2048_pos t Ht) as [M [HM [Hd Hx]]].
  pose proof (quot_shift_2048_bound t Ht) as He0.
  destruct (binary_round_aux_shift false M 13 (- quot_shift t 2048 - 1))
    as [_ Haux]; [unfold prec; lia | unfold prec in *; lia |].
  rewrite Hx, Haux, HM, (quot_mantissa_round t Ht).
  unfold double_of_mantissa, quot_shift. change (Z.log2 2048) with 11.
  replace (- (11 - Z.log2 t + 64) - 1 + 13) with (Z.log2 t - 63) by lia.
  reflexivity.
Qed.

(** The quotient is the double nearest to [t * 2 ^ -11]. *)
Lemma nearest_double_mantissa (t : Z) :
  0 < t ->
  nearest_double t (-11) =
  SF2Prim (double_of_mantissa (mantissa53 t) (Z.log2 t - 63)).
Proof.
  intros Ht. unfold nearest_double. f_equal.
  pose proof (Z.log2_nonneg t) as Hl.
  pose proof (Z.log2_spec t Ht) as [Hlo Hhi].
  destruct t as [|T|T]; try lia. cbn [binary_normalize].
  pose proof (Zdigits2_log2 T) as HD.
  unfold mantissa53, double_of_mantissa.
  destruct (Z.leb_spec (Z.log2 (Z.pos T)) 52) as [HL|HL].
  - (* at most 53 bits: the mantissa is shifted left, nothing is rounded *)
    set (j := 52 - Z.log2 (Z.pos T)) in *.
    assert (Hpj : 0 < 2 ^ j) by (apply Z.pow_pos_nonneg; unfold j; lia).
    assert (Ha : 2 ^ 52 <= Z.pos T * 2 ^ j < 2 ^ 53).
    { replace 52 with (Z.log2 (Z.pos T) + j) at 1 by (unfold j; lia).
      replace 53 with (Z.succ (Z.log2 (Z.pos T)) + j) by (unfold j; lia).
      rewrite !Z.pow_add_r by (unfold j; lia). nia. }
    replace (Z.pos T * 2 ^ j =? 2 ^ 53) with false
      by (symmetry; apply Z.eqb_neq; lia).
    unfold binary_round, shl_align.
    rewrite HD, fexp_normal by (unfold SpecFloat.emin, prec, emax; lia).
    replace (Z.log2 (Z.pos T) + 1 + -11 - prec - -11) with (- j)
      by (unfold j, prec; lia).
    destruct j as [|p|p] eqn:Hj; [| |lia].
    + cbn [Z.opp]. rewrite Z.mul_1_r in *.
      rewrite binary_round_aux_exact_0;
        [| rewrite HD; unfold prec; lia | unfold SpecFloat.emin, prec, emax; lia].
      replace (Z.log2 (Z.pos T) - 63) with (-11) by lia.
      reflexivity.
    + cbn [Z.opp].
      assert (HTa : Z.pos (Pos.iter xO T p) = Z.pos T * 2 ^ Z.pos p)
        by apply Zpos_iter_xO.
      rewrite binary_round_aux_exact_0.
      * replace (Z.log2 (Z.pos T) + 1 + -11 - prec) with (Z.log2 (Z.pos T) - 63)
          by (unfold prec; lia).
        rewrite <- HTa. reflexivity.
      * rewrite digits2_pos_iter_xO, Pos2Z.inj_add, HD. unfold prec. lia.
      * unfold SpecFloat.emin, prec, emax. lia.
  - (* more than 53 bits *)
    set (d := Z.log2 (Z.pos T) - 52) in *.
    destruct d as [|p|p] eqn:Hd; try lia.
    rewrite binary_round_no_align by (unfold SpecFloat.emin, prec, emax; lia).
    destruct (binary_round_aux_shift false T p (-11)) as [_ Haux];
      [unfold prec; lia | unfold SpecFloat.emin, prec, emax; lia |].
    rewrite Haux.
    replace (-11 + Z.pos p) with (Z.log2 (Z.pos T) - 63) by lia.
    reflexivity.
Qed.

(** *** Rounding to 53 bits *)

Lemma round_div_pow2_error (t d : Z) :
  0 <= t -> 0 < d -> 2 * Z.abs (round_div_pow2 t d * 2 ^ d - t) <= 2 ^ d.
Proof.
  intros Ht Hd. unfold round_div_pow2.
  assert (Hp : 0 < 2 ^ d) by (apply Z.pow_pos_nonneg; lia).
  pose proof (Z.div_mod t (2 ^ d) ltac:(lia)) as Hdm.
  pose proof (Z.mod_pos_bound t (2 ^ d) Hp) as Hr.
  set (q := t / 2 ^ d) in *. set (r := t mod 2 ^ d) in *.
  set (h := 2 ^ d) in *. clearbody q r h.
  destruct (Z.ltb_spec (2 * r) h); [nia|].
  destruct (Z.ltb_spec h (2 * r)); [nia|].
  destruct (Z.even q); nia.
Qed.

Lemma round_div_pow2_exact (t d : Z) :
  0 <= t -> 0 <= d ->
  round_div_pow2 t d * 2 ^ d = t <-> t mod 2 ^ d = 0.
Proof.
  intros Ht Hd. unfold round_div_pow2.
  assert (Hp : 0 < 2 ^ d) by (apply Z.pow_pos_nonneg; lia).
  pose proof (Z.div_mod t (2 ^ d) ltac:(lia)) as Hdm.
  pose proof (Z.mod_pos_bound t (2 ^ d) Hp) as Hr.
  set (q := t / 2 ^ d) in *. set (r := t mod 2 ^ d) in *.
  set (h := 2 ^ d) in *. clearbody q r h.
  destruct (Z.ltb_spec (2 * r) h); [split; nia|].
  destruct (Z.ltb_spec h (2 * r)); [split; nia|].
  destruct (Z.even q); split; nia.
Qed.

(** The rounding carries into a 54th bit from [2 ^ (53 + d) - 2 ^ (d - 1)]
    on. *)
Lemma round_div_pow2_carry (t d : Z) :
  0 < d -> 2 ^ (52 + d) <= t < 2 ^ (53 + d) ->
  round_div_pow2 t d = 2 ^ 53 <-> 2 ^ (53 + d) - 2 ^ (d - 1) <= t.
Proof.
  intros Hd [Hlo Hhi]. unfold round_div_pow2.
  assert (Hp : 0 < 2 ^ (d - 1)) by (apply Z.pow_pos_nonneg; lia).
  rewrite !Z.pow_add_r in * by lia.
  rewrite (pow2_pred d Hd) in *.
  pose proof (Z.div_mod t (2 ^ (d - 1) * 2) ltac:(lia)) as Hdm.
  pose proof (Z.mod_pos_bound t (2 ^ (d - 1) * 2) ltac:(lia)) as Hr.
  set (q := t / (2 ^ (d - 1) * 2)) in *. set (r := t mod (2 ^ (d - 1) * 2)) in *.
  set (h := 2 ^ (d - 1)) in *.
  assert (Hq : 2 ^ 52 <= q < 2 ^ 53) by (clearbody q r h; nia).
  destruct (Z.ltb_spec (2 * r) (h * 2)); [clearbody q r h; split; nia|].
  destruct (Z.ltb_spec (h * 2) (2 * r)); [clearbody q r h; split; nia|].
  destruct (Z.even q) eqn:Hev.
  - split; [lia|]. intros Hge.
    assert (Hq53 : q = 2 ^ 53 - 1) by (clearbody q r h; nia).
    rewrite Hq53 in Hev. discriminate Hev.
  - clearbody q r h. split; nia.
Qed.

Lemma round53_mantissa (t : Z) :
  0 < t ->
  (IZR (mantissa53 t) * powerRZ 2 (Z.log2 t - 63) = IZR (round53 t) / 2048)%R.
Proof.
  intros Ht. pose proof (Z.log2_nonneg t) as Hl.
  unfold mantissa53, round53.
  destruct (Z.leb_spec (Z.log2 t) 52) as [HL|HL].
  - rewrite mult_IZR, IZR_pow2 by lia.
    replace (Z.log2 t - 63) with (- (52 - Z.log2 t) + - 11) by lia.
    rewrite powerRZ_add, powerRZ_neg' by lra.
    assert (Hp : (0 < powerRZ 2 (52 - Z.log2 t))%R) by (apply powerRZ_lt; lra).
    change (powerRZ 2 (-11)) with (/ 2 ^ 11)%R. field. lra.
  - rewrite mult_IZR, IZR_pow2 by lia.
    replace (Z.log2 t - 63) with (Z.log2 t - 52 + - 11) by lia.
    rewrite powerRZ_add by lra.
    change (powerRZ 2 (-11)) with (/ 2 ^ 11)%R. field.
Qed.

Lemma round53_error (t : Z) :
  0 < t -> 2 ^ 53 * Z.abs (round53 t - t) <= t.
Proof.
  intros Ht. pose proof (Z.log2_nonneg t) as Hl.
  pose proof (Z.log2_spec t Ht) as [Hlo _].
  unfold round53.
  destruct (Z.leb_spec (Z.log2 t) 52) as [HL|HL].
  - rewrite Z.sub_diag. simpl. lia.
  - pose proof (round_div_pow2_error t (Z.log2 t - 52)) as He.
    replace (Z.log2 t) with (52 + (Z.log2 t - 52)) in Hlo at 1 by lia.
    rewrite Z.pow_add_r in Hlo by lia.
    set (d := Z.log2 t - 52) in *.
    assert (Hp : 0 < 2 ^ d) by (apply Z.pow_pos_nonneg; lia).
    specialize (He ltac:(lia) ltac:(lia)).
    change (2 ^ 53) with (2 ^ 52 * 2). nia.
Qed.

(** What is rounded to itself: the integers of at most 53 significant
    bits. *)
Lemma round53_exact (t : Z) :
  0 < t ->
  round53 t = t <-> exists a j, 0 <= j /\ 0 < a < 2 ^ 53 /\ t = a * 2 ^ j.
Proof.
  intros Ht. pose proof (Z.log2_nonneg t) as Hl.
  pose proof (Z.log2_spec t Ht) as [Hlo Hhi].
  unfold round53.
  destruct (Z.leb_spec (Z.log2 t) 52) as [HL|HL].
  - split; [|reflexivity]. intros _. exists t, 0.
    assert (Z.log2 t < 53) by lia.
    assert (t < 2 ^ 53) by (apply Z.log2_lt_pow2; lia).
    simpl. lia.
  - set (d := Z.log2 t - 52) in *.
    assert (Hd : 0 < d) by (unfold d; lia).
    assert (Hp : 0 < 2 ^ d) by (apply Z.pow_pos_nonneg; lia).
    rewrite round_div_pow2_exact by lia.
    split.
    + intros Hmod. exists (t / 2 ^ d), d.
      pose proof (Z.div_mod t (2 ^ d) ltac:(lia)) as Hdm.
      rewrite Hmod in Hdm.
      replace (Z.succ (Z.log2 t)) with (53 + d) in Hhi by (unfold d; lia).
      rewrite Z.pow_add_r in Hhi by lia.
      split; [lia|]. split; [nia | lia].
    + intros [a [j [Hj [Ha Heq]]]].
      assert (Hla : Z.log2 a <= 52).
      { assert (Z.log2 a < 53) by (apply Z.log2_lt_pow2; lia). lia. }
      assert (Hlt : Z.log2 t = Z.log2 a + j).
      { rewrite Heq, <- Z.shiftl_mul_pow2 by lia. apply Z.log2_shiftl; lia. }
      assert (Hdj : d <= j) by (unfold d; lia).
      rewrite Heq. replace j with (j - d + d) by lia.
      rewrite Z.pow_add_r, Z.mul_assoc by lia.
      apply Z.mod_mul. lia.
Qed.

(** *** The range of the scale factor *)

Lemma mantissa53_carry (t : Z) :
  0 < t -> Z.log2 t = 1034 ->
  mantissa53 t = 2 ^ 53 <-> 2 ^ 1035 - 2 ^ 981 <= t.
Proof.
  intros Ht HL. pose proof (Z.log2_spec t Ht) as Hspec. rewrite HL in Hspec.
  unfold mantissa53. rewrite HL. change (1034 <=? 52) with false. cbv iota.
  change (1034 - 52) with 982.
  apply (round_div_pow2_carry t 982); [lia|].
  change (52 + 982) with 1034. change (53 + 982) with (Z.succ 1034). exact Hspec.
Qed.

Lemma double_of_mantissa_range (t : Z) :
  0 < t ->
  let sf := double_of_mantissa (mantissa53 t) (Z.log2 t - 63) in
  if t <? 2 ^ 1035 - 2 ^ 981
  then valid_binary sf = true /\
       is_infinity (SF2Prim sf) = false /\
       SF2R sf = (IZR (mantissa53 t) * powerRZ 2 (Z.log2 t - 63))%R
  else sf = S754_infinity false.
Proof.
  intros Ht sf. pose proof (Z.log2_nonneg t) as Hl.
  pose proof (mantissa53_bounds t Ht) as Hm.
  pose proof (mantissa53_carry t Ht) as Hc.
  destruct (Z.ltb_spec t (2 ^ 1035 - 2 ^ 981)) as [Hlt|Hge].
  - assert (HL : Z.log2 t <= 1034).
    { assert (Z.log2 t < 1035) by (apply Z.log2_lt_pow2; lia). lia. }
    unfold sf, double_of_mantissa.
    destruct (Z.eqb_spec (mantissa53 t) (2 ^ 53)) as [He|Hne].
    + assert (HL' : Z.log2 t <= 1033).
      { destruct (Z.eq_dec (Z.log2 t) 1034) as [E|E]; [|lia].
        apply (Hc E) in He. lia. }
      replace (Z.log2 t - 63 + 1 <=? emax - prec) with true
        by (symmetry; apply Z.leb_le; unfold emax, prec; lia).
      assert (Hv : valid_binary
                     (S754_finite false 4503599627370496 (Z.log2 t - 63 + 1)) = true).
      { apply valid_binary_normal;
          [reflexivity | unfold SpecFloat.emin, emax, prec; lia
           | unfold emax, prec; lia]. }
      split; [exact Hv|]. split; [apply is_infinity_finite; exact Hv|].
      cbn [SF2R]. rewrite He, powerRZ_add by lra.
        change (IZR (Z.pos 4503599627370496)) with (IZR (2 ^ 52)).
        change (2 ^ 53) with (2 ^ 52 * 2). rewrite mult_IZR.
        change (powerRZ 2 1) with (2 * 1)%R. lra.
    + replace (Z.log2 t - 63 <=? emax - prec) with true
        by (symmetry; apply Z.leb_le; unfold emax, prec; lia).
      assert (Hpos : 0 < mantissa53 t) by lia.
      destruct (mantissa53 t) as [|m|m] eqn:Hmt; try lia.
      cbn [Z.to_pos].
      assert (Hv : valid_binary (S754_finite false m (Z.log2 t - 63)) = true).
      { apply valid_binary_normal;
          [| unfold SpecFloat.emin, emax, prec; lia | unfold emax, prec; lia].
        rewrite Zdigits2_log2.
        assert (Z.log2 (Z.pos m) = 52) by (apply Z.log2_unique; lia).
        unfold prec. lia. }
      split; [exact Hv|]. split; [apply is_infinity_finite; exact Hv|].
      cbn [SF2R]. lra.
  - assert (HL : 1034 <= Z.log2 t) by (apply Z.log2_le_pow2; lia).
    unfold sf, double_of_mantissa.
    destruct (Z.eqb_spec (mantissa53 t) (2 ^ 53)) as [He|Hne].
    + replace (Z.log2 t - 63 + 1 <=? emax - prec) with false
        by (symmetry; apply Z.leb_gt; unfold emax, prec; lia).
      reflexivity.
    + assert (HL' : 1035 <= Z.log2 t).
      { destruct (Z.eq_dec (Z.log2 t) 1034) as [E|E]; [|lia].
        apply (Hc E) in Hge. contradiction. }
      replace (Z.log2 t - 63 <=? emax - prec) with false
        by (symmetry; apply Z.leb_gt; unfold emax, prec; lia).
      reflexivity.
Qed.

(** The scale factor of a positive target [t]: the double nearest to
    [t / 2048], which stands for [round53 t / 2048], as long as [t] is
    below [2 ^ 1035 - 2 ^ 981]; the division overflows from there on. *)
Lemma b64_scale_nearest (t : Z) :
  0 < t ->
  scaleTarget_of (F := float) (Some t) =
    (if t <? 2 ^ 1035 - 2 ^ 981
     then Ok (nearest_double t (-11)) else Raise OverflowError) /\
  (t < 2 ^ 1035 - 2 ^ 981 ->
   float_value (nearest_double t (-11)) = (IZR (round53 t) / 2048)%R).
Proof.
  intros Ht. rewrite scaleTarget_b64.
  rewrite (b64_divZ_2048_mantissa t Ht), (nearest_double_mantissa t Ht).
  pose proof (double_of_mantissa_range t Ht) as Hr. cbv zeta in Hr.
  destruct (Z.ltb_spec t (2 ^ 1035 - 2 ^ 981)) as [Hlt|Hge].
  - destruct Hr as [Hv [Hfin Hval]]. split.
    + rewrite Hfin. reflexivity.
    + intros _. unfold float_value.
      rewrite (Prim2SF_SF2Prim _ Hv), Hval. apply round53_mantissa. exact Ht.
  - rewrite Hr. split; [reflexivity | lia].
Qed.

(** *** No double is nearer *)

Lemma round_div_pow2_nearest (t d k : Z) :
  0 <= t -> 0 <= d ->
  Z.abs (round_div_pow2 t d * 2 ^ d - t) <= Z.abs (k * 2 ^ d - t).
Proof.
  intros Ht Hd. unfold round_div_pow2.
  assert (Hp : 0 < 2 ^ d) by (apply Z.pow_pos_nonneg; lia).
  pose proof (Z.div_mod t (2 ^ d) ltac:(lia)) as Hdm.
  pose proof (Z.mod_pos_bound t (2 ^ d) Hp) as Hr.
  set (q := t / 2 ^ d) in *. set (r := t mod 2 ^ d) in *.
  set (h := 2 ^ d) in *. clearbody q r h.
  destruct (Z.le_gt_cases k q) as [Hk|Hk].
  - assert (Hkq : 0 <= h * (q - k)) by nia.
    destruct (Z.ltb_spec (2 * r) h); [nia|].
    destruct (Z.ltb_spec h (2 * r)); [nia|].
    destruct (Z.even q); nia.
  - assert (Hkq : h <= h * (k - q)) by nia.
    destruct (Z.ltb_spec (2 * r) h); [nia|].
    destruct (Z.ltb_spec h (2 * r)); [nia|].
    destruct (Z.even q); nia.
Qed.

Lemma round53_nearest_multiple (t k : Z) :
  0 < t -> 52 < Z.log2 t ->
  Z.abs (round53 t - t) <= Z.abs (k * 2 ^ (Z.log2 t - 52) - t).
Proof.
  intros Ht HL. unfold round53.
  replace (Z.log2 t <=? 52) with false by (symmetry; apply Z.leb_gt; lia).
  apply round_div_pow2_nearest; lia.
Qed.

Lemma valid_binary_mantissa (s : bool) (m : positive) (e : Z) :
  valid_binary (S754_finite s m e) = true -> Z.pos m < 2 ^ 53.
Proof.
  unfold SpecFloat.valid_binary, SpecFloat.bounded, SpecFloat.canonical_mantissa.
  intros Hv. apply andb_prop in Hv. destruct Hv as [Hc _].
  apply Z.eqb_eq in Hc. unfold fexp, prec in Hc.
  apply Z.log2_lt_pow2; [lia|].
  pose proof (Zdigits2_log2 m). lia.
Qed.

Lemma powerRZ_le_mono (a b : Z) : a <= b -> (powerRZ 2 a <= powerRZ 2 b)%R.
Proof.
  intros Hab. replace b with (a + (b - a)) by lia.
  rewrite powerRZ_add by lra.
  assert (Ha : (0 < powerRZ 2 a)%R) by (apply powerRZ_lt; lra).
  rewrite <- (IZR_pow2 (b - a)) by lia.
  assert (Hb : (1 <= IZR (2 ^ (b - a)))%R).
  { apply IZR_le. assert (0 < 2 ^ (b - a)) by (apply Z.pow_pos_nonneg; lia). lia. }
  nra.
Qed.

(** No double stands for a number nearer to [t / 2048] than [round53 t /
    2048]; [float_value] is 0 on the infinities and on NaN. *)
Lemma round53_nearest (t : Z) (y : float) :
  0 < t ->
  (Rabs (IZR (round53 t) / 2048 - IZR t / 2048)
   <= Rabs (float_value y - IZR t / 2048))%R.
Proof.
  intros Ht.
  assert (Htr : (0 < IZR t)%R) by (apply IZR_lt; exact Ht).
  assert (Habs : forall n : Z,
             Rabs (IZR n / 2048 - IZR t / 2048)%R = (IZR (Z.abs (n - t)) / 2048)%R).
  { intros n. rewrite abs_IZR, minus_IZR.
    replace (IZR n / 2048 - IZR t / 2048)%R with ((IZR n - IZR t) / 2048)%R by field.
    unfold Rdiv. rewrite Rabs_mult, (Rabs_pos_eq (/ 2048)) by lra. reflexivity. }
  assert (Hle0 : forall v : R, (v <= 0)%R ->
             (Rabs (IZR (round53 t) / 2048 - IZR t / 2048)
              <= Rabs (v - IZR t / 2048))%R).
  { intros v Hv. rewrite Habs.
    pose proof (round53_error t Ht) as He.
    assert (He' : Z.abs (round53 t - t) <= t) by lia.
    apply IZR_le in He'.
    rewrite (Rabs_left (v - IZR t / 2048)) by lra. lra. }
  unfold float_value. pose proof (Prim2SF_valid y) as Hv.
  destruct (Prim2SF y) as [s|s| |s m e]; cbn [SF2R]; try (apply Hle0; lra).
  pose proof (valid_binary_mantissa s m e Hv) as Hm.
  assert (Hpe : (0 < powerRZ 2 e)%R) by (apply powerRZ_lt; lra).
  assert (Hmr : (0 < IZR (Z.pos m))%R) by (apply IZR_lt; lia).
  destruct s.
  { apply Hle0. nra. }
  rewrite Rmult_1_l.
  pose proof (Z.log2_nonneg t) as Hl.
  destruct (Z.le_gt_cases (Z.log2 t) 52) as [HL|HL].
  { unfold round53. replace (Z.log2 t <=? 52) with true by (symmetry; apply Z.leb_le; lia).
    replace (IZR t / 2048 - IZR t / 2048)%R with 0%R by field.
    rewrite Rabs_R0. apply Rabs_pos. }
  set (d := Z.log2 t - 52).
  assert (Hd : 0 < d) by (unfold d; lia).
  destruct (Z.le_gt_cases d (e + 11)) as [Hde|Hde].
  - (* a multiple of [2 ^ d] *)
    pose proof (round53_nearest_multiple t (Z.pos m * 2 ^ (e + 11 - d)) Ht HL) as Hn.
    fold d in Hn. apply IZR_le in Hn.
    replace (IZR (Z.pos m) * powerRZ 2 e)%R
      with (IZR (Z.pos m * 2 ^ (e + 11 - d) * 2 ^ d) / 2048)%R.
    + rewrite !Habs. lra.
    + rewrite <- Z.mul_assoc, <- Z.pow_add_r by lia.
      replace (e + 11 - d + d) with (e + 11) by lia.
      rewrite mult_IZR, IZR_pow2, powerRZ_add by (lia || lra).
      change (powerRZ 2 11) with (2 ^ 11)%R. field.
  - (* below [2 ^ (52 + d)] *)
    pose proof (round53_nearest_multiple t (2 ^ 52) Ht HL) as Hn.
    fold d in Hn.
    pose proof (Z.log2_spec t Ht) as [Hlo _].
    replace (Z.log2 t) with (52 + d) in Hlo by (unfold d; lia).
    rewrite Z.pow_add_r in Hlo by lia.
    rewrite (Z.abs_neq (2 ^ 52 * 2 ^ d - t)) in Hn by lia. rewrite Habs.
    assert (Hn' : Z.abs (round53 t - t) <= t - 2 ^ 52 * 2 ^ d) by lia.
    apply IZR_le in Hn'. rewrite minus_IZR, mult_IZR, (IZR_pow2 d) in Hn' by lia.
    assert (Hnn : (0 <= IZR (Z.abs (round53 t - t)))%R) by (apply IZR_le; lia).
    assert (Hpw : (powerRZ 2 e <= powerRZ 2 (d - 12))%R)
      by (apply powerRZ_le_mono; lia).
    assert (Hd12 : (powerRZ 2 (d - 12) = powerRZ 2 d / 4096)%R).
    { unfold Z.sub. rewrite powerRZ_add by lra.
      change (powerRZ 2 (- (12))) with (/ 2 ^ 12)%R. field. }
    assert (Hpd : (0 < powerRZ 2 d)%R) by (apply powerRZ_lt; lra).
    assert (Hm53 : (IZR (Z.pos m) <= IZR (2 ^ 53))%R) by (apply IZR_le; lia).
    replace (IZR (2 ^ 53)) with (2 * IZR (2 ^ 52))%R in Hm53
      by (rewrite <- mult_IZR; reflexivity).
    set (M := IZR (Z.pos m)) in *. set (P := powerRZ 2 e) in *.
    set (Q := powerRZ 2 d) in *. set (C := IZR (2 ^ 52)) in *.
    assert (HC : (0 < C)%R) by (apply IZR_lt; reflexivity).
    assert (HMP : (M * P <= C * Q / 2048)%R).
    { rewrite Hd12 in Hpw.
      assert ((M * P <= 2 * C * (Q / 4096))%R) by (apply Rmult_le_compat; lra).
      lra. }
    rewrite Rabs_left1 by lra. lra.
Qed.

(** C2, as the code has it. For every positive target [t] below
    [2 ^ 1035 - 2 ^ 981] the scale factor is the double nearest to
    [t / 2048 = t * 2 ^ -11], ties to even: it stands for [t] rounded to
    53 significant bits, divided by 2048; no double is nearer to
    [t / 2048], from which it is away by at most [2 ^ -53], relatively; and
    it is [t / 2048] itself exactly for the targets of at most 53
    significant bits, so for every target below [2 ^ 53]. From
    [2 ^ 1035 - 2 ^ 981] on the division raises [OverflowError]. In
    particular the scale factor of 1024 is 0.5. *)
Theorem scaleTarget_quotient (t : Z) :
  0 < t ->
  scaleTarget_of (F := float) (Some t) =
    (if t <? 2 ^ 1035 - 2 ^ 981
     then Ok (nearest_double t (-11)) else Raise OverflowError) /\
  (t < 2 ^ 1035 - 2 ^ 981 ->
   float_value (nearest_double t (-11)) =
     (IZR (round53 t) / IZR defaultTextureRes)%R /\
   (forall y : float,
       (Rabs (float_value (nearest_double t (-11)) - IZR t / IZR defaultTextureRes)
        <= Rabs (float_value y - IZR t / IZR defaultTextureRes))%R) /\
   (Rabs (float_value (nearest_double t (-11)) - IZR t / IZR defaultTextureRes)
    <= IZR t / IZR defaultTextureRes / 2 ^ 53)%R /\
   (float_value (nearest_double t (-11)) = (IZR t / IZR defaultTextureRes)%R <->
    exists a j, 0 <= j /\ 0 < a < 2 ^ 53 /\ t = a * 2 ^ j)) /\
  scaleTarget_of (F := float) (Some 1024) = Ok 0.5%float.
Proof.
  intros Ht. destruct (b64_scale_nearest t Ht) as [Hs Hv].
  split; [exact Hs|]. split; [|reflexivity].
  intros Hlt. specialize (Hv Hlt). unfold defaultTextureRes. rewrite Hv.
  split; [reflexivity|]. split; [|split].
  - intros y. apply round53_nearest. exact Ht.
  - pose proof (round53_error t Ht) as He.
    apply IZR_le in He. rewrite mult_IZR, abs_IZR, minus_IZR in He.
    replace (IZR (2 ^ 53)) with (2 ^ 53)%R in He by (rewrite pow_IZR; reflexivity).
    replace (IZR (round53 t) / 2048 - IZR t / 2048)%R
      with ((IZR (round53 t) - IZR t) / 2048)%R by field.
    unfold Rdiv at 1. rewrite Rabs_mult, (Rabs_pos_eq (/ 2048)) by lra.
    set (a := Rabs (IZR (round53 t) - IZR t)) in *. lra.
  - rewrite <- (round53_exact t Ht). split.
    + intros E. apply eq_IZR. lra.
    + intros ->. reflexivity.
Qed.

Lemma scaleTarget_quotient_1024 :
  (0 < 1024 /\ 1024 < 2 ^ 1035 - 2 ^ 981) /\
  scaleTarget_of (F := float) (Some 1024) =
    (if 1024 <? 2 ^ 1035 - 2 ^ 981
     then Ok (nearest_double 1024 (-11)) else Raise OverflowError) /\
  (float_value (nearest_double 1024 (-11)) =
     (IZR (round53 1024) / IZR defaultTextureRes)%R /\
   (forall y : float,
       (Rabs (float_value (nearest_double 1024 (-11)) - IZR 1024 / IZR defaultTextureRes)
        <= Rabs (float_value y - IZR 1024 / IZR defaultTextureRes))%R) /\
   (Rabs (float_value (nearest_double 1024 (-11)) - IZR 1024 / IZR defaultTextureRes)
    <= IZR 1024 / IZR defaultTextureRes / 2 ^ 53)%R /\
   (float_value (nearest_double 1024 (-11)) = (IZR 1024 / IZR defaultTextureRes)%R <->
    exists a j, 0 <= j /\ 0 < a < 2 ^ 53 /\ 1024 = a * 2 ^ j)) /\
  scaleTarget_of (F := float) (Some 1024) = Ok 0.5%float.
Proof.
  assert (H0 : 0 < 1024) by reflexivity.
  assert (H1 : 1024 < 2 ^ 1035 - 2 ^ 981) by (vm_compute; reflexivity).
  destruct (scaleTarget_quotient 1024 H0) as [Hs [Hv Hhalf]].
  split; [split; [exact H0 | exact H1]|].
  split; [exact Hs|]. split; [exact (Hv H1) | exact Hhalf].
Defined.

(** C2 does not hold as stated: for the positive target [2 ^ 1035] no scale
    factor is computed, the division raises [OverflowError]; so it does
    for every target from [2 ^ 1035 - 2 ^ 981] on, and the target just
    below has the largest double as its scale factor. *)
Lemma scaleTarget_large_targets :
  (0 < 2 ^ 1035 /\
   scaleTarget_of (F := float) (Some (2 ^ 1035)) = Raise OverflowError /\
   forall x : float, scaleTarget_of (Some (2 ^ 1035)) <> Ok x) /\
  (0 < 2 ^ 1035 - 2 ^ 981 /\
   scaleTarget_of (F := float) (Some (2 ^ 1035 - 2 ^ 981)) = Raise OverflowError) /\
  scaleTarget_of (F := float) (Some (2 ^ 1035 - 2 ^ 981 - 1)) =
    Ok 0x1.fffffffffffffp+1023%float.
Proof.
  assert (H : scaleTarget_of (F := float) (Some (2 ^ 1035)) = Raise OverflowError)
    by (vm_compute; reflexivity).
  split; [split; [lia | split; [exact H | intros x; rewrite H; discriminate]]|].
  split; [split; [lia | vm_compute; reflexivity] | vm_compute; reflexivity].
Qed.

(** The targets [2 ^ 60] and [2 ^ 53 + 2] have their exact quotients as
    scale factors; the target [2 ^ 53 + 1], of 54 significant bits, has the
    scale factor of [2 ^ 53]. *)
Lemma scaleTarget_54_bits :
  scaleTarget_of (F := float) (Some (2 ^ 60)) = Ok 0x1p+49%float /\
  scaleTarget_of (F := float) (Some (2 ^ 53 + 2)) = Ok 0x1.0000000000001p+42%float /\
  scaleTarget_of (F := float) (Some (2 ^ 53 + 1)) = Ok 0x1p+42%float /\
  round53 (2 ^ 53 + 1) = 2 ^ 53.
Proof. repeat split; vm_compute; reflexivity. Qed.

(** C8, as the code has it. For every positive target [t] for which the
    scale factor of [2 * t] is computed, it is twice the scale factor of
    [t]; and the scale factor of the reference resolution 2048 is 1.0. *)
Theorem scaleTarget_linear (t : Z) (y : float) :
  0 < t ->
  scaleTarget_of (Some (2 * t)) = Ok y ->
  (exists x, scaleTarget_of (Some t) = Ok x /\ y = (2 * x)%float) /\
  scaleTarget_of (F := float) (Some defaultTextureRes) = Ok 1%float.
Proof.
  intros Ht Hy. split; [|reflexivity]. exact (b64_scale_double t y Ht Hy).
Qed.

Lemma scaleTarget_linear_1024 :
  (exists x, scaleTarget_of (Some 1024) = Ok x /\ 1%float = (2 * x)%float) /\
  scaleTarget_of (F := float) (Some defaultTextureRes) = Ok 1%float.
Proof.
  apply (scaleTarget_linear 1024 1%float); [lia | reflexivity].
Defined.

(** The scale factor of [2 * t] is computed for every positive [t] below
    2^1033. *)
Lemma scaleTarget_double_defined (t : Z) :
  0 < t < 2 ^ 1033 -> exists y, scaleTarget_of (F := float) (Some (2 * t)) = Ok y.
Proof.
  intros [Ht Hlt]. apply b64_scale_defined.
  change (2 ^ 1034) with (2 * 2 ^ 1033). lia.
Qed.


(** Below -2^1034 the division itself fails, with the interpreter's
    [OverflowError]. *)
Lemma scaleTarget_negative_overflow :
  scaleTarget_of (F := float) (Some (- 2 ^ 1035)) = Raise OverflowError.
Proof. vm_compute. reflexivity. Qed.

(** C8 does not hold as stated: the scale factor of 2^1034 is the double
    2^1023, and the scale factor of twice that target is not computed, the
    division raises [OverflowError]. *)
Lemma scaleTarget_overflow :
  0 < 2 ^ 1034 /\
  scaleTarget_of (F := float) (Some (2 ^ 1034)) = Ok 0x1p1023%float /\
  scaleTarget_of (F := float) (Some (2 * 2 ^ 1034)) = Raise OverflowError /\
  (forall x : float,
      scaleTarget_of (F := float) (Some (2 * 2 ^ 1034)) <> Ok (2 * x)%float).
Proof.
  split; [lia|]. split; [vm_compute; reflexivity|].
  assert (Hr : scaleTarget_of (F := float) (Some (2 * 2 ^ 1034))
               = Raise OverflowError) by (vm_compute; reflexivity).
  split; [exact Hr|]. intros x. rewrite Hr. discriminate.
Qed.

(** ** The scale factor in exact arithmetic *)

(** In exact arithmetic the scale of any target is its quotient by 2048,
    and the scale is linear. *)
Lemma scaleTarget_exact (t : Z) :
  scaleTarget_of (F := R) (Some t) = Ok (IZR t / 2048)%R.
Proof. reflexivity. Qed.

Lemma scaleTarget_exact_linear (t : Z) :
  scaleTarget_of (F := R) (Some (2 * t)) = Ok (2 * (IZR t / 2048))%R.
Proof. rewrite scaleTarget_exact, mult_IZR. f_equal. lra. Qed.

(** Rounding in exact arithmetic, on the value of the scenario. *)
Lemma exact_round_scenario :
  round (F := R) (2048 * (1 / 10) * (1 / 1))%R = Ok 205.
Proof.
  unfold round. simpl. f_equal. unfold R_round_half_even.
  assert (Hup : up (2048 * (1 / 10) * (1 / 1)) = 205).
  { symmetry. apply tech_up; lra. }
  rewrite Hup.
  replace (205 - 1) with 204 by lia.
  destruct (Rlt_dec (2048 * (1 / 10) * (1 / 1) - 204) (1 / 2)) as [Hlt|_]; [lra|].
  destruct (Rlt_dec (1 / 2) (2048 * (1 / 10) * (1 / 1) - 204)) as [_|Hge]; [|lra].
  reflexivity.
Qed.

(** ** The measurement in exact arithmetic *)

Section ExactMeasure.

Local Open Scope R_scope.

Lemma exact_math_pow2 (x : R) : math_pow2 x = Ok (x * x).
Proof. reflexivity. Qed.

Lemma exact_math_sqrt (x : R) : 0 <= x -> math_sqrt x = Ok (sqrt x).
Proof.
  intros Hx. unfold math_sqrt. simpl. unfold R_is_neg.
  destruct (Rlt_dec x 0) as [Hneg|_]; [lra | reflexivity].
Qed.

Lemma exact_truediv (x y : R) : y <> 0 -> truediv x y = Ok (x / y).
Proof.
  intros Hy. unfold truediv. simpl. unfold R_is_zero.
  destruct (Req_dec_T y 0) as [Hz|_]; [contradiction | reflexivity].
Qed.

Lemma sum_squares_nonneg (a b : R) : 0 <= a * a + b * b.
Proof. nra. Qed.

(** A world length, when there is one, is not negative. *)
Lemma exact_worldLen_nonneg (sc : Scene R) (obj : string) (i : nat) (l : R) :
  worldLen sc obj i = Ok l -> 0 <= l.
Proof.
  unfold worldLen, getDistance3D. intros Hl.
  apply rbind_ok in Hl as [v0 [_ Hl]]. apply rbind_ok in Hl as [v1 [_ Hl]].
  rewrite !exact_math_pow2 in Hl. simpl in Hl.
  unfold math_sqrt in Hl. simpl in Hl.
  destruct (R_is_neg _); [discriminate|].
  injection Hl as <-. apply sqrt_pos.
Qed.

(** The UV length of an edge with two UVs exists and is not negative. *)
Lemma exact_uvLen (sc : Scene R) (obj : string) (i : nat) :
  interior sc obj i = true ->
  exists u, uvLen sc obj i = Ok u /\ 0 <= u.
Proof.
  unfold interior, uvLen, getDistance2D. intros Hint.
  destruct (toUV sc (edge_name obj i)) as [|uv0 [|uv1 [|uv2 uvs]]];
    try discriminate Hint.
  simpl. rewrite exact_math_sqrt by apply sum_squares_nonneg.
  eexists. split; [reflexivity | apply sqrt_pos].
Qed.

(** The density of an interior edge of world length other than zero. *)
Lemma exact_edgeDensity (sc : Scene R) (obj : string) (i : nat) (l : R) :
  interior sc obj i = true ->
  worldLen sc obj i = Ok l -> l <> 0 ->
  exists d, edgeDensity sc obj i = Ok d /\ 0 <= d.
Proof.
  intros Hint Hl Hnz. unfold edgeDensity. rewrite Hl. simpl.
  rewrite (exact_truediv _ _ Hnz). simpl.
  destruct (exact_uvLen sc obj i Hint) as [u [-> Hu]]. simpl.
  eexists. split; [reflexivity|].
  pose proof (exact_worldLen_nonneg sc obj i l Hl) as Hl0.
  assert (Hpos : 0 < 1 / l) by (apply Rdiv_lt_0_compat; lra).
  unfold defaultTextureRes. nra.
Qed.

Lemma exact_densities (sc : Scene R) (obj : string) (l : list nat) :
  (forall i, In i l ->
             interior sc obj i = true /\
             exists wl, worldLen sc obj i = Ok wl /\ wl <> 0) ->
  exists ds, mapM (edgeDensity sc obj) l = Ok ds /\
             List.length ds = List.length l /\
             Forall (fun d => 0 <= d) ds.
Proof.
  induction l as [|i l IH]; intros Hl.
  - exists []. repeat split. constructor.
  - destruct (Hl i (or_introl eq_refl)) as [Hint [wl [Hwl Hnz]]].
    destruct (exact_edgeDensity sc obj i wl Hint Hwl Hnz) as [d [Hd Hd0]].
    destruct IH as [ds [Hds [Hlen Hall]]].
    { intros j Hj. apply Hl. right. exact Hj. }
    exists (d :: ds). cbn [mapM]. rewrite Hd, Hds. simpl.
    repeat split; [f_equal; exact Hlen | constructor; assumption].
Qed.

Lemma exact_sum_nonneg (ds : list R) (s : R) :
  Forall (fun d => 0 <= d) ds -> 0 <= s -> 0 <= fold_left Rplus ds s.
Proof.
  revert s. induction ds as [|d ds IH]; intros s Hall Hs.
  - exact Hs.
  - inversion Hall as [|? ? Hd Hds]; subst. simpl. apply IH; [exact Hds | lra].
Qed.

Lemma exact_round_nonneg (x : R) : 0 <= x -> (0 <= R_round_half_even x)%Z.
Proof.
  intros Hx. unfold R_round_half_even.
  assert (Hup : (1 <= up x)%Z).
  { destruct (archimed x) as [Hgt _].
    assert (H0 : 0 < IZR (up x)) by lra.
    apply lt_0_IZR in H0. lia. }
  destruct (Rlt_dec _ _); [lia|].
  destruct (Rlt_dec _ _); [lia|].
  destruct (Z.even _); lia.
Qed.

(** With the helpers in scope, a mesh that has an interior edge and no edge
    of world length zero is measured, and its density is not negative. *)
Lemma exact_measure_nonneg (sc : Scene R) (obj : string) :
  interior_edges sc obj <> [] ->
  (forall i, (i < polyEvaluate_edge sc obj)%nat ->
             exists l, worldLen sc obj i = Ok l /\ l <> 0) ->
  exists n, texelDensity_of with_helpers sc obj = Ok n /\ (0 <= n)%Z.
Proof.
  intros Hsome Hlen.
  rewrite texelDensity_of_measure_spec.
  - destruct (exact_densities sc obj (interior_edges sc obj)) as [ds [Hds [Hn Hall]]].
    { intros i Hi. unfold interior_edges in Hi. apply filter_In in Hi as [Hi Hint].
      apply in_seq in Hi. split; [exact Hint | apply Hlen; lia]. }
    unfold measure_spec. rewrite Hds. simpl.
    unfold truediv_int. simpl.
    destruct (Z.of_nat (List.length ds) =? 0)%Z eqn:Hz.
    + apply Z.eqb_eq in Hz. rewrite Hn in Hz.
      destruct (interior_edges sc obj); [contradiction | simpl in Hz; lia].
    + simpl. unfold round. simpl. eexists. split; [reflexivity|].
      apply exact_round_nonneg.
      apply Z.eqb_neq in Hz.
      assert (Hpos : 0 < IZR (Z.of_nat (List.length ds))).
      { apply IZR_lt. lia. }
      apply Rmult_le_pos.
      * apply exact_sum_nonneg; [exact Hall | lra].
      * left. apply Rinv_0_lt_compat. exact Hpos.
  - intros i Hi _. destruct (Hlen i Hi) as [l [Hl Hnz]].
    exists l. split; [exact Hl|]. simpl. unfold R_is_zero.
    destruct (Req_dec_T l 0); [contradiction | reflexivity].
Qed.

End ExactMeasure.

(** ** The scenes, evaluated on doubles *)

(** The scenario of the specification with the helpers in scope: one
    interior edge, 0.1 long in UV space and 1.0 long in the world, so
    [round(204.8)]; the two seam edges are skipped. *)
Lemma triangle_measures_205 :
  interior_edges triangle "pPlane1" = [0%nat] /\
  uvLen triangle "pPlane1" 0 = Ok tenth /\
  worldLen triangle "pPlane1" 0 = Ok 1%float /\
  edgeDensity triangle "pPlane1" 0 = Ok (2048 * tenth)%float /\
  edge_loop with_helpers triangle "pPlane1" = Ok (1, (2048 * tenth)%float) /\
  getTexelDensity with_helpers (fresh triangle) =
    (setText_set "" (setText_current "205" (fresh triangle)), Ok tt).
Proof. vm_compute. repeat split. Qed.

(** With nothing selected, [cmds.ls(sl=True)[0]] raises [IndexError]. *)
Lemma getTexelDensity_nothing_selected :
  getTexelDensity with_helpers (fresh nothing_selected) =
    (fresh nothing_selected, Raise IndexError) /\
  getTexelDensity module_globals (fresh nothing_selected) =
    (fresh nothing_selected, Raise IndexError).
Proof. vm_compute. split; reflexivity. Qed.

(** C1, at the scenario of the specification and at a mesh with a seam
    edge of zero world length.  The triangle has one interior edge, of UV
    length 0.1 and world length 1.0, and the rounded average over its
    interior edges is 205; in the global scope of the module the code
    raises [NameError] and displays nothing.  [collapsed_seam] has the same
    interior edge and the same average; with the helpers in scope the code
    raises [ZeroDivisionError], at the reciprocal of the world length of
    the seam edge 1. *)
Theorem measure_scenario_raises :
  (interior_edges triangle "pPlane1" = [0%nat] /\
   uvLen triangle "pPlane1" 0 = Ok tenth /\
   worldLen triangle "pPlane1" 0 = Ok 1%float /\
   measure_spec triangle "pPlane1" = Ok 205 /\
   texelDensity_of module_globals triangle "pPlane1" = Raise NameError /\
   getTexelDensity module_globals (fresh triangle)
     = (fresh triangle, Raise NameError)) /\
  (interior_edges collapsed_seam "pPlane1" = [0%nat] /\
   uvLen collapsed_seam "pPlane1" 0 = Ok tenth /\
   worldLen collapsed_seam "pPlane1" 0 = Ok 1%float /\
   measure_spec collapsed_seam "pPlane1" = Ok 205 /\
   texelDensity_of with_helpers collapsed_seam "pPlane1"
     = Raise ZeroDivisionError).
Proof. vm_compute. repeat split. Qed.

(** C4, at the mesh with a seam edge of zero world length.
    [collapsed_seam] has an interior edge, every interior edge of it has a
    world length other than zero, and its edge 1 is a seam edge (four UVs)
    of world length zero: [getTexelDensity] raises and displays nothing,
    [ZeroDivisionError] with the helpers in scope, [NameError] in the
    global scope of the module. *)
Theorem getTexelDensity_collapsed_seam :
  interior_edges collapsed_seam "pPlane1" = [0%nat] /\
  worldLen collapsed_seam "pPlane1" 0 = Ok 1%float /\
  List.length (toUV collapsed_seam (edge_name "pPlane1" 1)) = 4%nat /\
  worldLen collapsed_seam "pPlane1" 1 = Ok 0%float /\
  getTexelDensity with_helpers (fresh collapsed_seam) =
    (fresh collapsed_seam, Raise ZeroDivisionError) /\
  getTexelDensity module_globals (fresh collapsed_seam) =
    (fresh collapsed_seam, Raise NameError).
Proof. vm_compute. repeat split. Qed.

(** C6, at the two inputs where it fails.  An edge is classified only
    after the reciprocal of its world length has been computed (lines
    148-149 come before the test of line 154).  As the file is written that
    computation raises [NameError] for every edge of every mesh, so no edge
    is ever skipped or counted.  With the helpers in scope, the edge 1 of
    [collapsed_seam], a seam edge (four UVs) of world length zero, is not
    skipped: whatever the sum and the counter are, its turn of the loop
    raises [ZeroDivisionError] instead of leaving them as they are, and the
    loop, which had counted the edge 0 and added its density, is
    abandoned.  Only an edge whose reciprocal is computed is classified as
    the claim says. *)
Theorem seam_edge_not_skipped :
  (forall (F : Type) (A : PyFloat F) (sc : Scene F) (obj : string)
          (acc : Z * F) (i : nat),
      edge_body module_globals sc obj acc i = Raise NameError) /\
  (List.length (toUV collapsed_seam (edge_name "pPlane1" 1)) = 4%nat /\
   worldLen collapsed_seam "pPlane1" 1 = Ok 0%float /\
   forall acc : Z * float,
     edge_body with_helpers collapsed_seam "pPlane1" acc 1
       = Raise ZeroDivisionError /\
     edge_body with_helpers collapsed_seam "pPlane1" acc 1 <> Ok acc) /\
  (edge_body with_helpers collapsed_seam "pPlane1" (0, 0%float) 0
     = Ok (1, (2048 * tenth)%float) /\
   edge_loop with_helpers collapsed_seam "pPlane1" = Raise ZeroDivisionError) /\
  (forall (F : Type) (A : PyFloat F) (G : Globals) (sc : Scene F)
          (obj : string) (n : Z) (s : F) (i : nat) (r : F),
      edgeLenToUnitRatio G sc obj i = Ok r ->
      edge_body G sc obj (n, s) i =
      if Nat.eqb (List.length (toUV sc (edge_name obj i))) 2
      then rbind (call_global (binds_getDistance2D G) (getDistance2D sc)
                    (toUV sc (edge_name obj i)))
             (fun uvEdgeLen =>
                Ok (n + 1, fadd s (fmul (fmul (of_Z defaultTextureRes) uvEdgeLen) r)))
      else Ok (n, s)).
Proof.
  split; [|split; [|split]].
  - intros F A sc obj [n s] i. reflexivity.
  - split; [reflexivity|]. split; [vm_compute; reflexivity|].
    intros [n s].
    assert (Hr : edge_body with_helpers collapsed_seam "pPlane1" (n, s) 1
                 = Raise ZeroDivisionError).
    { rewrite edge_body_unfold.
      assert (Hi : interior collapsed_seam "pPlane1" 1 = false) by reflexivity.
      assert (He : edgeLenToUnitRatio with_helpers collapsed_seam "pPlane1" 1
                   = Raise ZeroDivisionError) by (vm_compute; reflexivity).
      rewrite Hi, He. reflexivity. }
    split; [exact Hr | rewrite Hr; discriminate].
  - split; vm_compute; reflexivity.
  - intros F A G sc obj n s i r Hr. unfold edge_body. rewrite Hr. reflexivity.
Qed.

(** C3 does not hold as stated.  On [no_edges] the loop does not run, the
    code divides by the zero counter, and what is raised is
    [ZeroDivisionError], not [DegenerateMeshError].  On [all_seam], two
    seam edges, it is [NameError] in the global scope of the module, and
    with the helpers in scope again the [ZeroDivisionError] of the division
    by the counter. *)
Lemma no_interior_edge_raises_builtin :
  (interior_edges no_edges "pPlane1" = [] /\
   edge_loop module_globals no_edges "pPlane1" = Ok (0, 0%float) /\
   truediv_int 0%float 0 = Raise ZeroDivisionError /\
   getTexelDensity module_globals (fresh no_edges)
     = (fresh no_edges, Raise ZeroDivisionError) /\
   snd (getTexelDensity module_globals (fresh no_edges))
     <> Raise DegenerateMeshError) /\
  (interior_edges all_seam "pPlane1" = [] /\
   getTexelDensity module_globals (fresh all_seam)
     = (fresh all_seam, Raise NameError) /\
   edge_loop with_helpers all_seam "pPlane1" = Ok (0, 0%float) /\
   getTexelDensity with_helpers (fresh all_seam)
     = (fresh all_seam, Raise ZeroDivisionError) /\
   snd (getTexelDensity with_helpers (fresh all_seam))
     <> Raise DegenerateMeshError).
Proof.
  vm_compute. repeat split; discriminate.
Qed.

Lemma measure_without_interior_edge_no_edges :
  exists e,
    getTexelDensity module_globals (fresh no_edges) = (fresh no_edges, Raise e) /\
    is_builtin e = true /\
    (e = ZeroDivisionError \/
     exists i, (i < polyEvaluate_edge (scene (fresh no_edges)) "pPlane1")%nat /\
               edgeLenToUnitRatio module_globals (scene (fresh no_edges))
                 "pPlane1" i = Raise e).
Proof.
  apply (measure_without_interior_edge module_globals (fresh no_edges)
           "pPlane1" []); vm_compute; reflexivity.
Defined.



(** C7 does not hold as stated: with nothing selected and the target 1024,
    [set_texel_density] raises nothing, and the display of the current
    density, empty before, reads 1024 afterwards; no unfold is called. *)
Lemma nothing_selected_completes :
  let w := typed "1024" (fresh nothing_selected) in
  let r := set_texel_density scaling_unfold w in
  ls_sl_flatten (scene w) = [] /\
  snd r = Ok tt /\ snd r <> Raise NoSelectionError /\
  unfold_calls (fst r) = [] /\
  currentTexelDensity_textField (dialog w) = "" /\
  currentTexelDensity_textField (dialog (fst r)) = "1024".
Proof.
  vm_compute. repeat split; discriminate.
Qed.

Lemma set_texel_density_empty_selection_1024 :
  set_texel_density scaling_unfold (typed "1024" (fresh nothing_selected)) =
  (setText_current (str 1024) (typed "1024" (fresh nothing_selected)), Ok tt).
Proof.
  apply (set_texel_density_empty_selection scaling_unfold
           (typed "1024" (fresh nothing_selected)) 1024 0.5%float);
    reflexivity.
Defined.

(** C9 does not hold as stated: the target typed once, 1024, is still
    stored after [set_texel_density] has completed, and a second
    [set_texel_density], with no target supplied in between, calls unfold
    with its scale again; with the helpers in scope it is still stored
    after [getTexelDensity] has emptied the target field, and a third
    [set_texel_density] uses it once more. *)
Lemma target_survives_requests :
  let w1 := typed "1024" (fresh triangle) in
  let r2 := set_texel_density scaling_unfold w1 in
  let r3 := set_texel_density scaling_unfold (fst r2) in
  let r4 := getTexelDensity with_helpers (fst r3) in
  let r5 := set_texel_density scaling_unfold (fst r4) in
  snd r2 = Ok tt /\
  targetTexelDensity (dialog (fst r2)) = Some 1024 /\
  targetTexelDensity (dialog (fst r2)) <> None /\
  snd r3 = Ok tt /\
  unfold_calls (fst r3) = [("pPlane1", 0.5%float); ("pPlane1", 0.5%float)] /\
  snd r4 = Ok tt /\
  setTexelDensity_textField (dialog (fst r4)) = "" /\
  targetTexelDensity (dialog (fst r4)) = Some 1024 /\
  snd r5 = Ok tt /\
  unfold_calls (fst r5) =
    [("pPlane1", 0.5%float); ("pPlane1", 0.5%float); ("pPlane1", 0.5%float)].
Proof.
  vm_compute. repeat split; discriminate.
Qed.

Lemma set_texel_density_reports_1024 :
  let w := typed "1024" (fresh triangle) in
  let w' := fst (set_texel_density scaling_unfold w) in
  (exists t, targetTexelDensity (dialog w) = Some t /\
             currentTexelDensity_textField (dialog w') = str t /\
             dialog w' = dialog (setText_current (str t) w)) /\
  currentTexelDensity_textField (dialog w') = "1024" /\
  texelDensity_of with_helpers (scene w') "pPlane1" = Ok 102.
Proof.
  split; [|vm_compute; split; reflexivity].
  apply (set_texel_density_reports_target scaling_unfold
           (typed "1024" (fresh triangle))
           (fst (set_texel_density scaling_unfold (typed "1024" (fresh triangle))))).
  vm_compute. reflexivity.
Defined.

(** When the host's unfold reports a failure, [set_texel_density] raises
    after the first call and the display is not updated. *)
Lemma failing_unfold_keeps_display :
  let w := typed "1024" (fresh triangle) in
  let r := set_texel_density failing_unfold w in
  snd r = Raise RuntimeError /\
  unfold_calls (fst r) = [("pPlane1", 0.5%float)] /\
  dialog (fst r) = dialog w.
Proof. vm_compute. repeat split. Qed.

(** * Further properties of the handlers *)

(** ** Reading the target field *)

Lemma is_digit_not_space (c : ascii) : is_digit c = true -> is_space c = false.
Proof.
  destruct c as [[] [] [] [] [] [] [] []]; intros Hd; try discriminate Hd; reflexivity.
Qed.

Lemma int_of_str_cases (s : string) :
  int_of_str s =
  match rstrip (lstrip s) with
  | EmptyString => Raise ValueError
  | String a ds =>
      if Ascii.eqb a "-" then rbind (digits_to_Z ds) (fun n => Ok (- n))
      else if Ascii.eqb a "+" then digits_to_Z ds
      else digits_to_Z (String a ds)
  end.
Proof.
  unfold int_of_str. destruct (rstrip (lstrip s)) as [|a ds]; [reflexivity|].
  destruct a as [[] [] [] [] [] [] [] []]; reflexivity.
Qed.

Lemma lstrip_head (c : ascii) (s : string) :
  is_space c = false -> lstrip (String c s) = String c s.
Proof. intros Hc. simpl. rewrite Hc. reflexivity. Qed.

Lemma rstrip_no_space (s : string) :
  all_chars (fun c => negb (is_space c)) s = true -> rstrip s = s.
Proof.
  induction s as [|c s IH]; [reflexivity|].
  simpl. intros Hs. apply andb_prop in Hs as [Hc Hs].
  rewrite (IH Hs). apply negb_true_iff in Hc. rewrite Hc.
  destruct s; reflexivity.
Qed.

Lemma all_chars_impl (p q : ascii -> bool) (s : string) :
  (forall c, p c = true -> q c = true) ->
  all_chars p s = true -> all_chars q s = true.
Proof.
  intros Hpq. induction s as [|c s IH]; [reflexivity|].
  simpl. intros Hs. apply andb_prop in Hs as [Hc Hs].
  rewrite (Hpq c Hc), (IH Hs). reflexivity.
Qed.

Lemma digits_of_digits (b : bool) (s : string) :
  all_chars is_digit s = true -> (s <> EmptyString \/ b = true) ->
  digits_of b s = Some s.
Proof.
  revert b. induction s as [|c s IH]; intros b Hs Hb.
  - destruct Hb as [Hb|Hb]; [congruence | subst b; reflexivity].
  - simpl in *. apply andb_prop in Hs as [Hc Hs]. rewrite Hc.
    rewrite (IH true Hs) by (right; reflexivity). reflexivity.
Qed.

Lemma string_of_uint_digits (d : Decimal.uint) :
  all_chars is_digit (NilEmpty.string_of_uint d) = true.
Proof. induction d; simpl; auto. Qed.

Lemma string_of_uint_nonempty (d : Decimal.uint) :
  d <> Decimal.Nil -> NilEmpty.string_of_uint d <> EmptyString.
Proof. destruct d; simpl; congruence. Qed.

(** The digits of a positive number are read back as that number. *)
Lemma digits_to_Z_to_uint (p : positive) :
  digits_to_Z (NilEmpty.string_of_uint (Pos.to_uint p)) = Ok (Z.pos p).
Proof.
  unfold digits_to_Z.
  rewrite digits_of_digits.
  - rewrite NilEmpty.usu. unfold Z.of_uint.
    rewrite DecimalPos.Unsigned.of_to. reflexivity.
  - apply string_of_uint_digits.
  - left. apply string_of_uint_nonempty. apply DecimalPos.Unsigned.to_uint_nonnil.
Qed.

Lemma int_of_str_str (n : Z) : int_of_str (str n) = Ok n.
Proof.
  destruct n as [|p|p].
  - reflexivity.
  - unfold str. cbn [Z.to_int NilZero.string_of_int].
    pose proof (DecimalPos.Unsigned.to_uint_nonnil p) as Hnn.
    pose proof (string_of_uint_digits (Pos.to_uint p)) as Hd.
    pose proof (string_of_uint_nonempty _ Hnn) as Hne.
    pose proof (digits_to_Z_to_uint p) as Hz.
    unfold NilZero.string_of_uint.
    destruct (Pos.to_uint p) eqn:Hu; try congruence;
      cbn [NilEmpty.string_of_uint] in *;
      (rewrite int_of_str_cases, lstrip_head by reflexivity;
       rewrite rstrip_no_space
         by (apply (all_chars_impl is_digit); [|exact Hd];
             intros c Hc; rewrite (is_digit_not_space c Hc); reflexivity);
       exact Hz).
  - unfold str. cbn [Z.to_int NilZero.string_of_int].
    pose proof (DecimalPos.Unsigned.to_uint_nonnil p) as Hnn.
    pose proof (string_of_uint_digits (Pos.to_uint p)) as Hd.
    pose proof (digits_to_Z_to_uint p) as Hz.
    assert (Hs : NilZero.string_of_uint (Pos.to_uint p) =
                 NilEmpty.string_of_uint (Pos.to_uint p))
      by (revert Hnn; destruct (Pos.to_uint p); intros Hnn;
          [congruence | reflexivity ..]).
    rewrite Hs, int_of_str_cases, lstrip_head by reflexivity.
    rewrite rstrip_no_space.
    + cbn [Ascii.eqb Bool.eqb]. rewrite Hz. reflexivity.
    + simpl. apply (all_chars_impl is_digit); [|exact Hd].
      intros c Hc; rewrite (is_digit_not_space c Hc); reflexivity.
Qed.

Lemma has_char_lstrip (p : ascii -> bool) (s : string) :
  (forall c, p c = true -> is_space c = false) ->
  has_char p s = true -> has_char p (lstrip s) = true.
Proof.
  intros Hp. induction s as [|c s IH]; [discriminate|].
  simpl. destruct (is_space c) eqn:Hc.
  - destruct (p c) eqn:Hpc; [rewrite (Hp c Hpc) in Hc; discriminate|].
    simpl. exact IH.
  - simpl. trivial.
Qed.

Lemma has_char_rstrip (p : ascii -> bool) (s : string) :
  (forall c, p c = true -> is_space c = false) ->
  has_char p s = true -> has_char p (rstrip s) = true.
Proof.
  intros Hp. induction s as [|c s IH]; [discriminate|].
  simpl. destruct (p c) eqn:Hpc.
  - intros _. rewrite (Hp c Hpc).
    destruct (rstrip s); simpl; rewrite Hpc; reflexivity.
  - simpl. intros Hs. specialize (IH Hs).
    destruct (rstrip s); [discriminate IH|].
    simpl in *. rewrite Hpc. exact IH.
Qed.

Lemma digits_of_has_char (b : bool) (s : string) :
  has_char (fun c => negb (is_digit c) && negb (Ascii.eqb c "_"))%bool s = true ->
  digits_of b s = None.
Proof.
  revert b. induction s as [|c s IH]; intros b; [discriminate|].
  simpl. destruct (is_digit c); simpl.
  - intros Hs. rewrite (IH true Hs). reflexivity.
  - destruct (Ascii.eqb c "_"); simpl; [|reflexivity].
    intros Hs. destruct b; [apply (IH false Hs) | reflexivity].
Qed.

Lemma has_char_impl (p q : ascii -> bool) (s : string) :
  (forall c, p c = true -> q c = true) ->
  has_char p s = true -> has_char q s = true.
Proof.
  intros Hpq. induction s as [|c s IH]; [discriminate|].
  simpl. intros Hs. apply orb_prop in Hs as [Hc|Hs].
  - rewrite (Hpq c Hc). reflexivity.
  - rewrite (IH Hs). apply orb_true_r.
Qed.

Lemma digits_to_Z_has_char (p : ascii -> bool) (s : string) :
  (forall c, p c = true -> in_int_alphabet c = false) ->
  has_char p s = true -> digits_to_Z s = Raise ValueError.
Proof.
  intros Hp Hs. unfold digits_to_Z. rewrite digits_of_has_char; [reflexivity|].
  apply (has_char_impl p); [|exact Hs].
  intros c Hc. specialize (Hp c Hc). unfold in_int_alphabet in Hp.
  repeat (apply orb_false_elim in Hp as [Hp ?]).
  rewrite Hp. simpl. apply negb_true_iff. assumption.
Qed.

(** A text with a character outside the alphabet of literals is no
    literal. *)
Lemma int_of_str_has_char (p : ascii -> bool) (s : string) :
  (forall c, p c = true -> in_int_alphabet c = false) ->
  has_char p s = true -> int_of_str s = Raise ValueError.
Proof.
  intros Hp Hs.
  assert (Hsp : forall c, p c = true -> is_space c = false).
  { intros c Hc. specialize (Hp c Hc). unfold in_int_alphabet in Hp.
    repeat (apply orb_false_elim in Hp as [Hp ?]). assumption. }
  apply (has_char_lstrip p _ Hsp), (has_char_rstrip p _ Hsp) in Hs.
  rewrite int_of_str_cases.
  destruct (rstrip (lstrip s)) as [|a ds]; [reflexivity|].
  destruct (Ascii.eqb a "-") eqn:Hm; [|destruct (Ascii.eqb a "+") eqn:Hpl].
  - simpl in Hs. destruct (p a) eqn:Hpa.
    + specialize (Hp a Hpa). unfold in_int_alphabet in Hp.
      rewrite Hm in Hp. rewrite !orb_true_r in Hp. discriminate.
    + rewrite (digits_to_Z_has_char p ds Hp Hs). reflexivity.
  - simpl in Hs. destruct (p a) eqn:Hpa.
    + specialize (Hp a Hpa). unfold in_int_alphabet in Hp.
      rewrite Hpl in Hp. rewrite !orb_true_r in Hp. discriminate.
    + exact (digits_to_Z_has_char p ds Hp Hs).
  - exact (digits_to_Z_has_char p _ Hp Hs).
Qed.

Lemma lstrip_blank (s : string) :
  all_chars is_space s = true -> lstrip s = EmptyString.
Proof.
  induction s as [|c s IH]; [reflexivity|].
  simpl. intros Hs. apply andb_prop in Hs as [Hc Hs]. rewrite Hc. exact (IH Hs).
Qed.

Lemma int_of_str_blank (s : string) :
  all_chars is_space s = true -> int_of_str s = Raise ValueError.
Proof.
  intros Hs. rewrite int_of_str_cases, (lstrip_blank s Hs). reflexivity.
Qed.

Lemma digits_to_Z_raises (s : string) (e : exn) :
  digits_to_Z s = Raise e -> e = ValueError.
Proof.
  unfold digits_to_Z. destruct (digits_of false s) as [ds|].
  - destruct (NilEmpty.uint_of_string ds); congruence.
  - congruence.
Qed.

(** [int] raises nothing but [ValueError] on a string. *)
Lemma int_of_str_raises (s : string) (e : exn) :
  int_of_str s = Raise e -> e = ValueError.
Proof.
  rewrite int_of_str_cases.
  destruct (rstrip (lstrip s)) as [|a ds]; [congruence|].
  destruct (Ascii.eqb a "-"); [|destruct (Ascii.eqb a "+")].
  - destruct (digits_to_Z ds) eqn:Hd; simpl; [discriminate|].
    intros [= <-]. exact (digits_to_Z_raises _ _ Hd).
  - apply digits_to_Z_raises.
  - apply digits_to_Z_raises.
Qed.

Lemma lstrip_app_blank (pre s : string) :
  all_chars is_space pre = true -> lstrip (pre ++ s) = lstrip s.
Proof.
  induction pre as [|c pre IH]; [reflexivity|].
  simpl. intros Hs. apply andb_prop in Hs as [Hc Hs]. rewrite Hc. exact (IH Hs).
Qed.

Lemma rstrip_blank (s : string) :
  all_chars is_space s = true -> rstrip s = EmptyString.
Proof.
  induction s as [|c s IH]; [reflexivity|].
  simpl. intros Hs. apply andb_prop in Hs as [Hc Hs].
  rewrite (IH Hs), Hc. reflexivity.
Qed.

Lemma rstrip_app_blank (s post : string) :
  all_chars is_space post = true -> rstrip (s ++ post) = rstrip s.
Proof.
  intros Hp. induction s as [|c s IH].
  - simpl. apply rstrip_blank. exact Hp.
  - simpl. rewrite IH. reflexivity.
Qed.

Lemma strip_app_blank (s post : string) :
  all_chars is_space post = true ->
  rstrip (lstrip (s ++ post)) = rstrip (lstrip s).
Proof.
  intros Hp. induction s as [|c s IH].
  - simpl. rewrite (lstrip_blank post Hp). reflexivity.
  - simpl. destruct (is_space c); [exact IH|].
    apply (rstrip_app_blank (String c s) post Hp).
Qed.

Lemma int_of_str_strip (pre s post : string) :
  all_chars is_space pre = true -> all_chars is_space post = true ->
  int_of_str (pre ++ s ++ post) = int_of_str s.
Proof.
  intros Hpre Hpost. unfold int_of_str.
  rewrite (lstrip_app_blank pre _ Hpre), (strip_app_blank s post Hpost).
  reflexivity.
Qed.

Section Entering.

Context {F : Type}.

Lemma saveTexelDensity_run (w : World F) :
  saveTexelDensity w =
  match int_of_str (setTexelDensity_textField (dialog w)) with
  | Ok t => (set_target (Some t) w, Ok tt)
  | Raise e => (w, Raise e)
  end.
Proof.
  unfold saveTexelDensity, mbind, gets, lift, modify.
  destruct (int_of_str (setTexelDensity_textField (dialog w))); reflexivity.
Qed.

(** X1. The decimal text of an integer of at most 4300 digits (the bound
    recent interpreters put on the conversions between [int] and [str]),
    which is what both handlers write in the display of the current
    density, is read back by [saveTexelDensity] as that integer: it
    becomes the stored target. *)
Theorem saveTexelDensity_reads_back (w : World F) (n : Z) :
  Z.abs n < 10 ^ 4300 ->
  setTexelDensity_textField (dialog w) = str n ->
  saveTexelDensity w = (set_target (Some n) w, Ok tt).
Proof.
  intros _ Htext. rewrite saveTexelDensity_run, Htext, int_of_str_str.
  reflexivity.
Qed.

(** X2. [saveTexelDensity] raises nothing but [ValueError], and when it
    raises, the dialog, the scene and the record of the unfold calls are
    exactly as they were: the target stored before stays. *)
Theorem saveTexelDensity_failure (w w' : World F) (e : exn) :
  saveTexelDensity w = (w', Raise e) -> e = ValueError /\ w' = w.
Proof.
  rewrite saveTexelDensity_run.
  destruct (int_of_str (setTexelDensity_textField (dialog w))) as [t|e'] eqn:Hint.
  - discriminate.
  - intros [= <- <-]. split; [exact (int_of_str_raises _ _ Hint) | reflexivity].
Qed.

(** X3. A target field that is empty or blank, or that holds an ASCII
    character other than a digit, white space, a sign or an underscore (a
    decimal point, a letter), is rejected: [saveTexelDensity] raises
    [ValueError] and changes nothing. *)
Theorem saveTexelDensity_rejects (w : World F) :
  all_chars is_space (setTexelDensity_textField (dialog w)) = true \/
  has_char (fun c => is_ascii c && negb (in_int_alphabet c))%bool
           (setTexelDensity_textField (dialog w)) = true ->
  saveTexelDensity w = (w, Raise ValueError).
Proof.
  intros Htext. rewrite saveTexelDensity_run.
  destruct Htext as [Hblank|Hbad].
  - rewrite (int_of_str_blank _ Hblank). reflexivity.
  - rewrite (int_of_str_has_char _ _ (fun c Hc =>
               proj1 (negb_true_iff _) (proj2 (andb_prop _ _ Hc))) Hbad).
    reflexivity.
Qed.

(** X4. White space around the text of the target field is ignored:
    [saveTexelDensity] raises or stores the same integer with and without
    it. *)
Theorem saveTexelDensity_ignores_blanks (w : World F) (pre s post : string) :
  all_chars is_space pre = true ->
  all_chars is_space post = true ->
  snd (saveTexelDensity (setText_set (pre ++ s ++ post) w)) =
    snd (saveTexelDensity (setText_set s w)) /\
  targetTexelDensity (dialog (fst (saveTexelDensity (setText_set (pre ++ s ++ post) w)))) =
    targetTexelDensity (dialog (fst (saveTexelDensity (setText_set s w)))).
Proof.
  intros Hpre Hpost. rewrite !saveTexelDensity_run. simpl.
  rewrite (int_of_str_strip pre s post Hpre Hpost).
  destruct (int_of_str s); split; reflexivity.
Qed.

End Entering.

(** ** The handlers as a whole *)

Section Handlers.

Context {F : Type} `{PyFloat F}.
Variable host_unfold : string -> F -> Scene F -> result (Scene F).
Variable G : Globals.

Lemma getTexelDensity_run (w : World F) :
  getTexelDensity G w =
  match ls_sl (scene w) with
  | [] => (w, Raise IndexError)
  | obj :: _ =>
      match texelDensity_of G (scene w) obj with
      | Ok n => (setText_set "" (setText_current (str n) w), Ok tt)
      | Raise e => (w, Raise e)
      end
  end.
Proof.
  unfold getTexelDensity, mbind, gets, lift, modify.
  destruct (ls_sl (scene w)) as [|obj rest]; [reflexivity|]. simpl.
  destruct (texelDensity_of G (scene w) obj); reflexivity.
Qed.

(** X5. Measuring twice in a row gives the same outcome: the second run of
    [getTexelDensity] raises the same exception or displays the same
    value, and leaves the dialog and the scene as the first run left
    them.  A failed run changes nothing at all. *)
Theorem getTexelDensity_twice (w w' : World F) (r : result unit) :
  getTexelDensity G w = (w', r) ->
  getTexelDensity G w' = (w', r) /\
  scene w' = scene w /\ unfold_calls w' = unfold_calls w /\
  (forall e, r = Raise e -> w' = w).
Proof.
  rewrite getTexelDensity_run.
  destruct (ls_sl (scene w)) as [|obj rest] eqn:Hsel.
  - intros [= <- <-]. rewrite getTexelDensity_run, Hsel. repeat split.
  - destruct (texelDensity_of G (scene w) obj) as [n|e] eqn:Hn.
    + intros [= <- <-]. rewrite getTexelDensity_run. simpl.
      rewrite Hsel, Hn. repeat split. intros e [=].
    + intros [= <- <-]. rewrite getTexelDensity_run, Hsel, Hn. repeat split.
Qed.

(** X6. Only the first selected object is measured: whatever else is
    selected with it, [getTexelDensity] raises the same exception or
    displays the same value. *)
Theorem getTexelDensity_first_selected (w : World F) (obj : string)
  (rest : list string) :
  let w1 := in_scene (with_selection (obj :: rest) (scene w)) w in
  let w2 := in_scene (with_selection [obj] (scene w)) w in
  snd (getTexelDensity G w1) = snd (getTexelDensity G w2) /\
  dialog (fst (getTexelDensity G w1)) = dialog (fst (getTexelDensity G w2)).
Proof.
  intros w1 w2. subst w1 w2. rewrite !getTexelDensity_run. simpl.
  change (texelDensity_of G (with_selection (obj :: rest) (scene w)) obj)
    with (texelDensity_of G (with_selection [obj] (scene w)) obj).
  destruct (texelDensity_of G (with_selection [obj] (scene w)) obj);
    split; reflexivity.
Qed.

(** *** The unfold loop, run by run *)

Lemma for_each_unfold_run (s : F) (sel : list string) (w w' : World F) :
  for_each (fun obj => cmds_unfold host_unfold obj s) sel w = (w', Ok tt) ->
  for_fold (fun sc o => host_unfold o s sc) sel (scene w) = Ok (scene w') /\
  unfold_calls w' = (unfold_calls w ++ map (fun o => (o, s)) sel)%list /\
  dialog w' = dialog w.
Proof.
  revert w. induction sel as [|obj sel IH]; intros w.
  - intros [= <-]. simpl. rewrite app_nil_r. repeat split.
  - cbn [for_each]. unfold mbind at 1. unfold cmds_unfold at 1.
    destruct (host_unfold obj s (scene w)) as [sc|e] eqn:Hcall; [|discriminate].
    intros Hrun. apply IH in Hrun as [Hsc [Hcalls Hd]]. simpl in *.
    rewrite Hcall. simpl. rewrite Hcalls, <- app_assoc. repeat split; assumption.
Qed.

Lemma for_each_unfold_raises (s : F) (sel : list string) (w w' : World F)
  (e : exn) :
  for_each (fun obj => cmds_unfold host_unfold obj s) sel w = (w', Raise e) ->
  dialog w' = dialog w /\
  exists pre obj post,
    sel = (pre ++ obj :: post)%list /\
    for_fold (fun sc o => host_unfold o s sc) pre (scene w) = Ok (scene w') /\
    host_unfold obj s (scene w') = Raise e /\
    unfold_calls w' = (unfold_calls w ++ map (fun o => (o, s)) (pre ++ [obj]))%list.
Proof.
  revert w. induction sel as [|obj sel IH]; intros w.
  - discriminate.
  - cbn [for_each]. unfold mbind at 1. unfold cmds_unfold at 1.
    destruct (host_unfold obj s (scene w)) as [sc|e'] eqn:Hcall.
    + intros Hrun. apply IH in Hrun as [Hd [pre [o [post [Hsel [Hsc [Hfail Hcalls]]]]]]].
      simpl in *. split; [exact Hd|].
      exists (obj :: pre), o, post. repeat split.
      * rewrite Hsel. reflexivity.
      * simpl. rewrite Hcall. exact Hsc.
      * exact Hfail.
      * rewrite Hcalls, <- app_assoc. reflexivity.
    + intros [= <- <-]. simpl. split; [reflexivity|].
      exists [], obj, sel. repeat split. exact Hcall.
Qed.

(** [set_texel_density], step by step: the scale, the unfold loop, the
    display. *)
Lemma set_texel_density_run (w : World F) :
  set_texel_density host_unfold w =
  match scaleTarget_of (targetTexelDensity (dialog w)) with
  | Raise e => (w, Raise e)
  | Ok s =>
      match for_each (fun obj => cmds_unfold host_unfold obj s)
                     (ls_sl_flatten (scene w)) w with
      | (w1, Ok _) =>
          (setText_current (str_target (targetTexelDensity (dialog w))) w1, Ok tt)
      | (w1, Raise e) => (w1, Raise e)
      end
  end.
Proof.
  unfold set_texel_density, mbind, gets, lift, modify.
  destruct (scaleTarget_of (targetTexelDensity (dialog w))) as [s|e];
    [|reflexivity].
  pose proof (for_each_unfold_dialog host_unfold s (ls_sl_flatten (scene w)) w)
    as Hd.
  destruct (for_each (fun obj => cmds_unfold host_unfold obj s)
              (ls_sl_flatten (scene w)) w) as [w1 [[]|e]]; [|reflexivity].
  simpl in Hd. rewrite Hd. reflexivity.
Qed.

(** X7. When [set_texel_density] raises, the display is not updated and the
    dialog is as it was.  Either the scale could not be computed (no
    target stored: [TypeError]; quotient out of range: [OverflowError]) and
    nothing at all has changed, or the host's unfold raised on a selected
    object: the objects before it have been rescaled and stay so, the
    objects after it have not been touched. *)
Theorem set_texel_density_failure (w w' : World F) (e : exn) :
  set_texel_density host_unfold w = (w', Raise e) ->
  dialog w' = dialog w /\
  ((scaleTarget_of (F := F) (targetTexelDensity (dialog w)) = Raise e /\ w' = w) \/
   exists s pre obj post,
     scaleTarget_of (targetTexelDensity (dialog w)) = Ok s /\
     ls_sl_flatten (scene w) = (pre ++ obj :: post)%list /\
     for_fold (fun sc o => host_unfold o s sc) pre (scene w) = Ok (scene w') /\
     host_unfold obj s (scene w') = Raise e /\
     unfold_calls w' =
       (unfold_calls w ++ map (fun o => (o, s)) (pre ++ [obj]))%list).
Proof.
  rewrite set_texel_density_run.
  destruct (scaleTarget_of (targetTexelDensity (dialog w))) as [s|e'] eqn:Hs.
  - destruct (for_each (fun obj => cmds_unfold host_unfold obj s)
                (ls_sl_flatten (scene w)) w) as [w1 [[]|e1]] eqn:Hrun.
    + discriminate.
    + intros [= <- <-].
      apply for_each_unfold_raises in Hrun
        as [Hd [pre [obj [post [Hsel [Hsc [Hfail Hcalls]]]]]]].
      split; [exact Hd|]. right. exists s, pre, obj, post. repeat split; assumption.
  - intros [= <- <-]. split; [reflexivity|]. left. split; reflexivity.
Qed.

(** X8. When [set_texel_density] raises nothing, the host's unfold has been
    called exactly once for each object of the selection as it was when
    the button was pressed, in the order of the selection, every time with
    the scale of the stored target, each call working on the scene the call
    before it left. *)
Theorem set_texel_density_success (w w' : World F) :
  set_texel_density host_unfold w = (w', Ok tt) ->
  exists t s,
    targetTexelDensity (dialog w) = Some t /\
    scaleTarget_of (Some t) = Ok s /\
    for_fold (fun sc o => host_unfold o s sc) (ls_sl_flatten (scene w)) (scene w)
      = Ok (scene w') /\
    unfold_calls w' =
      (unfold_calls w ++ map (fun o => (o, s)) (ls_sl_flatten (scene w)))%list.
Proof.
  rewrite set_texel_density_run.
  destruct (targetTexelDensity (dialog w)) as [t|] eqn:Ht; [|discriminate].
  destruct (scaleTarget_of (Some t)) as [s|e'] eqn:Hs; [|discriminate].
  destruct (for_each (fun obj => cmds_unfold host_unfold obj s)
              (ls_sl_flatten (scene w)) w) as [w1 [[]|e1]] eqn:Hrun;
    [|discriminate].
  intros [= <-]. apply for_each_unfold_run in Hrun as [Hsc [Hcalls Hd]].
  exists t, s. repeat split; assumption.
Qed.

(** X9. As the file is written, [getTexelDensity] never displays a value.
    With a host that answers every query it always raises and changes
    nothing: [IndexError] when nothing is selected, [ZeroDivisionError]
    when the first selected object has no edge, and [NameError], at the
    call of [getDistance3D] for the first edge, in every other case. *)
Theorem getTexelDensity_module_scope (w : World F) :
  exists e,
    getTexelDensity module_globals w = (w, Raise e) /\
    e = match ls_sl (scene w) with
        | [] => IndexError
        | obj :: _ => if Nat.eqb (polyEvaluate_edge (scene w) obj) 0
                      then ZeroDivisionError else NameError
        end.
Proof.
  unfold getTexelDensity, mbind, gets, lift, modify.
  destruct (ls_sl (scene w)) as [|obj rest]; simpl.
  - exists IndexError. split; reflexivity.
  - destruct (polyEvaluate_edge (scene w) obj) as [|k] eqn:Hk.
    + unfold texelDensity_of, edge_loop. rewrite Hk. simpl.
      exists ZeroDivisionError. split; reflexivity.
    + rewrite texelDensity_of_module_globals by lia.
      exists NameError. split; reflexivity.
Qed.

End Handlers.

(** ** Sessions *)

Section Sessions.

Context {F : Type} `{PyFloat F}.
Variable host_unfold : string -> F -> Scene F -> result (Scene F).
Variable G : Globals.

(** What one slot does to the stored target and to the record of the
    unfold calls. *)
Lemma slot_target (a : action) (w : World F) :
  targetTexelDensity (dialog (fst (slot host_unfold G a w))) =
  match a with
  | Edit text => match int_of_str text with
                 | Ok n => Some n
                 | Raise _ => targetTexelDensity (dialog w)
                 end
  | _ => targetTexelDensity (dialog w)
  end.
Proof.
  destruct a as [text| |]; cbn [slot].
  - unfold mbind at 1. unfold modify at 1. rewrite saveTexelDensity_run.
    simpl. destruct (int_of_str text); reflexivity.
  - rewrite getTexelDensity_run.
    destruct (ls_sl (scene w)) as [|obj rest]; [reflexivity|].
    destruct (texelDensity_of G (scene w) obj); reflexivity.
  - rewrite set_texel_density_run.
    destruct (scaleTarget_of (targetTexelDensity (dialog w))) as [s|e];
      [|reflexivity].
    pose proof (for_each_unfold_dialog host_unfold s (ls_sl_flatten (scene w)) w)
      as Hd.
    destruct (for_each (fun obj => cmds_unfold host_unfold obj s)
                (ls_sl_flatten (scene w)) w) as [w1 [[]|e1]];
      simpl in *; rewrite Hd; reflexivity.
Qed.

Lemma slot_unfold_calls (a : action) (w : World F) (call : string * F) :
  In call (unfold_calls (fst (slot host_unfold G a w))) ->
  In call (unfold_calls w) \/
  (a = ClickSet /\
   scaleTarget_of (targetTexelDensity (dialog w)) = Ok (snd call)).
Proof.
  destruct a as [text| |]; cbn [slot].
  - unfold mbind at 1. unfold modify at 1. rewrite saveTexelDensity_run.
    simpl. destruct (int_of_str text); simpl; intros Hin; left; exact Hin.
  - rewrite getTexelDensity_run.
    destruct (ls_sl (scene w)) as [|obj rest]; [left; assumption|].
    destruct (texelDensity_of G (scene w) obj); simpl; left; assumption.
  - rewrite set_texel_density_run.
    destruct (scaleTarget_of (targetTexelDensity (dialog w))) as [s|e];
      [|left; assumption].
    destruct (for_each (fun obj => cmds_unfold host_unfold obj s)
                (ls_sl_flatten (scene w)) w) as [w1 [[]|e1]] eqn:Hloop; simpl.
    + apply for_each_unfold_run in Hloop as [_ [Hcalls _]].
      rewrite Hcalls. intros Hin. apply in_app_or in Hin as [Hin|Hin].
      * left. exact Hin.
      * right. apply in_map_iff in Hin as [o [<- _]]. split; reflexivity.
    + apply for_each_unfold_raises in Hloop
        as [_ [pre [obj [post [_ [_ [_ Hcalls]]]]]]].
      rewrite Hcalls. intros Hin. apply in_app_or in Hin as [Hin|Hin].
      * left. exact Hin.
      * right. apply in_map_iff in Hin as [o [<- _]]. split; reflexivity.
Qed.

Lemma session_last_entered (acts : list action) (w : World F) :
  targetTexelDensity (dialog (session host_unfold G acts w)) =
  last_entered acts (targetTexelDensity (dialog w)).
Proof.
  revert w. induction acts as [|a acts IH]; intros w; [reflexivity|].
  unfold session, last_entered in *. cbn [fold_left].
  rewrite IH, slot_target. destruct a; reflexivity.
Qed.

(** X10. Through a whole session in which the texts entered are ASCII
    texts of at most 4300 characters, the stored target is the last
    integer that was entered successfully in the target field: a text that
    is rejected, a measurement, which empties the field, and a rescale
    leave it as it is. *)
Theorem session_target (acts : list action) (w : World F) :
  forallb plain_action acts = true ->
  targetTexelDensity (dialog (session host_unfold G acts w)) =
  last_entered acts (targetTexelDensity (dialog w)).
Proof.
  intros _. apply session_last_entered.
Qed.

Lemma session_app (acts1 acts2 : list action) (w : World F) :
  session host_unfold G (acts1 ++ acts2) w =
  session host_unfold G acts2 (session host_unfold G acts1 w).
Proof. unfold session. apply fold_left_app. Qed.

Lemma last_entered_app (acts1 acts2 : list action) (t0 : option Z) :
  last_entered (acts1 ++ acts2) t0 = last_entered acts2 (last_entered acts1 t0).
Proof. unfold last_entered. apply fold_left_app. Qed.

(** The last integer entered was entered by one of the actions. *)
Lemma last_entered_some (acts : list action) (t0 : option Z) (t : Z) :
  last_entered acts t0 = Some t ->
  t0 = Some t \/ exists text, In (Edit text) acts /\ int_of_str text = Ok t.
Proof.
  induction acts as [|a acts IH] using rev_ind; [left; assumption|].
  rewrite last_entered_app. cbn [last_entered fold_left]. intros Ht.
  assert (Hold : last_entered acts t0 = Some t ->
                 t0 = Some t \/
                 exists text, In (Edit text) (acts ++ [a]) /\ int_of_str text = Ok t).
  { intros Hl. destruct (IH Hl) as [H0 | [text [Hin Hok]]]; [left; exact H0|].
    right. exists text. split; [apply in_or_app; left; exact Hin | exact Hok]. }
  destruct a as [text| |]; [|exact (Hold Ht) ..].
  destruct (int_of_str text) as [n|e] eqn:Hint; [|exact (Hold Ht)].
  injection Ht as <-. right. exists text.
  split; [apply in_or_app; right; left; reflexivity | exact Hint].
Qed.

(** Where an unfold call of a session comes from: a press of the second
    button, with the target that the actions before it had left. *)
Lemma session_call_origin (acts : list action) (w : World F) (call : string * F) :
  In call (unfold_calls (session host_unfold G acts w)) ->
  In call (unfold_calls w) \/
  exists pre post t,
    acts = (pre ++ ClickSet :: post)%list /\
    last_entered pre (targetTexelDensity (dialog w)) = Some t /\
    scaleTarget_of (Some t) = Ok (snd call).
Proof.
  induction acts as [|a acts IH] using rev_ind; [left; assumption|].
  rewrite session_app. unfold session at 1. cbn [fold_left]. intros Hin.
  apply slot_unfold_calls in Hin as [Hin | [-> Hs]].
  - destruct (IH Hin) as [H0 | [pre [post [t [Hacts [Hlast Hs]]]]]];
      [left; exact H0|].
    right. exists pre, (post ++ [a])%list, t. repeat split; [|assumption ..].
    rewrite Hacts, <- app_assoc. reflexivity.
  - right. rewrite session_last_entered in Hs.
    destruct (last_entered acts (targetTexelDensity (dialog w))) as [t|] eqn:Hl;
      [|discriminate Hs].
    exists acts, [], t. repeat split; assumption.
Qed.

(** X11. In a session that starts on the dialog as [__init__] builds it,
    and in which the texts entered are ASCII texts of at most 4300
    characters, every unfold call was made by a press of the second
    button, and carries the scale of the last integer that had been
    entered in the target field before that press: nothing is rescaled
    before a target has been entered, and never by a scale the user has not
    asked for. *)
Theorem session_unfold_calls (acts : list action) (sc : Scene F)
  (obj : string) (s : F) :
  forallb plain_action acts = true ->
  In (obj, s)
     (unfold_calls (session host_unfold G acts
        {| dialog := init_dialog; scene := sc; unfold_calls := [] |})) ->
  exists pre post text t,
    acts = (pre ++ ClickSet :: post)%list /\
    In (Edit text) pre /\ int_of_str text = Ok t /\
    last_entered pre None = Some t /\
    scaleTarget_of (Some t) = Ok s.
Proof.
  intros _ Hin.
  apply session_call_origin in Hin as [Hin | [pre [post [t [Hacts [Hlast Hs]]]]]];
    [contradiction|].
  destruct (last_entered_some pre None t Hlast) as [H0 | [text [Htext Hok]]];
    [discriminate H0|].
  exists pre, post, text, t. repeat split; assumption.
Qed.

End Sessions.

(** *** What the display can show *)

Section Display.

Context {F : Type} `{PyFloat F}.
Variable host_unfold : string -> F -> Scene F -> result (Scene F).
Variable G : Globals.




End Display.

(** ** Signs on doubles *)

Lemma binary_round_aux_nonneg (m e : Z) (l : location) :
  SFnonneg (binary_round_aux prec emax false m e l) = true.
Proof.
  unfold binary_round_aux.
  destruct (shr_fexp prec emax m e l) as [mrs' e'].
  destruct (shr_fexp prec emax _ e' loc_Exact) as [mrs'' e''].
  destruct (shr_m mrs''); [reflexivity | | reflexivity].
  destruct (e'' <=? emax - prec); reflexivity.
Qed.

Lemma binary_round_nonneg (m : positive) (e : Z) :
  SFnonneg (binary_round prec emax false m e) = true.
Proof.
  unfold binary_round.
  destruct (shl_align m e _) as [mz ez]. apply binary_round_aux_nonneg.
Qed.

Lemma binary_normalize_nonneg (m e : Z) :
  0 <= m -> SFnonneg (binary_normalize prec emax m e false) = true.
Proof.
  intros Hm. destruct m as [|p|p]; [reflexivity | | lia].
  apply binary_round_nonneg.
Qed.

Lemma SFmul_same (x : spec_float) : SFnonneg (SFmul prec emax x x) = true.
Proof.
  destruct x as [[]|[]| |[] m e]; try reflexivity;
    apply binary_round_aux_nonneg.
Qed.

Lemma SFmul_nonneg (x y : spec_float) :
  SFnonneg x = true -> SFnonneg y = true -> SFnonneg (SFmul prec emax x y) = true.
Proof.
  destruct x as [[]|[]| |[] mx ex]; destruct y as [[]|[]| |[] my ey];
    try discriminate; try reflexivity.
  intros _ _. apply binary_round_aux_nonneg.
Qed.

Lemma SFadd_nonneg (x y : spec_float) :
  SFnonneg x = true -> SFnonneg y = true -> SFnonneg (SFadd prec emax x y) = true.
Proof.
  destruct x as [[]|[]| |[] mx ex]; destruct y as [[]|[]| |[] my ey];
    try discriminate; try reflexivity.
  intros _ _. unfold SFadd. apply binary_normalize_nonneg.
  unfold cond_Zopp. lia.
Qed.

Lemma SFdiv_nonneg (x y : spec_float) :
  SFnonneg x = true -> SFnonneg y = true -> SFnonneg (SFdiv prec emax x y) = true.
Proof.
  destruct x as [[]|[]| |[] mx ex]; destruct y as [[]|[]| |[] my ey];
    try discriminate; try reflexivity.
  intros _ _. unfold SFdiv.
  destruct (SFdiv_core_binary prec emax (Z.pos mx) ex (Z.pos my) ey) as [[mz ez] lz].
  apply binary_round_aux_nonneg.
Qed.

Lemma SFsqrt_nonneg (x : spec_float) :
  SFnonneg x = true -> SFnonneg (SFsqrt prec emax x) = true.
Proof.
  destruct x as [[]|[]| |[] mx ex]; try discriminate; try reflexivity.
  intros _. unfold SFsqrt.
  destruct (SFsqrt_core_binary prec emax (Z.pos mx) ex) as [[mz ez] lz].
  apply binary_round_aux_nonneg.
Qed.

Lemma b64_mul_same_nonneg (x : float) : nonneg (x * x)%float = true.
Proof. unfold nonneg. rewrite mul_spec. apply SFmul_same. Qed.

Lemma b64_mul_nonneg (x y : float) :
  nonneg x = true -> nonneg y = true -> nonneg (x * y)%float = true.
Proof. unfold nonneg. rewrite mul_spec. apply SFmul_nonneg. Qed.

Lemma b64_add_nonneg (x y : float) :
  nonneg x = true -> nonneg y = true -> nonneg (x + y)%float = true.
Proof. unfold nonneg. rewrite add_spec. apply SFadd_nonneg. Qed.

Lemma b64_div_nonneg (x y : float) :
  nonneg x = true -> nonneg y = true -> nonneg (x / y)%float = true.
Proof. unfold nonneg. rewrite div_spec. apply SFdiv_nonneg. Qed.

Lemma b64_sqrt_nonneg (x : float) :
  nonneg x = true -> nonneg (PrimFloat.sqrt x) = true.
Proof. unfold nonneg. rewrite sqrt_spec. apply SFsqrt_nonneg. Qed.

(** A float whose sign bit is clear is not less than zero. *)
Lemma nonneg_not_neg (x : float) : nonneg x = true -> (x <? 0)%float = false.
Proof.
  unfold nonneg. rewrite ltb_spec.
  change (Prim2SF 0) with (S754_zero false).
  destruct (Prim2SF x) as [[]|[]| |[] m e]; try discriminate; reflexivity.
Qed.

Lemma SF2Prim_nonneg (sf : spec_float) :
  SFnonneg sf = true -> nonneg (SF2Prim sf) = true.
Proof.
  destruct sf as [[]|[]| |[] m e]; try discriminate; intros _;
    try (vm_compute; reflexivity).
  unfold nonneg, SF2Prim. rewrite FloatLemmas.Z_ldexp_spec, of_uint63_spec.
  pose proof (Uint63.to_Z_bounded (Uint63.of_Z (Z.pos m))) as Hb.
  destruct (Uint63.to_Z (Uint63.of_Z (Z.pos m))) as [|p|p]; [reflexivity | | lia].
  pose proof (binary_round_nonneg p 0) as Hr. cbn [binary_normalize].
  destruct (binary_round prec emax false p 0) as [[]|[]| |[] m' e'];
    try discriminate; try reflexivity.
  apply binary_round_nonneg.
Qed.

Lemma b64_of_Z_nonneg (n : Z) : 0 <= n -> nonneg (b64_of_Z n) = true.
Proof.
  intros Hn. unfold b64_of_Z. apply SF2Prim_nonneg, binary_normalize_nonneg, Hn.
Qed.

Lemma b64_round_half_even_nonneg (x : float) :
  nonneg x = true -> 0 <= b64_round_half_even x.
Proof.
  unfold nonneg, b64_round_half_even.
  destruct (Prim2SF x) as [s|s| |s m e]; try lia.
  cbn [SFnonneg]. intros Hs. apply negb_true_iff in Hs. subst s.
  destruct (0 <=? e) eqn:He.
  - apply Z.leb_le in He. apply Z.mul_nonneg_nonneg; [lia|].
    apply Z.pow_nonneg. lia.
  - assert (Hd : 0 < 2 ^ (- e)) by (apply Z.pow_pos_nonneg; lia).
    assert (Hq : 0 <= Z.pos m / 2 ^ (- e)) by (apply Z.div_pos; lia).
    destruct (2 * (Z.pos m mod 2 ^ (- e)) <? 2 ^ (- e)); [exact Hq|].
    destruct (2 ^ (- e) <? 2 * (Z.pos m mod 2 ^ (- e))); [lia|].
    destruct (Z.even (Z.pos m / 2 ^ (- e))); lia.
Qed.

(** ** The measurement on doubles *)

Lemma b64_math_pow2_ok (x r : float) :
  math_pow2 x = Ok r -> nonneg r = true.
Proof.
  unfold math_pow2.
  destruct (negb (fis_nan x) && negb (fis_inf x) && fis_inf (fpow2 x))%bool;
    [discriminate|].
  intros [= <-]. apply b64_mul_same_nonneg.
Qed.

Lemma b64_math_pow2_raises (x : float) (e : exn) :
  math_pow2 x = Raise e -> e = OverflowError.
Proof.
  unfold math_pow2.
  destruct (negb (fis_nan x) && negb (fis_inf x) && fis_inf (fpow2 x))%bool;
    [intros [= <-]; reflexivity | discriminate].
Qed.

(** The square root of a sum of squares is in the domain of [math.sqrt]. *)
Lemma b64_math_sqrt_nonneg (x : float) :
  nonneg x = true ->
  math_sqrt x = Ok (PrimFloat.sqrt x) /\ nonneg (PrimFloat.sqrt x) = true.
Proof.
  intros Hx. unfold math_sqrt.
  change (fis_neg x) with (x <? 0)%float. rewrite (nonneg_not_neg x Hx).
  split; [reflexivity | apply b64_sqrt_nonneg, Hx].
Qed.

Lemma getDistance3D_b64 (sc : Scene float) (verts : list string) :
  match getDistance3D sc verts with
  | Ok l => (2 <= List.length verts)%nat /\ nonneg l = true
  | Raise e =>
      (e = IndexError /\ (List.length verts < 2)%nat) \/
      (e = OverflowError /\ (2 <= List.length verts)%nat)
  end.
Proof.
  unfold getDistance3D.
  destruct verts as [|v0 [|v1 rest]]; simpl; try (left; split; [reflexivity | lia]).
  set (a := pointPosition sc v0). set (b := pointPosition sc v1).
  destruct (math_pow2 (fst (fst a) - fst (fst b))%float) as [dx|e] eqn:Hx;
    [|right; split; [exact (b64_math_pow2_raises _ _ Hx) | lia]].
  destruct (math_pow2 (snd (fst a) - snd (fst b))%float) as [dy|e] eqn:Hy;
    [|right; split; [exact (b64_math_pow2_raises _ _ Hy) | lia]].
  destruct (math_pow2 (snd a - snd b)%float) as [dz|e] eqn:Hz;
    [|right; split; [exact (b64_math_pow2_raises _ _ Hz) | lia]].
  cbn [rbind].
  apply b64_math_pow2_ok in Hx, Hy, Hz.
  destruct (b64_math_sqrt_nonneg (dx + dy + dz)%float) as [Hs Hn].
  { apply b64_add_nonneg; [apply b64_add_nonneg|]; assumption. }
  change (fadd (fadd dx dy) dz) with (dx + dy + dz)%float.
  rewrite Hs. split; [lia | exact Hn].
Qed.

Lemma getDistance2D_b64 (sc : Scene float) (uvs : list string) :
  match getDistance2D sc uvs with
  | Ok l => (2 <= List.length uvs)%nat /\ nonneg l = true
  | Raise e =>
      (e = IndexError /\ (List.length uvs < 2)%nat) \/
      (e = OverflowError /\ (2 <= List.length uvs)%nat)
  end.
Proof.
  unfold getDistance2D.
  destruct uvs as [|v0 [|v1 rest]]; simpl; try (left; split; [reflexivity | lia]).
  set (a := polyEditUV sc v0). set (b := polyEditUV sc v1).
  destruct (math_pow2 (fst a - fst b)%float) as [du|e] eqn:Hu;
    [|right; split; [exact (b64_math_pow2_raises _ _ Hu) | lia]].
  destruct (math_pow2 (snd a - snd b)%float) as [dv|e] eqn:Hv;
    [|right; split; [exact (b64_math_pow2_raises _ _ Hv) | lia]].
  cbn [rbind].
  apply b64_math_pow2_ok in Hu, Hv.
  destruct (b64_math_sqrt_nonneg (du + dv)%float) as [Hs Hn].
  { apply b64_add_nonneg; assumption. }
  change (fadd du dv) with (du + dv)%float.
  rewrite Hs. split; [lia | exact Hn].
Qed.

Lemma call_global_ok {A B : Type} (bound : bool) (f : A -> result B) (a : A)
  (b : B) :
  call_global bound f a = Ok b -> f a = Ok b.
Proof. unfold call_global. destruct bound; [trivial | discriminate]. Qed.

Lemma edgeLenToUnitRatio_b64 (G : Globals) (sc : Scene float) (obj : string)
  (i : nat) (r : float) :
  edgeLenToUnitRatio G sc obj i = Ok r -> nonneg r = true.
Proof.
  unfold edgeLenToUnitRatio. intros Hr.
  apply rbind_ok in Hr as [l [Hl Hr]]. apply call_global_ok in Hl.
  pose proof (getDistance3D_b64 sc (toVertex sc (edge_name obj i))) as Hd.
  rewrite Hl in Hd. destruct Hd as [_ Hn].
  unfold truediv in Hr. destruct (fis_zero l); [discriminate|].
  injection Hr as <-. apply b64_div_nonneg; [|exact Hn].
  apply b64_of_Z_nonneg. lia.
Qed.

Lemma edgeTexelDensity_b64 (G : Globals) (sc : Scene float) (obj : string)
  (i : nat) (d : float) :
  edgeTexelDensity G sc obj i = Ok d -> nonneg d = true.
Proof.
  unfold edgeTexelDensity. intros Hd.
  apply rbind_ok in Hd as [r [Hr Hd]]. apply edgeLenToUnitRatio_b64 in Hr.
  apply rbind_ok in Hd as [l [Hl Hd]]. apply call_global_ok in Hl.
  pose proof (getDistance2D_b64 sc (toUV sc (edge_name obj i))) as H2.
  rewrite Hl in H2. destruct H2 as [_ Hn].
  injection Hd as <-. apply b64_mul_nonneg; [|exact Hr].
  apply b64_mul_nonneg; [|exact Hn]. apply b64_of_Z_nonneg. unfold defaultTextureRes. lia.
Qed.

Lemma mapM_all {A B : Type} (f : A -> result B) (P : B -> Prop) (l : list A) :
  (forall a b, f a = Ok b -> P b) ->
  forall bs, mapM f l = Ok bs -> Forall P bs.
Proof.
  intros Hf. induction l as [|a l IH]; intros bs Hm.
  - injection Hm as <-. constructor.
  - cbn [mapM] in Hm. apply rbind_ok in Hm as [b [Hb Hm]].
    apply rbind_ok in Hm as [bs' [Hbs Hm]]. injection Hm as <-.
    constructor; [exact (Hf a b Hb) | exact (IH bs' Hbs)].
Qed.

Lemma fold_left_add_nonneg (ds : list float) (s : float) :
  nonneg s = true -> Forall (fun d => nonneg d = true) ds ->
  nonneg (fold_left fadd ds s) = true.
Proof.
  revert s. induction ds as [|d ds IH]; intros s Hs Hds; [exact Hs|].
  inversion Hds as [|? ? Hd Hds']; subst. cbn [fold_left].
  apply IH; [|exact Hds']. apply b64_add_nonneg; assumption.
Qed.

(** On doubles, what [texelDensity_of] returns is never negative. *)
Lemma texelDensity_of_b64 (G : Globals) (sc : Scene float) (obj : string) (n : Z) :
  texelDensity_of G sc obj = Ok n -> 0 <= n.
Proof.
  unfold texelDensity_of. intros Hn.
  apply rbind_ok in Hn as [[N s] [Hloop Hn]].
  apply rbind_ok in Hn as [avg [Havg Hn]].
  unfold edge_loop in Hloop.
  apply for_fold_edge_body_ok in Hloop as [ds [Hds [HN Hs]]].
  assert (Hsum : nonneg s = true).
  { rewrite Hs. apply fold_left_add_nonneg.
    - apply b64_of_Z_nonneg. lia.
    - apply (mapM_all _ _ _ (edgeTexelDensity_b64 G sc obj) _ Hds). }
  unfold truediv_int in Havg.
  destruct (N =? 0) eqn:HN0; [discriminate|]. apply Z.eqb_neq in HN0.
  destruct (fis_inf (of_Z N)); [discriminate|]. injection Havg as Havg.
  assert (Havg' : nonneg avg = true).
  { rewrite <- Havg. apply b64_div_nonneg; [exact Hsum|].
    apply b64_of_Z_nonneg. lia. }
  unfold round in Hn.
  destruct (fis_nan avg); [discriminate|].
  destruct (fis_inf avg); [discriminate|].
  injection Hn as <-. apply b64_round_half_even_nonneg, Havg'.
Qed.

(** X13. On doubles both distance helpers return the square root of a sum
    of squares, which is never negative (its sign bit is clear, or it is
    not a number), so [math.sqrt] never raises its [ValueError] there.
    They raise [IndexError] exactly when they are given fewer than two
    points, and apart from that only the [OverflowError] of [math.pow]. *)
Theorem getDistance_outcomes (sc : Scene float) (pts : list string) :
  match getDistance3D sc pts with
  | Ok l => (2 <= List.length pts)%nat /\ nonneg l = true
  | Raise e =>
      (e = IndexError /\ (List.length pts < 2)%nat) \/
      (e = OverflowError /\ (2 <= List.length pts)%nat)
  end /\
  match getDistance2D sc pts with
  | Ok l => (2 <= List.length pts)%nat /\ nonneg l = true
  | Raise e =>
      (e = IndexError /\ (List.length pts < 2)%nat) \/
      (e = OverflowError /\ (2 <= List.length pts)%nat)
  end.
Proof.
  split; [apply getDistance3D_b64 | apply getDistance2D_b64].
Qed.

(** X14. On doubles, whenever [getTexelDensity] displays a value, it is the
    decimal text of an integer that is not negative, whatever the
    geometry. *)
Theorem getTexelDensity_displays_nonneg (G : Globals) (w w' : World float) :
  getTexelDensity G w = (w', Ok tt) ->
  exists n, 0 <= n /\ currentTexelDensity_textField (dialog w') = str n.
Proof.
  rewrite getTexelDensity_run.
  destruct (ls_sl (scene w)) as [|obj rest]; [discriminate|].
  destruct (texelDensity_of G (scene w) obj) as [n|e] eqn:Hn; [|discriminate].
  intros [= <-]. exists n. split; [exact (texelDensity_of_b64 _ _ _ _ Hn)|].
  reflexivity.
Qed.

(** *** Edges of length zero *)

(** A finite double minus itself is [+0.0]. *)
Lemma sub_diag_finite (x : float) : is_finite x = true -> (x - x)%float = 0%float.
Proof.
  intros Hf. apply Prim2SF_inj. rewrite sub_spec.
  change (Prim2SF 0) with (S754_zero false).
  unfold is_finite, is_nan, is_infinity in Hf.
  rewrite !FloatAxioms.eqb_spec, abs_spec in Hf.
  change (Prim2SF infinity) with (S754_infinity false) in Hf.
  destruct (Prim2SF x) as [[]|[]| |s m e]; try discriminate Hf; try reflexivity.
  unfold SF64sub, SFsub. rewrite Z.sub_diag. reflexivity.
Qed.

(** The world length of an edge whose two vertices are at the same finite
    position is [0.0]. *)
Lemma getDistance3D_same_point (sc : Scene float) (v0 v1 : string)
  (rest : list string) :
  pointPosition sc v0 = pointPosition sc v1 ->
  finite_point (pointPosition sc v0) = true ->
  getDistance3D sc (v0 :: v1 :: rest) = Ok 0%float.
Proof.
  intros Hsame Hfin. unfold getDistance3D. simpl. rewrite <- Hsame.
  unfold finite_point in Hfin.
  apply andb_prop in Hfin as [Hfin Hz]. apply andb_prop in Hfin as [Hx Hy].
  change (@fsub float binary64) with PrimFloat.sub.
  rewrite !sub_diag_finite by assumption.
  reflexivity.
Qed.

Lemma for_fold_raises_at {A S : Type} (body : S -> A -> result S) (l : list A)
  (a : A) :
  In a l -> (forall s, exists e, body s a = Raise e) ->
  forall s, exists e, for_fold body l s = Raise e.
Proof.
  intros Hin Hbody. induction l as [|b l IH]; [contradiction|].
  intros s. cbn [for_fold]. destruct Hin as [->|Hin].
  - destruct (Hbody s) as [e He]. exists e. rewrite He. reflexivity.
  - destruct (body s b) as [s'|e]; [|exists e; reflexivity].
    simpl. exact (IH Hin s').
Qed.

(** X15. On doubles, with both helpers in scope, an edge whose two
    vertices are at the same finite position has the world length [0.0],
    and the reciprocal the loop computes for it raises
    [ZeroDivisionError], whether the edge is interior or lies on a seam;
    a mesh that has such an edge is therefore never measured:
    [getTexelDensity] raises and displays nothing. *)
Theorem zero_length_edge_raises (w : World float) (obj : string)
  (sel : list string) (i : nat) (v0 v1 : string) (rest : list string) :
  ls_sl (scene w) = obj :: sel ->
  (i < polyEvaluate_edge (scene w) obj)%nat ->
  toVertex (scene w) (edge_name obj i) = v0 :: v1 :: rest ->
  pointPosition (scene w) v0 = pointPosition (scene w) v1 ->
  finite_point (pointPosition (scene w) v0) = true ->
  edgeLenToUnitRatio with_helpers (scene w) obj i = Raise ZeroDivisionError /\
  exists e, getTexelDensity with_helpers w = (w, Raise e).
Proof.
  intros Hsel Hi Hverts Hsame Hfin.
  assert (Hr : edgeLenToUnitRatio with_helpers (scene w) obj i =
               Raise ZeroDivisionError).
  { unfold edgeLenToUnitRatio. rewrite Hverts. simpl call_global.
    rewrite (getDistance3D_same_point _ _ _ _ Hsame Hfin). reflexivity. }
  split; [exact Hr|].
  rewrite getTexelDensity_run, Hsel.
  destruct (for_fold_raises_at (edge_body with_helpers (scene w) obj)
              (seq 0 (polyEvaluate_edge (scene w) obj)) i) with (s := (0, of_Z (F := float) 0))
    as [e He].
  - apply in_seq. lia.
  - intros [n s]. exists ZeroDivisionError.
    rewrite edge_body_unfold, Hr.
    destruct (interior (scene w) obj i); [|reflexivity].
    unfold edgeTexelDensity. rewrite Hr. reflexivity.
  - exists e. unfold texelDensity_of, edge_loop. rewrite He. reflexivity.
Qed.

(** *** The exceptions of a measurement *)

Lemma for_fold_raises {A S : Type} (body : S -> A -> result S) (l : list A)
  (s : S) (e : exn) :
  for_fold body l s = Raise e -> exists s' a, In a l /\ body s' a = Raise e.
Proof.
  revert s. induction l as [|a l IH]; intros s; [discriminate|].
  cbn [for_fold]. intros Hr. apply rbind_raise in Hr as [Hr | [s1 [_ Hr]]].
  - exists s, a. split; [left; reflexivity | exact Hr].
  - destruct (IH s1 Hr) as [s' [b [Hb Hbody]]].
    exists s', b. split; [right; exact Hb | exact Hbody].
Qed.

Lemma call_global_cases {A B : Type} (bound : bool) (f : A -> result B) (a : A)
  (e : exn) :
  call_global bound f a = Raise e ->
  (bound = true /\ f a = Raise e) \/ (bound = false /\ e = NameError).
Proof.
  unfold call_global. destruct bound; intros Hr.
  - left. split; [reflexivity | exact Hr].
  - right. injection Hr as <-. split; reflexivity.
Qed.

Lemma edgeLenToUnitRatio_exception (G : Globals) (sc : Scene float)
  (obj : string) (i : nat) (e : exn) :
  edgeLenToUnitRatio G sc obj i = Raise e -> measure_exception G e.
Proof.
  unfold edgeLenToUnitRatio, measure_exception. intros Hr.
  apply rbind_raise in Hr as [Hr | [l [_ Hr]]].
  - apply call_global_cases in Hr as [[_ Hr] | [Hb ->]].
    + pose proof (getDistance3D_b64 sc (toVertex sc (edge_name obj i))) as Hd.
      rewrite Hr in Hd. destruct Hd as [[-> _] | [-> _]]; auto.
    + do 4 right. split; [reflexivity | left; exact Hb].
  - apply truediv_raises in Hr as [-> _]. auto.
Qed.

Lemma edge_body_exception (G : Globals) (sc : Scene float) (obj : string)
  (acc : Z * float) (i : nat) (e : exn) :
  edge_body G sc obj acc i = Raise e -> measure_exception G e.
Proof.
  destruct acc as [n s]. rewrite edge_body_unfold. unfold interior.
  destruct (Nat.eqb (List.length (toUV sc (edge_name obj i))) 2) eqn:Hlen.
  - intros Hr. apply rbind_raise in Hr as [Hr | [d [_ Hr]]]; [|discriminate].
    unfold edgeTexelDensity in Hr.
    apply rbind_raise in Hr as [Hr | [r [_ Hr]]];
      [exact (edgeLenToUnitRatio_exception _ _ _ _ _ Hr)|].
    apply rbind_raise in Hr as [Hr | [l [_ Hr]]]; [|discriminate].
    apply call_global_cases in Hr as [[_ Hr] | [Hb ->]].
    + pose proof (getDistance2D_b64 sc (toUV sc (edge_name obj i))) as Hd.
      rewrite Hr in Hd. unfold measure_exception.
      destruct Hd as [[-> _] | [-> _]]; auto.
    + do 4 right. split; [reflexivity | right; exact Hb].
  - intros Hr. apply rbind_raise in Hr as [Hr | [r [_ Hr]]]; [|discriminate].
    exact (edgeLenToUnitRatio_exception _ _ _ _ _ Hr).
Qed.

(** X16. On doubles, and with a host that answers every query,
    [getTexelDensity] raises nothing but [IndexError] (nothing selected,
    or an edge with fewer than two vertices), [ZeroDivisionError] (an edge
    of length zero, or no edge with two UVs), [OverflowError] (a square, a
    count or an average out of range), [ValueError] (an average that is
    not a number) and, when a helper is not in scope, [NameError].  With
    both helpers in scope [NameError] is excluded too. *)
Theorem getTexelDensity_exceptions (G : Globals) (w w' : World float) (e : exn) :
  getTexelDensity G w = (w', Raise e) ->
  measure_exception G e /\ (G = with_helpers -> e <> NameError).
Proof.
  intros Hrun.
  assert (He : measure_exception G e).
  { rewrite getTexelDensity_run in Hrun.
    destruct (ls_sl (scene w)) as [|obj rest].
    - injection Hrun as _ <-. left. reflexivity.
    - destruct (texelDensity_of G (scene w) obj) as [n|e'] eqn:Hn;
        [discriminate|]. injection Hrun as _ <-.
      unfold texelDensity_of in Hn.
      apply rbind_raise in Hn as [Hn | [[N s] [_ Hn]]].
      + unfold edge_loop in Hn.
        apply for_fold_raises in Hn as [acc [i [_ Hbody]]].
        exact (edge_body_exception _ _ _ _ _ _ Hbody).
      + apply rbind_raise in Hn as [Hn | [avg [_ Hn]]].
        * unfold truediv_int in Hn. unfold measure_exception.
          destruct (N =? 0); [injection Hn as <-; auto|].
          destruct (fis_inf (of_Z N)); [injection Hn as <-; auto | discriminate].
        * unfold round in Hn. unfold measure_exception.
          destruct (fis_nan avg); [injection Hn as <-; auto|].
          destruct (fis_inf avg); [injection Hn as <-; auto | discriminate]. }
  split; [exact He|].
  intros -> ->. unfold measure_exception in He.
  destruct He as [He | [He | [He | [He | [_ [Hb | Hb]]]]]]; discriminate.
Qed.

(** ** The measurement, with the helpers in scope *)

Section Average.

Context {F : Type} `{PyFloat F}.

(** X17. For any float arithmetic, whatever its [math.pow] is: with both
    helpers in scope and every seam edge of a world length other than
    zero, [getTexelDensity] displays the rounded, unweighted mean over the
    edges with exactly two UVs of [2048 * uvLen * (1 / worldLen)], each
    edge counting once whatever its length, and raises exactly when
    computing that mean raises. *)
Theorem getTexelDensity_measures_average (w : World F) (obj : string)
  (sel : list string) :
  ls_sl (scene w) = obj :: sel ->
  (forall i, (i < polyEvaluate_edge (scene w) obj)%nat ->
             interior (scene w) obj i = false ->
             exists l, worldLen (scene w) obj i = Ok l /\ fis_zero l = false) ->
  getTexelDensity with_helpers w =
  match measure_spec (scene w) obj with
  | Ok n => (setText_set "" (setText_current (str n) w), Ok tt)
  | Raise e => (w, Raise e)
  end.
Proof.
  intros Hsel Hseam.
  rewrite getTexelDensity_run, Hsel, (texelDensity_of_measure_spec _ _ Hseam).
  reflexivity.
Qed.

End Average.

(** ** The properties above, at concrete inputs *)

Lemma saveTexelDensity_reads_back_1024 :
  let w := setText_set "1024" (fresh triangle) in
  saveTexelDensity w = (set_target (Some 1024) w, Ok tt).
Proof.
  apply (saveTexelDensity_reads_back
           (setText_set "1024" (fresh triangle)) 1024).
  - vm_compute. reflexivity.
  - reflexivity.
Defined.

Lemma saveTexelDensity_failure_abc :
  let w := setText_set "abc" (typed "1024" (fresh triangle)) in
  saveTexelDensity w = (w, Raise ValueError) /\
  (ValueError = ValueError /\ w = w) /\
  targetTexelDensity (dialog w) = Some 1024.
Proof.
  split; [vm_compute; reflexivity|]. split; [|reflexivity].
  apply (saveTexelDensity_failure
           (setText_set "abc" (typed "1024" (fresh triangle)))
           (setText_set "abc" (typed "1024" (fresh triangle))) ValueError).
  vm_compute. reflexivity.
Defined.

Lemma saveTexelDensity_rejects_decimal_point :
  let w := setText_set "1.5" (fresh triangle) in
  saveTexelDensity w = (w, Raise ValueError).
Proof.
  apply (saveTexelDensity_rejects (setText_set "1.5" (fresh triangle))).
  right. reflexivity.
Defined.

Lemma saveTexelDensity_ignores_blanks_1024 :
  let w := fresh triangle in
  snd (saveTexelDensity (setText_set (" " ++ "1024" ++ "  ") w)) =
    snd (saveTexelDensity (setText_set "1024" w)) /\
  targetTexelDensity
    (dialog (fst (saveTexelDensity (setText_set (" " ++ "1024" ++ "  ") w)))) =
  targetTexelDensity (dialog (fst (saveTexelDensity (setText_set "1024" w)))).
Proof.
  apply (saveTexelDensity_ignores_blanks (fresh triangle) " " "1024" "  ");
    reflexivity.
Defined.

Lemma getTexelDensity_twice_triangle :
  let w' := setText_set "" (setText_current "205" (fresh triangle)) in
  getTexelDensity with_helpers w' = (w', Ok tt) /\
  scene w' = scene (fresh triangle) /\
  unfold_calls w' = unfold_calls (fresh triangle) /\
  (forall e, Ok tt = Raise e -> w' = fresh triangle).
Proof.
  apply (getTexelDensity_twice with_helpers (fresh triangle)
           (setText_set "" (setText_current "205" (fresh triangle))) (Ok tt)).
  vm_compute. reflexivity.
Defined.

Lemma set_texel_density_failure_failing_unfold :
  let w := typed "1024" (fresh triangle) in
  let w' := fst (set_texel_density failing_unfold w) in
  dialog w' = dialog w /\
  ((scaleTarget_of (F := float) (targetTexelDensity (dialog w)) =
      Raise RuntimeError /\ w' = w) \/
   exists s pre obj post,
     scaleTarget_of (targetTexelDensity (dialog w)) = Ok s /\
     ls_sl_flatten (scene w) = (pre ++ obj :: post)%list /\
     for_fold (fun sc o => failing_unfold o s sc) pre (scene w) = Ok (scene w') /\
     failing_unfold obj s (scene w') = Raise RuntimeError /\
     unfold_calls w' =
       (unfold_calls w ++ map (fun o => (o, s)) (pre ++ [obj]))%list).
Proof.
  apply (set_texel_density_failure failing_unfold
           (typed "1024" (fresh triangle))
           (fst (set_texel_density failing_unfold (typed "1024" (fresh triangle))))
           RuntimeError).
  vm_compute. reflexivity.
Defined.

Lemma set_texel_density_success_1024 :
  let w := typed "1024" (fresh triangle) in
  let w' := fst (set_texel_density scaling_unfold w) in
  exists t s,
    targetTexelDensity (dialog w) = Some t /\
    scaleTarget_of (Some t) = Ok s /\
    for_fold (fun sc o => scaling_unfold o s sc) (ls_sl_flatten (scene w)) (scene w)
      = Ok (scene w') /\
    unfold_calls w' =
      (unfold_calls w ++ map (fun o => (o, s)) (ls_sl_flatten (scene w)))%list.
Proof.
  apply (set_texel_density_success scaling_unfold
           (typed "1024" (fresh triangle))
           (fst (set_texel_density scaling_unfold (typed "1024" (fresh triangle))))).
  vm_compute. reflexivity.
Defined.

Lemma session_target_1024 :
  targetTexelDensity
    (dialog (session scaling_unfold with_helpers
               [ClickSet; Edit "abc"; Edit "1024"; ClickGet; Edit ""; ClickSet]
               (fresh triangle))) =
  last_entered [ClickSet; Edit "abc"; Edit "1024"; ClickGet; Edit ""; ClickSet]
    (targetTexelDensity (dialog (fresh triangle))).
Proof.
  apply (session_target scaling_unfold with_helpers
           [ClickSet; Edit "abc"; Edit "1024"; ClickGet; Edit ""; ClickSet]
           (fresh triangle)).
  vm_compute. reflexivity.
Defined.

Lemma session_unfold_calls_1024 :
  exists pre post text t,
    [ClickSet; Edit "abc"; Edit "1024"; ClickGet; ClickSet] =
      (pre ++ ClickSet :: post)%list /\
    In (Edit text) pre /\ int_of_str text = Ok t /\
    last_entered pre None = Some t /\
    scaleTarget_of (Some t) = Ok 0.5%float.
Proof.
  apply (session_unfold_calls scaling_unfold with_helpers
           [ClickSet; Edit "abc"; Edit "1024"; ClickGet; ClickSet]
           triangle "pPlane1" 0.5%float).
  - vm_compute. reflexivity.
  - vm_compute. left. reflexivity.
Defined.

Lemma getTexelDensity_displays_nonneg_triangle :
  exists n, 0 <= n /\
    currentTexelDensity_textField
      (dialog (setText_set "" (setText_current "205" (fresh triangle)))) = str n.
Proof.
  apply (getTexelDensity_displays_nonneg with_helpers (fresh triangle)
           (setText_set "" (setText_current "205" (fresh triangle)))).
  vm_compute. reflexivity.
Defined.

Lemma zero_length_edge_raises_collapsed_seam :
  edgeLenToUnitRatio with_helpers (scene (fresh collapsed_seam)) "pPlane1" 1 =
    Raise ZeroDivisionError /\
  exists e, getTexelDensity with_helpers (fresh collapsed_seam) =
              (fresh collapsed_seam, Raise e).
Proof.
  apply (zero_length_edge_raises (fresh collapsed_seam) "pPlane1" [] 1
           "pPlane1.vtx[1]" "pPlane1.vtx[3]" []).
  - reflexivity.
  - vm_compute. lia.
  - reflexivity.
  - reflexivity.
  - vm_compute. reflexivity.
Defined.

Lemma getTexelDensity_exceptions_collapsed_seam :
  measure_exception with_helpers ZeroDivisionError /\
  (with_helpers = with_helpers -> ZeroDivisionError <> NameError).
Proof.
  apply (getTexelDensity_exceptions with_helpers (fresh collapsed_seam)
           (fresh collapsed_seam) ZeroDivisionError).
  vm_compute. reflexivity.
Defined.

(** On [skewed] the displayed value depends on the [pow] of the C library:
    with the correctly rounded square the mean is the tie 10.5, displayed
    as 10; with the [pow] of glibc 2.36 it is the next double, displayed as
    11. *)
Lemma skewed_display_depends_on_pow :
  (PrimFloat.mul skew_u skew_u = 0x1.4ce6ce0b8481bp-16%float /\
   pow_glibc_skewed skew_u = 0x1.4ce6ce0b8481cp-16%float) /\
  getTexelDensity with_helpers (fresh skewed) =
    (setText_set "" (setText_current "10" (fresh skewed)), Ok tt) /\
  getTexelDensity (H := binary64_with_pow pow_glibc_skewed) with_helpers
    (fresh skewed) =
    (setText_set "" (setText_current "11" (fresh skewed)), Ok tt).
Proof. vm_compute. repeat split. Qed.

Lemma getTexelDensity_measures_average_skewed :
  getTexelDensity (H := binary64_with_pow pow_glibc_skewed) with_helpers
    (fresh skewed) =
  match measure_spec (H := binary64_with_pow pow_glibc_skewed)
          (scene (fresh skewed)) "pPlane1" with
  | Ok n => (setText_set "" (setText_current (str n) (fresh skewed)), Ok tt)
  | Raise e => (fresh skewed, Raise e)
  end.
Proof.
  apply (getTexelDensity_measures_average
           (H := binary64_with_pow pow_glibc_skewed) (fresh skewed) "pPlane1" []).
  - reflexivity.
  - intros i Hi Hint. destruct i as [|[|i]].
    + discriminate Hint.
    + exists (PrimFloat.sqrt 2). split; vm_compute; reflexivity.
    + vm_compute in Hi. lia.
Defined.
